(** * Task graph reconciliation core of agent-task-master

    A shallow embedding of the direct functions and MCP tools that merge,
    expand and filter the task document:

    - [saveUpdatedTasksDirect]          (core/direct-functions/save-updated-tasks.js)
    - [saveMultipleTaskSubtasksDirect]  (core/direct-functions/save-multiple-task-subtasks.js)
    - [expandTaskDirect]                (core/direct-functions/expand-task.js)
    - [generateSubtaskPrompt], [parseSubtasksFromText]  (core/utils/ai-client-utils.js)
    - the [expand_all] tool, in its two revisions (tools/expand-all.js)
    - the [update] tool with its range filter (tools/update.js), the
      [update_task] tool (tools/update-task.js) and the analyze tool
      (tools/analyze.js), with the parsers and prompt builders they import
    - the clients and [getBestAvailableAIModel]  (core/utils/ai-client-utils.js)

    JavaScript values are modelled by the fragment the code touches: ids are
    numbers or strings, numbers are NaN, the infinities or an exact rational,
    a [Map] is an insertion-ordered association list, mutation of the task
    array is explicit state passing over the list of tasks. *)

From Stdlib Require Import ZArith QArith Qround Lqa String Ascii Sorted.
From stdpp Require Import base option list strings pretty gmap.

Local Open Scope Z_scope.
Local Open Scope string_scope.
Local Open Scope list_scope.

(** ** The JavaScript fragment *)

Module Js.

(** A JavaScript number.  Finite values are exact rationals: the ids and
    scores the code compares are short decimal numerals, and rounding to
    binary64 and overflow to an infinity are not modelled.  [-0] is [0]. *)
Inductive JsNumber : Type :=
| NaN
| NegInf
| Fin (q : Q)
| PosInf.

Definition of_Z (z : Z) : JsNumber := Fin (inject_Z z).

Definition isNaN (v : JsNumber) : bool :=
  match v with NaN => true | _ => false end.

(** [a >= b] *)
Definition ge (a b : JsNumber) : bool :=
  match a, b with
  | NaN, _ | _, NaN => false
  | PosInf, _ => true
  | _, NegInf => true
  | Fin x, Fin y => Qle_bool y x
  | _, _ => false
  end.

(** [a - b] *)
Definition sub (a b : JsNumber) : JsNumber :=
  match a, b with
  | NaN, _ | _, NaN => NaN
  | PosInf, PosInf | NegInf, NegInf => NaN
  | PosInf, _ => PosInf
  | NegInf, _ => NegInf
  | Fin _, PosInf => NegInf
  | Fin _, NegInf => PosInf
  | Fin x, Fin y => Fin (x - y)
  end.

(** [v > 0] *)
Definition positive (v : JsNumber) : bool :=
  match v with
  | PosInf => true
  | Fin q => negb (Qle_bool q 0)
  | _ => false
  end.

(** [v < 0] *)
Definition negative (v : JsNumber) : bool :=
  match v with
  | NegInf => true
  | Fin q => negb (Qle_bool 0 q)
  | _ => false
  end.

(** *** Numeric literals: [parseFloat] and [parseInt] *)

(** White space skipped in front of a numeral (the ASCII part of
    StrWhiteSpaceChar). *)
Definition is_ws (c : ascii) : bool :=
  let n := nat_of_ascii c in
  ((n =? 32)%nat || ((9 <=? n)%nat && (n <=? 13)%nat))%bool.

Fixpoint skip_ws (s : string) : string :=
  match s with
  | String c s' => if is_ws c then skip_ws s' else s
  | EmptyString => s
  end.

Definition digit_of (c : ascii) : option Z :=
  let n := Z.of_nat (nat_of_ascii c) in
  if ((48 <=? n)%Z && (n <=? 57)%Z)%bool then Some (n - 48)%Z else None.

(** The longest run of decimal digits in front of [s]: the value read on
    top of [acc], how many digits were read on top of [cnt], the rest. *)
Fixpoint read_digits (s : string) (acc : Z) (cnt : nat) : Z * nat * string :=
  match s with
  | String c s' =>
      match digit_of c with
      | Some d => read_digits s' (10 * acc + d) (S cnt)
      | None => (acc, cnt, s)
      end
  | EmptyString => (acc, cnt, s)
  end.

(** An optional sign; [true] is minus. *)
Definition read_sign (s : string) : bool * string :=
  match s with
  | String "-" s' => (true, s')
  | String "+" s' => (false, s')
  | _ => (false, s)
  end.

(** An ExponentPart is read only when it is complete. *)
Definition read_exponent (s : string) : Z :=
  match s with
  | String c s' =>
      if (Ascii.eqb c "e" || Ascii.eqb c "E")%bool then
        let '(neg, s'') := read_sign s' in
        let '(v, n, _) := read_digits s'' 0 0 in
        if (n =? 0)%nat then 0 else if neg then - v else v
      else 0
  | EmptyString => 0
  end.

(** [m * 10^e] *)
Definition scale10 (m e : Z) : Q :=
  if (0 <=? e)%Z then inject_Z (m * 10 ^ e)
  else Qmake m (Z.to_pos (10 ^ (- e))).

(** [parseFloat(s)]: the longest prefix of the trimmed string that is a
    StrDecimalLiteral, NaN when there is none. *)
Definition parseFloat (s : string) : JsNumber :=
  let '(neg, s1) := read_sign (skip_ws s) in
  if String.prefix "Infinity" s1 then (if neg then NegInf else PosInf)
  else
    let '(ip, ni, s2) := read_digits s1 0 0 in
    let '(mant, nf, s3) :=
      match s2 with
      | String "." s2' => read_digits s2' ip 0
      | _ => (ip, 0%nat, s2)
      end in
    if ((ni =? 0)%nat && (nf =? 0)%nat)%bool then NaN
    else Fin (scale10 (if neg then - mant else mant)
                      (read_exponent s3 - Z.of_nat nf)).

(** [parseInt(s, 10)]: an integer, or [None] for NaN. *)
Definition parseInt (s : string) : option Z :=
  let '(neg, s1) := read_sign (skip_ws s) in
  let '(v, n, _) := read_digits s1 0 0 in
  if (n =? 0)%nat then None else Some (if neg then - v else v).

(** The number a [parseInt] result is. *)
Definition of_parsed (r : option Z) : JsNumber :=
  match r with Some z => of_Z z | None => NaN end.

(** Truthiness of a number: [NaN] and [0] are falsy. *)
Definition truthy (v : JsNumber) : bool :=
  match v with
  | NaN => false
  | Fin q => negb (Qeq_bool q 0)
  | _ => true
  end.

(** *** [Array.prototype.sort]

    For a comparator that is consistent on the elements ECMAScript fixes
    the result: the stable arrangement in ascending order, [stable_sort]
    below.  For an inconsistent one (ids that parse to NaN next to numeric
    ones) the order is left to the engine.  [Array_sort] is what V8, the
    engine of Node.js, does (third_party/v8/builtins/array-sort.tq): the
    initial run is found and, when it is strictly descending, reversed
    ([CountAndMakeRun]); the elements after it are then put in their
    place one by one, found by binary search ([BinaryInsertionSort]).  A
    comparator result is read as a number and a NaN counts as [+0].  V8
    treats the whole array in this way when it has fewer than 64
    elements; a longer array is cut into several such runs that are
    merged afterwards, which is not modelled: for arrays that long
    [Array_sort] is V8's result on consistent comparators only. *)
Section Sort.
Context {A : Type} (comparefn : A -> A -> JsNumber).

(** [x] put in front of the first element it need not move behind:
    it moves behind [y] exactly when [comparefn(x, y) > 0]. *)
Fixpoint sort_insert (x : A) (l : list A) : list A :=
  match l with
  | [] => [x]
  | y :: l' =>
      if positive (comparefn x y) then y :: sort_insert x l'
      else x :: y :: l'
  end.

(** The stable arrangement in ascending order. *)
Definition stable_sort (l : list A) : list A :=
  foldr sort_insert [] l.

(** The loop of [CountAndMakeRun]: the elements after [previousElement]
    that continue the run, and the elements from the break on. *)
Fixpoint run_rest (isDescending : bool) (previousElement : A) (l : list A)
  : list A * list A :=
  match l with
  | [] => ([], [])
  | currentElement :: l' =>
      let order := comparefn currentElement previousElement in
      if (if isDescending then negb (negative order) else negative order)
      then ([], l)
      else
        let '(run, rest) := run_rest isDescending currentElement l' in
        (currentElement :: run, rest)
  end.

(** The initial run, reversed when it is descending, and the rest. *)
Definition CountAndMakeRun (l : list A) : list A * list A :=
  match l with
  | elementHigh :: elementLow :: l' =>
      let isDescending := negative (comparefn elementLow elementHigh) in
      let '(run, rest) := run_rest isDescending elementLow l' in
      let whole := elementHigh :: elementLow :: run in
      (if isDescending then rev whole else whole, rest)
  | _ => (l, [])
  end.

(** The loop [while (left < right)] that looks for the place of [pivot]
    in [a]; every iteration shrinks [right - left], so that many [steps]
    are enough. *)
Fixpoint search (steps : nat) (pivot : A) (a : list A) (left right : nat) : nat :=
  match steps with
  | O => left
  | S steps' =>
      if (left <? right)%nat then
        let mid := (left + (right - left) / 2)%nat in
        match a !! mid with
        | Some e =>
            if negative (comparefn pivot e)
            then search steps' pivot a left mid
            else search steps' pivot a (S mid) right
        | None => left
        end
      else left
  end.

(** One iteration of [BinaryInsertionSort]: [pivot] is moved to its place
    in the elements [a] before it. *)
Definition binary_insert (a : list A) (pivot : A) : list A :=
  let left := search (length a) pivot a 0 (length a) in
  take left a ++ pivot :: drop left a.

Definition BinaryInsertionSort (run rest : list A) : list A :=
  foldl binary_insert run rest.

Definition Array_sort (l : list A) : list A :=
  let '(run, rest) := CountAndMakeRun l in
  BinaryInsertionSort run rest.

(** [pivot] put behind the elements it does not precede. *)
Fixpoint upper_insert (pivot : A) (a : list A) : list A :=
  match a with
  | [] => [pivot]
  | e :: a' =>
      if negative (comparefn pivot e) then pivot :: e :: a'
      else e :: upper_insert pivot a'
  end.

(** Insertion from the left, one element after the other. *)
Definition left_sort (l : list A) : list A :=
  foldl (fun a pivot => upper_insert pivot a) [] l.

(** The comparator is consistent on [l]: it compares by a rank. *)
Definition ranked (rank : A -> Q) (l : list A) : Prop :=
  forall a b, a ∈ l -> b ∈ l -> comparefn a b = Fin (rank a - rank b).

(** In ascending order of rank. *)
Definition rank_sorted (rank : A -> Q) : list A -> Prop :=
  StronglySorted (fun u v => (rank u <= rank v)%Q).

(** A run: each element stands in the same relation to the one before. *)
Fixpoint chain (isDescending : bool) (previousElement : A) (l : list A) : Prop :=
  match l with
  | [] => True
  | currentElement :: l' =>
      negative (comparefn currentElement previousElement) = isDescending /\
      chain isDescending currentElement l'
  end.
End Sort.

(** *** [Map] with string keys: insertion-ordered *)
Section JsMap.
Context {V : Type}.

Definition JsMap : Type := list (string * V).

Fixpoint Map_set (k : string) (v : V) (m : JsMap) : JsMap :=
  match m with
  | [] => [(k, v)]
  | (k', v') :: m' =>
      if String.eqb k k' then (k, v) :: m'
      else (k', v') :: Map_set k v m'
  end.

Fixpoint Map_get (k : string) (m : JsMap) : option V :=
  match m with
  | [] => None
  | (k', v') :: m' => if String.eqb k k' then Some v' else Map_get k m'
  end.

(** Keys are unique in a [Map]; deleting drops the entry of [k]. *)
Definition Map_delete (k : string) (m : JsMap) : JsMap :=
  List.filter (fun e => negb (String.eqb k (fst e))) m.

Definition Map_values (m : JsMap) : list V := map snd m.
Definition Map_size (m : JsMap) : nat := length m.
End JsMap.
Arguments JsMap : clear implicits.

End Js.

Import Js.

(** ** Data model *)

(** A task id as JSON carries it: a number or a string.  Numeric ids are
    integers (the data model's type); a fractional id can only be held as a
    string such as ["1.5"]. *)
Inductive JsId : Type :=
| IdNum (n : Z)
| IdStr (s : string).

Global Instance JsId_eq_dec : EqDecision JsId.
Proof. solve_decision. Defined.

(** [String(id)] *)
Definition ToString (i : JsId) : string :=
  match i with
  | IdNum n => pretty n
  | IdStr s => s
  end.

(** [id === v] for an integer number [v]: a string id is never strictly
    equal to a number. *)
Definition strict_eq_number (i : JsId) (v : Z) : bool :=
  match i with
  | IdNum n => (n =? v)%Z
  | IdStr _ => false
  end.

(** [array.findIndex(f)]; [None] is [-1]. *)
Fixpoint findIndex {A : Type} (f : A -> bool) (l : list A) : option nat :=
  match l with
  | [] => None
  | x :: l' => if f x then Some 0%nat else option_map S (findIndex f l')
  end.

(** A subtask object.  [None] is an absent property. *)
Record Subtask : Type := mkSubtask {
  st_id : option Z;
  st_title : option string;
  st_description : option string;
  st_details : option string;
  st_status : option string
}.

Global Instance Subtask_eq_dec : EqDecision Subtask.
Proof. solve_decision. Defined.

(** A task object.  An absent [status] reads as the empty string, which is
    equal to none of the status literals the code compares with. *)
Record Task : Type := mkTask {
  task_id : JsId;
  task_title : string;
  task_description : string;
  task_details : string;
  task_testStrategy : string;
  task_status : string;
  task_dependencies : list JsId;
  task_priority : string;
  task_subtasks : option (list Subtask)
}.

Global Instance Task_eq_dec : EqDecision Task.
Proof. solve_decision. Defined.

(** [task.subtasks = subs] *)
Definition set_subtasks (subs : list Subtask) (t : Task) : Task :=
  mkTask (task_id t) (task_title t) (task_description t) (task_details t)
         (task_testStrategy t) (task_status t) (task_dependencies t)
         (task_priority t) (Some subs).

Record Document : Type := mkDocument {
  tasks : list Task;
  metadata : string
}.

(** [{ ...existingTasksData, tasks }] *)
Definition with_tasks (d : Document) (ts : list Task) : Document :=
  mkDocument ts (metadata d).

Record AnalysisEntry : Type := mkAnalysisEntry {
  a_id : JsId;
  a_taskId : JsId;
  a_complexityScore : Q;
  a_justification : string;
  a_recommendedSubtasks : option JsNumber
}.

(** A complexity report object; [complexityAnalysis] may be absent. *)
Record ComplexityReport : Type := mkComplexityReport {
  complexityAnalysis : option (list AnalysisEntry)
}.

(** What the operations read and overwrite: the tasks file at
    [tasksJsonPath] ([None]: [readJSON] yields nothing with a [tasks] array)
    and the complexity report next to it ([None]: no such file). *)
Record World : Type := mkWorld {
  tasks_file : option Document;
  report_file : option ComplexityReport
}.

Definition readJSON (w : World) : option Document := tasks_file w.

(** [writeJSON(tasksJsonPath, data)]: a whole-document overwrite. *)
Definition writeJSON (d : Document) (w : World) : World :=
  mkWorld (Some d) (report_file w).

(** The uniform result envelope [{ success, data | error }]. *)
Record ErrorInfo : Type := mkError { code : string; message : string }.

Inductive Envelope (D : Type) : Type :=
| Success (data : D)
| Failure (error : ErrorInfo).
Arguments Success {D} data.
Arguments Failure {D} error.

(** The outcome of a sampling request: rejected with a message, or a
    completion whose text is [""] when it is empty or missing. *)
Inductive SamplingOutcome : Type :=
| Rejected (msg : string)
| Resolved (text : string).


(** The subtask ids are exactly [1..N]. *)
Definition contiguous_ids (subs : list Subtask) : Prop :=
  map st_id subs = map (fun i => Some (Z.of_nat i)) (seq 1 (length subs)).

Definition task_contiguous (t : Task) : Prop :=
  match task_subtasks t with
  | Some subs => contiguous_ids subs
  | None => True
  end.

(** ** save-updated-tasks.js *)

Module SaveUpdatedTasks.

(** [args.updatedTasks] is whatever the caller passed. *)
Inductive UpdatesArg : Type :=
| NotAnArray
| ArrayOf (updatedTasks : list Task).

(** Empty strings stand for missing path arguments (both are falsy). *)
Record Args : Type := mkArgs {
  tasksJsonPath : string;
  projectRoot : string;
  updatedTasks : UpdatesArg
}.

Definition key (t : Task) : string := ToString (task_id t).

(** [updatedTasks.forEach(task => updatedTasksMap.set(String(task.id), task))] *)
Definition updatedTasksMap (updatedTasks : list Task) : JsMap Task :=
  foldl (fun m task => Map_set (key task) task m) [] updatedTasks.

(** [existingTasksData.tasks.map(task => ...)], with the map the callback
    deletes from threaded through; [has] and [get] are one lookup. *)
Fixpoint mergeTasks (existing : list Task) (m : JsMap Task)
  : list Task * JsMap Task :=
  match existing with
  | [] => ([], m)
  | task :: rest =>
      let taskIdStr := key task in
      match Map_get taskIdStr m with
      | Some updatedTask =>
          let '(out, m') := mergeTasks rest (Map_delete taskIdStr m) in
          (updatedTask :: out, m')
      | None =>
          let '(out, m') := mergeTasks rest m in
          (task :: out, m')
      end
  end.

(** [(a, b) => parseFloat(String(a.id)) - parseFloat(String(b.id))] *)
Definition compareById (a b : Task) : JsNumber :=
  sub (parseFloat (key a)) (parseFloat (key b)).

Definition mergedTasks (existing updatedTasks : list Task) : list Task :=
  let '(merged, m) := mergeTasks existing (updatedTasksMap updatedTasks) in
  if (0 <? Map_size m)%nat
  then Array_sort compareById (merged ++ Map_values m)
  else merged.

Definition Array_isArray (u : UpdatesArg) : bool :=
  match u with ArrayOf _ => true | NotAnArray => false end.

Definition elements (u : UpdatesArg) : list Task :=
  match u with ArrayOf l => l | NotAnArray => [] end.

Definition saveUpdatedTasksDirect (args : Args) (w : World)
  : Envelope string * World :=
  if String.eqb (tasksJsonPath args) "" || String.eqb (projectRoot args) ""
     || negb (Array_isArray (updatedTasks args))
  then
    (Failure (mkError "MISSING_ARGS"
       "Missing required arguments: tasksJsonPath, projectRoot, or updatedTasks array."), w)
  else
    let updated := elements (updatedTasks args) in
    match readJSON w with
    | None =>
        (Failure (mkError "SAVE_ERROR"
           "Failed to save updated tasks: Failed to read or parse existing tasks.json."), w)
    | Some existingTasksData =>
        let finalTasksData :=
          with_tasks existingTasksData
            (mergedTasks (tasks existingTasksData) updated) in
        (* regenerating the per-task files is wrapped in its own
           try/catch: its outcome changes neither file nor envelope *)
        (Success ("Successfully saved " +:+ pretty (length updated)
                    +:+ " updated tasks."),
         writeJSON finalTasksData w)
    end.

End SaveUpdatedTasks.

(** ** save-multiple-task-subtasks.js *)

Module SaveMultipleTaskSubtasks.

(** One element of [subtaskUpdates]; [su_subtasks] is [None] when the
    object has no [subtasks] array (then [subtasks.map] throws). *)
Record SubtaskUpdate : Type := mkSubtaskUpdate {
  su_taskId : JsId;
  su_subtasks : option (list Subtask)
}.

(** Empty strings stand for missing path arguments; the three argument
    checks of the guard lead to the same return. *)
Record Args : Type := mkArgs {
  tasksJsonPath : string;
  projectRoot : string;
  subtaskUpdates : option (list SubtaskUpdate);   (* [None]: not an array *)
  force : bool
}.

Record Counts : Type := mkCounts { updatedCount : nat; skippedCount : nat }.

(** [new Map(tasks.map((task, index) => [String(task.id), { task, index }]))]:
    a later task with the same key overrides an earlier one.  The entry's
    [task] is the very object in the array slot [index], so the model
    keeps the index and reads the object from the current array. *)
Definition taskMap (existing : list Task) : gmap string nat :=
  foldl (fun m '(index, task) => <[ToString (task_id task) := index]> m)
        ∅ (imap (fun index task => (index, task)) existing).

(** [subtasks.map((sub, index) => ({ ...sub, id: index + 1 }))] *)
Definition renumber (subs : list Subtask) : list Subtask :=
  imap (fun index sub =>
          mkSubtask (Some (Z.of_nat index + 1)) (st_title sub)
                    (st_description sub) (st_details sub) (st_status sub))
       subs.

Definition has_subtasks (t : Task) : bool :=
  match task_subtasks t with
  | Some (_ :: _) => true
  | _ => false
  end.

(** One iteration of [for (const update of subtaskUpdates)]; [None] is
    an exception leaving the loop. *)
Definition step (tm : gmap string nat) (force : bool)
    (st : list Task * Counts) (update : SubtaskUpdate)
  : option (list Task * Counts) :=
  let '(ts, c) := st in
  let taskIdStr := ToString (su_taskId update) in
  match tm !! taskIdStr with
  | Some parentTaskIndex =>
      match ts !! parentTaskIndex with
      | Some parentTask =>   (* the slot the index was taken from *)
          if has_subtasks parentTask && negb force
          then Some (ts, mkCounts (updatedCount c) (S (skippedCount c)))
          else
            match su_subtasks update with
            | Some subs =>
                Some (<[parentTaskIndex := set_subtasks (renumber subs) parentTask]> ts,
                      mkCounts (S (updatedCount c)) (skippedCount c))
            | None => None
            end
      | None => None
      end
  | None => Some (ts, mkCounts (updatedCount c) (S (skippedCount c)))
  end.

Fixpoint loop (tm : gmap string nat) (force : bool)
    (st : list Task * Counts) (updates : list SubtaskUpdate)
  : option (list Task * Counts) :=
  match updates with
  | [] => Some st
  | update :: rest =>
      match step tm force st update with
      | Some st' => loop tm force st' rest
      | None => None
      end
  end.

Record Data : Type := mkData {
  d_message : string;
  d_updatedCount : nat;
  d_skippedCount : nat
}.

Definition saveMultipleTaskSubtasksDirect (args : Args) (w : World)
  : Envelope Data * World :=
  match subtaskUpdates args with
  | None =>
      (Failure (mkError "MISSING_ARGS"
         "Missing required arguments: tasksJsonPath, projectRoot, or subtaskUpdates array."), w)
  | Some updates =>
      if String.eqb (tasksJsonPath args) "" || String.eqb (projectRoot args) ""
      then
        (Failure (mkError "MISSING_ARGS"
           "Missing required arguments: tasksJsonPath, projectRoot, or subtaskUpdates array."), w)
      else
        match readJSON w with
        | None =>
            (Failure (mkError "SAVE_MULTI_SUBTASK_ERROR"
               "Failed to save multiple subtasks: Failed to read or parse existing tasks.json."), w)
        | Some existingTasksData =>
            match loop (taskMap (tasks existingTasksData)) (force args)
                       (tasks existingTasksData, mkCounts 0 0) updates with
            | Some (ts, c) =>
                (* the task files are regenerated inside a try/catch of
                   their own *)
                (Success (mkData
                   ("Successfully saved subtask updates for "
                      +:+ pretty (updatedCount c) +:+ " tasks. Skipped "
                      +:+ pretty (skippedCount c) +:+ ".")
                   (updatedCount c) (skippedCount c)),
                 writeJSON (with_tasks existingTasksData ts) w)
            | None =>
                (* a TypeError inside the loop: the write is never reached *)
                (Failure (mkError "SAVE_MULTI_SUBTASK_ERROR"
                   "Failed to save multiple subtasks: "), w)
            end
        end
  end.

End SaveMultipleTaskSubtasks.

(** ** ai-client-utils.js *)

Module AiClientUtils.

(** The data [generateSubtaskPrompt] interpolates into its template.  The
    template text itself is fixed and never empty. *)
Record Prompt : Type := mkPrompt {
  p_task : Task;
  p_targetNumSubtasks : JsNumber;
  p_additionalContext : string;
  p_complexityInfo : option AnalysisEntry
}.

(** [complexityReport.complexityAnalysis.find(a => a.id === task.id)] *)
Definition findAnalysis (analysis : list AnalysisEntry) (task : Task)
  : option AnalysisEntry :=
  List.find (fun a => bool_decide (a_id a = task_id task)) analysis.

(** [complexityReport?.complexityAnalysis]; an array, even an empty one,
    is truthy. *)
Definition analysisOf (complexityReport : option ComplexityReport)
  : option (list AnalysisEntry) :=
  match complexityReport with
  | Some r => complexityAnalysis r
  | None => None
  end.

(** [Math.max(3, Math.min(10, Math.ceil(score / 1.5)))] *)
Definition scoreTarget (score : Q) : Z :=
  Z.max 3 (Z.min 10 (Qceiling (score / (3 # 2)))).

(** The first statement block of [generateSubtaskPrompt]; [numSubtasks]
    is [None] for [undefined]. *)
Definition targetNumSubtasks (task : Task) (numSubtasks : option JsNumber)
    (complexityReport : option ComplexityReport) : JsNumber :=
  match numSubtasks, analysisOf complexityReport with
  | None, Some analysis =>
      match findAnalysis analysis task with
      | Some taskAnalysis =>
          if Qle_bool 8 (a_complexityScore taskAnalysis)
          then of_Z (scoreTarget (a_complexityScore taskAnalysis))
          else of_Z 3
      | None => of_Z 3
      end
  | None, None => of_Z 5
  | Some n, _ => n
  end.

Definition generateSubtaskPrompt (task : Task) (numSubtasks : option JsNumber)
    (additionalContext : string) (complexityReport : option ComplexityReport)
  : Prompt :=
  mkPrompt task
           (targetNumSubtasks task numSubtasks complexityReport)
           additionalContext
           (match analysisOf complexityReport with
            | Some analysis => findAnalysis analysis task
            | None => None
            end).

(** An element of a parsed JSON array: an object, or a primitive value
    or [null] (on which reading or assigning a property throws, or
    yields nothing). *)
Inductive JsonElem : Type :=
| JObject (o : Subtask)
| JPrimitive.

Fixpoint indexOf_from (c : ascii) (s : string) (i : nat) : option nat :=
  match s with
  | EmptyString => None
  | String c' s' => if Ascii.eqb c c' then Some i else indexOf_from c s' (S i)
  end.

Definition indexOf (c : ascii) (s : string) : option nat := indexOf_from c s 0.

Fixpoint lastIndexOf_from (c : ascii) (s : string) (i : nat) (found : option nat)
  : option nat :=
  match s with
  | EmptyString => found
  | String c' s' =>
      lastIndexOf_from c s' (S i) (if Ascii.eqb c c' then Some i else found)
  end.

Definition lastIndexOf (c : ascii) (s : string) : option nat :=
  lastIndexOf_from c s 0 None.

(** [parsedData.forEach(st => { st.details = st.details || ''; })];
    [None] when an element is not an object. *)
Fixpoint ensureDetails (parsedData : list JsonElem) : option (list Subtask) :=
  match parsedData with
  | [] => Some []
  | JObject st :: rest =>
      match ensureDetails rest with
      | Some rest' =>
          Some (mkSubtask (st_id st) (st_title st) (st_description st)
                  (Some (match st_details st with Some d => d | None => "" end))
                  (st_status st) :: rest')
      | None => None
      end
  | JPrimitive :: _ => None
  end.

Section Parse.
(** [JSON.parse] on the text of an array; [None] when it throws. *)
Variable JSON_parse : string -> option (list JsonElem).

(** [parseSubtasksFromText(completionText, expectedCount, parentTaskId)];
    [None] is the [null] it returns on every failure.  The last two
    arguments only reach the console. *)
Definition parseSubtasksFromText (completionText : string)
  : option (list Subtask) :=
  match indexOf "[" completionText, lastIndexOf "]" completionText with
  | Some jsonStart, Some jsonEnd =>
      if (jsonEnd <? jsonStart)%nat then None
      else
        match JSON_parse (String.substring jsonStart
                            (jsonEnd + 1 - jsonStart) completionText) with
        | Some parsedData =>
            match parsedData with
            | [] => Some []
            | JObject firstSubtask :: _ =>
                match st_title firstSubtask, st_description firstSubtask with
                | Some _, Some _ => ensureDetails parsedData
                | _, _ => None
                end
            | JPrimitive :: _ => None
            end
        | None => None
        end
  | _, _ => None
  end.
End Parse.

End AiClientUtils.

(** ** direct-functions/expand-task.js *)

Module ExpandTask.
Import AiClientUtils.

(** Empty strings stand for absent string arguments (both are falsy);
    [force] is the optional boolean. *)
Record Args : Type := mkArgs {
  tasksJsonPath : string;
  id : string;
  num : string;
  prompt : string;
  force : option bool
}.

(** The collaborators: [session.requestSampling] ([None] when there is no
    session or it has no such function), [JSON.parse], and whether
    [generateTaskFiles] resolves for a written document. *)
Record Env : Type := mkEnv {
  requestSampling : option (Prompt -> SamplingOutcome);
  JSON_parse : string -> option (list JsonElem);
  generateTaskFiles : Document -> bool
}.

Record Data : Type := mkData {
  d_message : option string;
  d_task : Task;
  d_subtasksAdded : nat
}.

Definition fail (c m : string) : Envelope Data := Failure (mkError c m).

Definition isCompleted (task : Task) : bool :=
  String.eqb (task_status task) "done" || String.eqb (task_status task) "completed".

(** [task.subtasks && task.subtasks.length > 0] *)
Definition hasExistingSubtasks (task : Task) : bool :=
  match task_subtasks task with
  | Some (_ :: _) => true
  | _ => false
  end.

(** [(task.subtasks?.length || 0) + 1] *)
Definition nextSubtaskId (task : Task) : Z :=
  Z.of_nat (match task_subtasks task with Some l => length l | None => 0%nat end) + 1.

(** [newSubtasks.forEach((subtask, index) => { subtask.id = nextSubtaskId + index;
    subtask.status = subtask.status || 'pending'; })] *)
Definition assignIds (next : Z) (newSubtasks : list Subtask) : list Subtask :=
  imap (fun index subtask =>
          mkSubtask (Some (next + Z.of_nat index)) (st_title subtask)
                    (st_description subtask) (st_details subtask)
                    (match st_status subtask with
                     | Some st => if String.eqb st "" then Some "pending" else Some st
                     | None => Some "pending"
                     end))
       newSubtasks.

Definition expandTaskDirect (args : Args) (env : Env) (w : World)
  : Envelope Data * World :=
  if String.eqb (tasksJsonPath args) "" then
    (fail "MISSING_ARGUMENT" "tasksJsonPath is required", w)
  else
  match (if String.eqb (id args) "" then None else parseInt (id args)) with
  | None | Some 0%Z =>
      (fail "INPUT_VALIDATION_ERROR" "Task ID is required", w)
  | Some taskId =>
  match requestSampling env with
  | None =>
      (fail "SAMPLING_UNAVAILABLE"
         "FastMCP sampling function (session.requestSampling) is not available.", w)
  | Some sampling =>
  let numSubtasks :=
    if String.eqb (num args) "" then None else Some (of_parsed (parseInt (num args))) in
  let additionalContext := prompt args in
  let forceFlag := match force args with Some true => true | _ => false end in
  match readJSON w with
  | None =>
      (fail "INVALID_TASKS_FILE"
         ("Invalid or missing tasks data in " +:+ tasksJsonPath args), w)
  | Some data =>
  match findIndex (fun t => strict_eq_number (task_id t) taskId) (tasks data) with
  | None =>
      (fail "TASK_NOT_FOUND" ("Task with ID " +:+ pretty taskId +:+ " not found"), w)
  | Some taskIndex =>
  match tasks data !! taskIndex with
  | None =>   (* not reached: [taskIndex] comes from [findIndex] *)
      (fail "TASK_NOT_FOUND" ("Task with ID " +:+ pretty taskId +:+ " not found"), w)
  | Some task =>
  if isCompleted task then
    (fail "TASK_COMPLETED" ("Task " +:+ pretty taskId +:+ " is already completed"), w)
  else if hasExistingSubtasks task && negb forceFlag then
    (Success (mkData
       (Some ("Task " +:+ pretty taskId +:+ " already has subtasks. Skipped."))
       task 0), w)
  else
    (* task.subtasks = [] when forced; the file is not written yet *)
    let task1 :=
      if hasExistingSubtasks task && forceFlag then set_subtasks [] task else task in
    let complexityReport := report_file w in
    let subtaskPrompt :=
      generateSubtaskPrompt task1 numSubtasks additionalContext complexityReport in
    match sampling subtaskPrompt with
    | Rejected msg =>
        (fail "EXPAND_TASK_SAMPLING_ERROR"
           ("Failed to get completion via sampling: " +:+ msg), w)
    | Resolved completionText =>
        if String.eqb completionText "" then
          (fail "EXPAND_TASK_SAMPLING_ERROR"
             "Failed to get completion via sampling: Received empty completion text from client LLM via sampling.", w)
        else
          match parseSubtasksFromText (JSON_parse env) completionText with
          | None =>
              (fail "EXPAND_TASK_SAMPLING_ERROR"
                 "Failed to parse subtasks from LLM completion: Parsing did not return a valid array of subtasks.", w)
          | Some parsed =>
              let newSubtasks := assignIds (nextSubtaskId task1) parsed in
              let task2 := set_subtasks newSubtasks task1 in
              let data' := with_tasks data (<[taskIndex := task2]> (tasks data)) in
              let w' := writeJSON data' w in
              (* generateTaskFiles runs after the write, inside the outer try *)
              if generateTaskFiles env data' then
                (Success (mkData None task2 (length newSubtasks)), w')
              else
                (fail "EXPAND_TASK_SAMPLING_ERROR"
                   "Unknown error during task expansion via sampling", w')
          end
    end
  end end end end end.

End ExpandTask.

(** ** tools/update.js: the range filter *)

Module UpdateTool.

(** [existingTasksData.tasks.filter(task => { const taskIdNum = parseFloat(task.id);
    return !isNaN(taskIdNum) && taskIdNum >= fromIdNum && task.status !== 'done'; })]
    with [fromIdNum = parseFloat(args.from)]. *)
Definition selected (from : string) (task : Task) : bool :=
  let fromIdNum := parseFloat from in
  let taskIdNum := parseFloat (ToString (task_id task)) in
  negb (isNaN taskIdNum) && ge taskIdNum fromIdNum
    && negb (String.eqb (task_status task) "done").

Definition tasksToUpdateContext (from : string) (existing : list Task)
  : list Task :=
  List.filter (selected from) existing.

End UpdateTool.

(** ** tools/expand-all.js *)

(** What a tool's [execute] returns: [handleApiResult(result)] or
    [createErrorResponse(message)] (both from tools/utils.js). *)
Inductive ExpandAllData : Type :=
| Message (m : string)
| Saved (d : SaveMultipleTaskSubtasks.Data).

Inductive ToolResponse : Type :=
| handleApiResult (result : Envelope ExpandAllData)
| createErrorResponse (msg : string).

(** A statement sequence either completes or throws. *)
Inductive Completion (A : Type) : Type :=
| Normal (a : A)
| Throw (msg : string).
Arguments Normal {A} a.
Arguments Throw {A} msg.

Definition truthy_flag (b : option bool) : bool :=
  match b with Some true => true | _ => false end.

(** [task.status === 'pending' && (!task.subtasks || task.subtasks.length === 0 || args.force)] *)
Definition eligible (force : option bool) (task : Task) : bool :=
  String.eqb (task_status task) "pending"
  && (negb (SaveMultipleTaskSubtasks.has_subtasks task) || truthy_flag force).

Definition liftSaved (r : Envelope SaveMultipleTaskSubtasks.Data)
  : Envelope ExpandAllData :=
  match r with
  | Success d => Success (Saved d)
  | Failure e => Failure e
  end.

(** The earlier revision of the tool. *)
Module ExpandAllRev1.

Record Args : Type := mkArgs {
  num : string;
  research : option bool;
  prompt : string;
  force : option bool;
  rootFolder : string   (* [args.projectRoot || getProjectRootFromSession(...)] *)
}.

(** One element of [allSubtaskUpdates]. *)
Record Update : Type := mkUpdate {
  parentTaskId : JsId;
  subtasks : list Subtask
}.

Section Tool.
(** Imported by this revision from ai-client-utils.js and
    task-master-core.js, in revisions that are not part of the sources
    at hand: the prompt builder (system and user prompt), the
    completion parser ([None]: no array of subtasks) and the direct
    function that saves what was collected. *)
Variable _generateExpandTaskPrompt :
  Task -> string -> string -> option bool -> string * string.
Variable parseSubtasksFromCompletion : string -> option (list Subtask).
Variable saveMultipleTaskSubtasksDirect :
  list Update -> option bool -> World ->
  Envelope SaveMultipleTaskSubtasks.Data * World.

(** [context.sample]; [None] when it is not a function. *)
Variable sample : option (string -> string -> SamplingOutcome).

(** The body of [for (const parentTask of tasksToExpand)]: the update
    it pushes, or [None] when it leaves through a [continue]. *)
Definition body (args : Args) (parentTask : Task) : option Update :=
  let '(systemPrompt, userPrompt) :=
    _generateExpandTaskPrompt parentTask (num args) (prompt args) (research args) in
  if String.eqb userPrompt "" then None
  else
    match sample with
    | None => None
    | Some sampleFn =>
        match sampleFn userPrompt systemPrompt with
        | Rejected _ => None
        | Resolved completionText =>
            if String.eqb completionText "" then None
            else
              match parseSubtasksFromCompletion completionText with
              | None => None
              | Some newSubtasks =>
                  Some (mkUpdate (task_id parentTask) newSubtasks)
              end
        end
    end.

Fixpoint loop (args : Args) (tasksToExpand : list Task)
    (allSubtaskUpdates : list Update) : list Update :=
  match tasksToExpand with
  | [] => allSubtaskUpdates
  | parentTask :: rest =>
      match body args parentTask with
      | Some u => loop args rest (allSubtaskUpdates ++ [u])
      | None => loop args rest allSubtaskUpdates
      end
  end.

Definition execute (args : Args) (w : World) : ToolResponse * World :=
  if String.eqb (rootFolder args) "" then
    (createErrorResponse "Could not determine project root.", w)
  else
    match readJSON w with
    | None => (createErrorResponse "Failed to find or read tasks.json: ", w)
    | Some existingTasksData =>
        let tasksToExpand :=
          List.filter (eligible (force args)) (tasks existingTasksData) in
        match tasksToExpand with
        | [] =>
            (handleApiResult
               (Success (Message "No pending tasks eligible for expansion found.")), w)
        | _ =>
            match loop args tasksToExpand [] with
            | [] =>
                (handleApiResult
                   (Success (Message "No tasks were successfully expanded.")), w)
            | allSubtaskUpdates =>
                let '(result, w') :=
                  saveMultipleTaskSubtasksDirect allSubtaskUpdates (force args) w in
                (handleApiResult (liftSaved result), w')
            end
        end
    end.
End Tool.

End ExpandAllRev1.

(** The revision in tools/expand-all.js. *)
Module ExpandAllRev2.
Import AiClientUtils.

Record Args : Type := mkArgs {
  num : string;
  research : option bool;
  prompt : string;
  force : option bool;
  rootFolder : string   (* [args.projectRoot || getProjectRootFromSession(...)] *)
}.

(** The collaborators of one call.  [complexityReport] is what the free
    identifier of that name resolves to inside [execute]: the module
    neither declares nor imports it, so it is [None] (a ReferenceError on
    evaluation) unless the host defines a global of that name, whose
    value may itself be nullish. *)
Record Env : Type := mkEnv {
  sample : option (Prompt -> SamplingOutcome);
  JSON_parse : string -> option (list JsonElem);
  complexityReport : option (option ComplexityReport)
}.

(** What the module itself provides for the identifier. *)
Definition module_binding : option (option ComplexityReport) := None.

(** [complexityReport ? complexityReport.complexityAnalysis?.find(a =>
    String(a.taskId) === String(task.id)) : null] *)
Definition findTaskAnalysis (report : option ComplexityReport) (task : Task)
  : option AnalysisEntry :=
  match report with
  | Some r =>
      match complexityAnalysis r with
      | Some analysis =>
          List.find (fun a => String.eqb (ToString (a_taskId a))
                                         (ToString (task_id task))) analysis
      | None => None
      end
  | None => None
  end.

(** [taskAnalysis?.recommendedSubtasks ? taskAnalysis.recommendedSubtasks
    : (args.num ? parseInt(args.num, 10) : undefined)] *)
Definition numSubtasksFor (taskAnalysis : option AnalysisEntry) (num : string)
  : option JsNumber :=
  let fromArgs :=
    if String.eqb num "" then None else Some (of_parsed (parseInt num)) in
  match taskAnalysis with
  | Some a =>
      match a_recommendedSubtasks a with
      | Some n => if truthy n then Some n else fromArgs
      | None => fromArgs
      end
  | None => fromArgs
  end.

(** The body of [for (const task of tasksToExpand)]: it pushes a result,
    counts a failure and continues, or throws. *)
Inductive Step : Type :=
| Push (u : SaveMultipleTaskSubtasks.SubtaskUpdate)
| Failed
| Throws (msg : string).

Definition body (env : Env) (args : Args) (task : Task) : Step :=
  match complexityReport env with
  | None => Throws "complexityReport is not defined"
  | Some report =>
      let taskAnalysis := findTaskAnalysis report task in
      let numSubtasksForThisTask := numSubtasksFor taskAnalysis (num args) in
      (* the analysis entry is passed where a report is expected: it has
         no [complexityAnalysis] property *)
      let userPrompt :=
        generateSubtaskPrompt task numSubtasksForThisTask (prompt args)
          (option_map (fun _ => mkComplexityReport None) taskAnalysis) in
      match sample env with
      | None => Failed
      | Some sampleFn =>
          match sampleFn userPrompt with
          | Rejected _ => Failed
          | Resolved completionText =>
              if String.eqb completionText "" then Failed
              else
                match parseSubtasksFromText (JSON_parse env) completionText with
                | None => Failed
                | Some subtasks =>
                    Push (SaveMultipleTaskSubtasks.mkSubtaskUpdate
                            (task_id task) (Some subtasks))
                end
          end
      end
  end.

Fixpoint loop (env : Env) (args : Args) (tasksToExpand : list Task)
    (results : list SaveMultipleTaskSubtasks.SubtaskUpdate) (failedCount : nat)
  : Completion (list SaveMultipleTaskSubtasks.SubtaskUpdate * nat) :=
  match tasksToExpand with
  | [] => Normal (results, failedCount)
  | task :: rest =>
      match body env args task with
      | Push u => loop env args rest (results ++ [u]) failedCount
      | Failed => loop env args rest results (S failedCount)
      | Throws msg => Throw msg
      end
  end.

Definition execute (env : Env) (args : Args) (w : World) : ToolResponse * World :=
  if String.eqb (rootFolder args) "" then
    (createErrorResponse "Could not determine project root.", w)
  else
    match readJSON w with
    | None => (createErrorResponse "Failed to find or read tasks.json: ", w)
    | Some existingTasksData =>
        let tasksToExpand :=
          List.filter (eligible (force args)) (tasks existingTasksData) in
        match tasksToExpand with
        | [] =>
            (handleApiResult
               (Success (Message "No pending tasks eligible for expansion found.")), w)
        | _ =>
            match loop env args tasksToExpand [] 0 with
            | Throw msg =>
                (createErrorResponse
                   ("Internal server error during expand all tasks: " +:+ msg), w)
            | Normal ([], failedCount) =>
                let message :=
                  if (0 <? failedCount)%nat
                  then "Expansion failed for all " +:+ pretty failedCount
                         +:+ " eligible tasks."
                  else "No tasks eligible for expansion were found." in
                (handleApiResult (Success (Message message)), w)
            | Normal (results, _) =>
                let saveArgs :=
                  SaveMultipleTaskSubtasks.mkArgs
                    "tasks.json" (* the path that was just read *)
                    (rootFolder args) (Some results)
                    (truthy_flag (force args)) in
                let '(saveResult, w') :=
                  SaveMultipleTaskSubtasks.saveMultipleTaskSubtasksDirect saveArgs w in
                (handleApiResult (liftSaved saveResult), w')
            end
        end
    end.

End ExpandAllRev2.

(** ** Vocabulary of the properties *)

Section Vocabulary.
Import SaveUpdatedTasks.

(** The first task of a list that has the key [k]. *)
Definition firstWithKey (k : string) (l : list Task) : option Task :=
  List.find (fun t => String.eqb (key t) k) l.

(** Every entry of the update index is filed under the key of its task. *)
Definition keyed (m : JsMap Task) : Prop :=
  forall k v, (k, v) ∈ m -> key v = k.

(** The id of [t], compared as a string, appears in the batch. *)
Definition named_in (updated : list Task) (t : Task) : bool :=
  existsb (String.eqb (key t)) (map key updated).

Definition untouched (updated : list Task) (t : Task) : bool :=
  negb (named_in updated t).

(** [a] need not move behind [b] when the list is sorted by numeric id:
    the comparator does not return a positive number for [(a, b)]. *)
Definition id_le (a b : Task) : Prop := positive (compareById a b) = false.

(** The id of [t] parses to a finite number. *)
Definition numeric_id (t : Task) : Prop :=
  exists q, parseFloat (key t) = Fin q.

(** The number the id of [t] parses to; [0] when it is not a numeral. *)
Definition rank_of_id (t : Task) : Q :=
  match parseFloat (key t) with
  | Fin q => q
  | _ => 0
  end.

(** The order of the merged list does not depend on the engine: no id
    of the batch is new to the document, so that nothing is sorted, or
    all ids are numerals, so that the comparator is consistent. *)
Definition order_determined (existing updated : list Task) : Prop :=
  (forall u, u ∈ updated -> key u ∈ map key existing) \/
  (Forall numeric_id existing /\ Forall numeric_id updated).
End Vocabulary.

(** Sample data: a task with numeric id, status and subtasks, and a
    subtask with id and status. *)
Definition sampleTask (n : Z) (status : string) (subs : option (list Subtask)) : Task :=
  mkTask (IdNum n) "" "" "" "" status [] "" subs.

Definition sampleSubtask (n : Z) (status : string) : Subtask :=
  mkSubtask (Some n) (Some "t") (Some "d") (Some "") (Some status).

(** A generator that answers every prompt with two subtasks. *)
Definition sampleEnv : ExpandTask.Env :=
  ExpandTask.mkEnv
    (Some (fun _ => Resolved "[two]"))
    (fun _ =>
       Some [AiClientUtils.JObject
               (mkSubtask None (Some "a") (Some "b") None None);
             AiClientUtils.JObject
               (mkSubtask (Some 9) (Some "c") (Some "d") (Some "e") (Some "done"))])
    (fun _ => true).

Definition sampleWorld (ts : list Task) : World :=
  mkWorld (Some (mkDocument ts "meta")) None.

(** [clamp(x, lo, hi)] *)
Definition clamp (lo hi x : Z) : Z := Z.max lo (Z.min hi x).

(** The target count in the words of the specification (4.5): the
    requested count when provided; else, when the report has an entry for
    the task's id, [clamp(ceil(score / 1.5), 3, 10)] for a score of 8 or
    more and 3 otherwise; else 5. *)
Definition spec_targetNumSubtasks (task : Task) (requestedCount : option JsNumber)
    (complexityReport : option ComplexityReport) : JsNumber :=
  match requestedCount with
  | Some n => n
  | None =>
      match AiClientUtils.analysisOf complexityReport
              ≫= (fun analysis => AiClientUtils.findAnalysis analysis task) with
      | Some entry =>
          if Qle_bool 8 (a_complexityScore entry)
          then of_Z (clamp 3 10 (Qceiling (a_complexityScore entry / (3 # 2))))
          else of_Z 3
      | None => of_Z 5
      end
  end.

(** The range filter in the words of the specification (4.2, 3): numeric
    id at least [from], status not terminal. *)
Definition spec_selected (from : string) (task : Task) : bool :=
  let taskIdNum := parseFloat (ToString (task_id task)) in
  negb (isNaN taskIdNum) && ge taskIdNum (parseFloat from)
    && negb (String.eqb (task_status task) "done"
             || String.eqb (task_status task) "completed").

(** A host for the revised [expand_all] tool: the generator fails for the
    task with id [failing] and answers with two subtasks otherwise. *)
Definition sampleHost (failing : Z) (binding : option (option ComplexityReport))
  : ExpandAllRev2.Env :=
  ExpandAllRev2.mkEnv
    (Some (fun p =>
             if bool_decide (task_id (AiClientUtils.p_task p) = IdNum failing)
             then Rejected "overloaded" else Resolved "[two]"))
    (ExpandTask.JSON_parse sampleEnv)
    binding.

Definition sampleExpandAllArgs : ExpandAllRev2.Args :=
  ExpandAllRev2.mkArgs "" None "" None "/p".

(** ** Further vocabulary: the parts of the code beyond the merge *)

(** What [parseSubtasksFromText] does with the value of [JSON.parse]. *)
Definition checkParsed (parsed : option (list AiClientUtils.JsonElem))
  : option (list Subtask) :=
  match parsed with
  | Some [] => Some []
  | Some (AiClientUtils.JObject firstSubtask :: rest) =>
      match st_title firstSubtask, st_description firstSubtask with
      | Some _, Some _ =>
          AiClientUtils.ensureDetails (AiClientUtils.JObject firstSubtask :: rest)
      | _, _ => None
      end
  | _ => None
  end.

(** [st.details = st.details || ''] on one object. *)
Definition withDetails (st : Subtask) : Subtask :=
  mkSubtask (st_id st) (st_title st) (st_description st)
            (Some (match st_details st with Some d => d | None => "" end))
            (st_status st).

(** Two more generators: one whose task files cannot be regenerated, one
    that rejects every request. *)
Definition sampleEnvNoFiles : ExpandTask.Env :=
  ExpandTask.mkEnv (ExpandTask.requestSampling sampleEnv)
                   (ExpandTask.JSON_parse sampleEnv) (fun _ => false).

Definition sampleEnvRejecting : ExpandTask.Env :=
  ExpandTask.mkEnv (Some (fun _ => Rejected "overloaded"))
                   (ExpandTask.JSON_parse sampleEnv) (fun _ => true).

(** Two tasks that differ at most in their subtasks. *)
Definition same_but_subtasks (t1 t2 : Task) : Prop :=
  forall subs, set_subtasks subs t1 = set_subtasks subs t2.

(** How many tasks of a list have the key [k]. *)
Definition count_key (k : string) (l : list Task) : nat :=
  length (List.filter (fun t => String.eqb (SaveUpdatedTasks.key t) k) l).

(** ** tools/update-task.js, with [parseTaskJsonResponse] and
    [_buildUpdateTaskPrompt] of ai-client-utils.js *)

Module UpdateTaskTool.
Import AiClientUtils SaveUpdatedTasks.

(** The object [JSON.parse] yields for the text of a task object.  [None]
    is an absent property; for [title] and [description] also one that is
    not a string. *)
Record TaskJson : Type := mkTaskJson {
  tj_id : option JsId;
  tj_title : option string;
  tj_description : option string;
  tj_details : option string;
  tj_testStrategy : option string;
  tj_status : string;
  tj_dependencies : list JsId;
  tj_priority : string;
  tj_subtasks : option (list Subtask)
}.

(** What [parseTaskJsonResponse] returns: the same object, known to have a
    title and a description, with [details] and [testStrategy] filled. *)
Record ParsedTask : Type := mkParsedTask {
  pt_id : option JsId;
  pt_title : string;
  pt_description : string;
  pt_details : string;
  pt_testStrategy : string;
  pt_status : string;
  pt_dependencies : list JsId;
  pt_priority : string;
  pt_subtasks : option (list Subtask)
}.

(** [v || ''] *)
Definition orEmpty (v : option string) : string :=
  match v with Some s => s | None => "" end.

Section Parse.
(** [JSON.parse] on the text between the outermost braces; [None] when
    it throws. *)
Variable JSON_parse : string -> option TaskJson.

Definition parseTaskJsonResponse (completionText : string) : option ParsedTask :=
  match indexOf "{" completionText, lastIndexOf "}" completionText with
  | Some jsonStart, Some jsonEnd =>
      if (jsonEnd <? jsonStart)%nat then None
      else
        match JSON_parse (String.substring jsonStart
                            (jsonEnd + 1 - jsonStart) completionText) with
        | Some parsedData =>
            match tj_title parsedData, tj_description parsedData with
            | Some title, Some description =>
                Some (mkParsedTask (tj_id parsedData) title description
                        (orEmpty (tj_details parsedData))
                        (orEmpty (tj_testStrategy parsedData))
                        (tj_status parsedData) (tj_dependencies parsedData)
                        (tj_priority parsedData) (tj_subtasks parsedData))
            | _, _ => None
            end
        | None => None
        end
  | _, _ => None
  end.
End Parse.

(** The data [_buildUpdateTaskPrompt] interpolates into its two templates,
    whose text is fixed and not empty. *)
Record UpdatePrompt : Type := mkUpdatePrompt {
  up_taskToUpdate : Task;
  up_updatePrompt : string
}.

Definition _buildUpdateTaskPrompt (taskToUpdate : Task) (updatePrompt : string)
  : UpdatePrompt :=
  mkUpdatePrompt taskToUpdate updatePrompt.

(** [args.id] and [args.prompt] are strings by the tool's schema. *)
Record Args : Type := mkArgs {
  id : string;
  prompt : string;
  rootFolder : string   (* [args.projectRoot || getProjectRootFromSession(...)] *)
}.

(** The collaborators: [session.requestSampling] ([None] when it is not a
    function), [JSON.parse], and the message of the error raised when the
    tasks file is not found or holds no document. *)
Record Env : Type := mkEnv {
  requestSampling : option (UpdatePrompt -> SamplingOutcome);
  JSON_parse : string -> option TaskJson;
  readError : string
}.

(** [t.id === args.id] for the string [args.id]: a numeric id is never
    strictly equal to it. *)
Definition strict_eq_string (i : JsId) (v : string) : bool :=
  match i with
  | IdStr s => String.eqb s v
  | IdNum _ => false
  end.

(** [updatedTask.id] when it is truthy. *)
Definition truthy_id (i : option JsId) : option JsId :=
  match i with
  | Some (IdNum 0) => None
  | Some (IdStr EmptyString) => None
  | Some i' => Some i'
  | None => None
  end.

(** The task object the parsed object is once its id is known. *)
Definition task_of (i : JsId) (p : ParsedTask) : Task :=
  mkTask i (pt_title p) (pt_description p) (pt_details p) (pt_testStrategy p)
         (pt_status p) (pt_dependencies p) (pt_priority p) (pt_subtasks p).

Definition liftMessage (r : Envelope string) : Envelope ExpandAllData :=
  match r with
  | Success m => Success (Message m)
  | Failure e => Failure e
  end.

Definition parseFailure : string :=
  "Failed to parse a valid updated task object from LLM completion.".

Definition execute (env : Env) (args : Args) (w : World) : ToolResponse * World :=
  if String.eqb (rootFolder args) "" then
    (createErrorResponse "Could not determine project root.", w)
  else
    match readJSON w with
    | None =>
        (createErrorResponse
           ("Failed to find/read tasks.json or task " +:+ id args +:+ ": "
              +:+ readError env), w)
    | Some existingTasksData =>
        match List.find (fun t => strict_eq_string (task_id t) (id args))
                        (tasks existingTasksData) with
        | None =>
            (createErrorResponse
               ("Failed to find/read tasks.json or task " +:+ id args
                  +:+ ": Task with ID " +:+ id args +:+ " not found."), w)
        | Some taskToUpdate =>
            match requestSampling env with
            | None =>
                (createErrorResponse
                   "Client-side sampling failed: FastMCP sampling function (session.requestSampling) is not available.", w)
            | Some sampling =>
                match sampling (_buildUpdateTaskPrompt taskToUpdate (prompt args)) with
                | Rejected msg =>
                    (createErrorResponse ("Client-side sampling failed: " +:+ msg), w)
                | Resolved completionText =>
                    if String.eqb completionText "" then
                      (createErrorResponse "Received empty completion from client LLM.", w)
                    else
                      match parseTaskJsonResponse (JSON_parse env) completionText with
                      | None => (createErrorResponse parseFailure, w)
                      | Some updatedTask =>
                          match truthy_id (pt_id updatedTask) with
                          | None => (createErrorResponse parseFailure, w)
                          | Some updatedId =>
                              if negb (String.eqb (ToString updatedId) (id args)) then
                                (createErrorResponse "LLM returned task with incorrect ID.", w)
                              else
                                let saveArgs :=
                                  SaveUpdatedTasks.mkArgs
                                    "tasks.json" (* the path that was just read *)
                                    (rootFolder args)
                                    (ArrayOf [task_of updatedId updatedTask]) in
                                let '(result, w') := saveUpdatedTasksDirect saveArgs w in
                                (handleApiResult (liftMessage result), w')
                          end
                      end
                end
            end
        end
    end.

End UpdateTaskTool.

(** A session for [update_task] whose model answers with the task it was
    given, marked as reviewed and without its subtasks. *)
Definition sampleUpdateTaskEnv : UpdateTaskTool.Env :=
  UpdateTaskTool.mkEnv
    (Some (fun p => Resolved ("{" +:+ ToString (task_id (UpdateTaskTool.up_taskToUpdate p)) +:+ "}")))
    (fun text =>
       Some (UpdateTaskTool.mkTaskJson
               (Some (IdStr (String.substring 1 (String.length text - 2) text)))
               (Some "t") (Some "d") None None "review" [] "" None))
    "no tasks file".

Definition stringTask (s status : string) (subs : option (list Subtask)) : Task :=
  mkTask (IdStr s) "" "" "" "" status [] "" subs.



(** A document with the ids [6, 3, 7, 8, "x", 5], and a batch for the
    first four and for the new id 99. *)
Definition unorderedDocument : list Task :=
  [sampleTask 6 "pending" None; sampleTask 3 "pending" None;
   sampleTask 7 "pending" None; sampleTask 8 "pending" None;
   stringTask "x" "pending" None; sampleTask 5 "pending" None].

Definition unorderedBatch : list Task :=
  [sampleTask 6 "done" None; sampleTask 3 "done" None; sampleTask 7 "done" None;
   sampleTask 8 "done" None; sampleTask 99 "done" None].

(** ** tools/update.js: the whole tool, with [parseTasksFromCompletion]
    and [_buildUpdateMultipleTasksPrompt] of ai-client-utils.js *)

Module UpdateExecute.
Import SaveUpdatedTasks UpdateTool.

(** A value a prompt builder is called with: a string or an array of task
    objects. *)
Inductive JsValue : Type :=
| VString (s : string)
| VTasks (l : list Task).

(** [`${v}`] inside a template literal: a string is itself; an array is
    its elements' strings joined by commas, and the string of a plain
    object is [[object Object]]. *)
Definition template (v : JsValue) : string :=
  match v with
  | VString s => s
  | VTasks l => String.concat "," (map (fun _ : Task => "[object Object]") l)
  end.

(** The two pieces [_buildUpdateMultipleTasksPrompt] interpolates into
    its user prompt; the text around them, and the system prompt, are
    fixed and not empty. *)
Record UpdatePrompts : Type := mkUpdatePrompts {
  taskData : string;          (* [JSON.stringify(tasksToUpdate, null, 2)] *)
  updatePromptText : string   (* [${updatePrompt}] *)
}.

Section Builder.
Variable JSON_stringify : JsValue -> string.

Definition _buildUpdateMultipleTasksPrompt (tasksToUpdate updatePrompt : JsValue)
  : UpdatePrompts :=
  mkUpdatePrompts (JSON_stringify tasksToUpdate) (template updatePrompt).
End Builder.

(** The object [JSON.parse] yields for the text of a task document:
    [tasks] when it is an array, [metadata.generatedAt] when there is
    one. *)
Record TasksJson : Type := mkTasksJson {
  tsj_tasks : option (list Task);
  tsj_generatedAt : option string
}.

Record TasksData : Type := mkTasksData {
  td_tasks : list Task;
  td_generatedAt : string
}.

Section Parse.
Variable JSON_parse : string -> option TasksJson.
(** [new Date().toISOString().split('T')[0]] *)
Variable today : string.

Definition parseTasksFromCompletion (completionText : string) : option TasksData :=
  match AiClientUtils.indexOf "{" completionText,
        AiClientUtils.lastIndexOf "}" completionText with
  | Some jsonStart, Some jsonEnd =>
      if (jsonEnd <? jsonStart)%nat then None
      else
        match JSON_parse (String.substring jsonStart
                            (jsonEnd + 1 - jsonStart) completionText) with
        | Some parsedData =>
            match tsj_tasks parsedData with
            | Some ts =>
                Some (mkTasksData ts
                        (match tsj_generatedAt parsedData with
                         | Some g => if String.eqb g "" then today else g
                         | None => today
                         end))
            | None => None
            end
        | None => None
        end
  | _, _ => None
  end.
End Parse.

Record Args : Type := mkArgs {
  from : string;
  prompt : string;
  research : option bool;
  rootFolder : string   (* [args.projectRoot || getProjectRootFromSession(...)] *)
}.

(** The collaborators.  [readTasks] is imported from scripts/modules/utils.js,
    which is not among the sources at hand: it throws, or returns a
    document, or something without a tasks array, on which the filter
    raises a TypeError with the engine's message. *)
Record Env : Type := mkEnv {
  sample : option (UpdatePrompts -> SamplingOutcome);
  JSON_parse : string -> option TasksJson;
  JSON_stringify : JsValue -> string;
  today : string;
  readTasks : World -> Completion (option Document);
  typeError : string
}.

Definition execute (env : Env) (args : Args) (w : World) : ToolResponse * World :=
  if String.eqb (rootFolder args) "" then
    (createErrorResponse "Could not determine project root.", w)
  else
    match readTasks env w with
    | Throw msg =>
        (createErrorResponse ("Failed to find or read tasks.json: " +:+ msg), w)
    | Normal None =>
        (createErrorResponse
           ("Internal server error during task update: " +:+ typeError env), w)
    | Normal (Some existingTasksData) =>
        match tasksToUpdateContext (from args) (tasks existingTasksData) with
        | [] =>
            (handleApiResult
               (Success (Message ("No tasks found with ID >= " +:+ from args
                                    +:+ " to update."))), w)
        | tasksToUpdateContext =>
            (* the call site passes (args.prompt, tasksToUpdateContext,
               args.from, args.research) to a builder whose parameters are
               (tasksToUpdate, updatePrompt) *)
            let prompts :=
              _buildUpdateMultipleTasksPrompt (JSON_stringify env)
                (VString (prompt args)) (VTasks tasksToUpdateContext) in
            match sample env with
            | None =>
                (createErrorResponse
                   "Client-side sampling failed: FastMCP sampling function (context.sample) is not available.", w)
            | Some sampleFn =>
                match sampleFn prompts with
                | Rejected msg =>
                    (createErrorResponse ("Client-side sampling failed: " +:+ msg), w)
                | Resolved completionText =>
                    if String.eqb completionText "" then
                      (createErrorResponse "Received empty completion from client LLM.", w)
                    else
                      match parseTasksFromCompletion (JSON_parse env) (today env)
                              completionText with
                      | None =>
                          (createErrorResponse
                             "Failed to parse valid updated tasks structure from LLM completion.", w)
                      | Some updatedTasksData =>
                          let saveArgs :=
                            SaveUpdatedTasks.mkArgs
                              "tasks.json" (* the path that was just read *)
                              (rootFolder args)
                              (ArrayOf (td_tasks updatedTasksData)) in
                          let '(result, w') := saveUpdatedTasksDirect saveArgs w in
                          (handleApiResult (UpdateTaskTool.liftMessage result), w')
                      end
                end
            end
        end
    end.

End UpdateExecute.

(** A host for the [update] tool: [readTasks] reads the tasks file, and
    the model answers every request with task 1, marked as reviewed. *)
Definition sampleUpdateEnv : UpdateExecute.Env :=
  UpdateExecute.mkEnv
    (Some (fun _ => Resolved "{one}"))
    (fun _ => Some (UpdateExecute.mkTasksJson
                      (Some [sampleTask 1 "review" None]) None))
    (fun _ => "")
    "2025-04-01"
    (fun w => Normal (tasks_file w))
    "Cannot read properties of null".

(** What a call leaves in the tasks file when it merged the batch [b]
    into the document [e], and when it did not get that far. *)
Definition stored (b : option (list Task)) (e : Document) (w : World) : World :=
  match b with
  | Some batch =>
      writeJSON (with_tasks e (SaveUpdatedTasks.mergedTasks (tasks e) batch)) w
  | None => w
  end.

(** ** ai-client-utils.js: the clients and the choice of a model *)

Module ModelSelection.

(** The variables read from [session.env] and from [process.env]; [None]
    is an unset variable. *)
Record EnvVars : Type := mkEnvVars {
  ANTHROPIC_API_KEY : option string;
  PERPLEXITY_API_KEY : option string
}.

Inductive Client : Type :=
| AnthropicClient (apiKey : string)
| PerplexityClient (apiKey : string).

(** The host of a call: [session?.env] ([None] without a session or
    without its [env]), [process.env], and whether the two SDKs can be
    set up with a key: [new Anthropic(...)], and the dynamic import of
    [openai] followed by [new OpenAI(...)]. *)
Record Host : Type := mkHost {
  session_env : option EnvVars;
  process_env : EnvVars;
  newAnthropic : string -> Completion Client;
  newOpenAI : string -> Completion Client
}.

(** [session?.env?.NAME || process.env.NAME], when truthy. *)
Definition apiKeyOf (name : EnvVars -> option string) (host : Host) : option string :=
  let fromSession :=
    match session_env host with
    | Some env => name env
    | None => None
    end in
  match fromSession with
  | Some (String c s) => Some (String c s)
  | _ =>
      match name (process_env host) with
      | Some (String c s) => Some (String c s)
      | _ => None
      end
  end.

(** Both functions log and rethrow what they catch. *)
Definition getAnthropicClientForMCP (host : Host) : Completion Client :=
  match apiKeyOf ANTHROPIC_API_KEY host with
  | None => Throw "ANTHROPIC_API_KEY not found in session environment or process.env"
  | Some apiKey => newAnthropic host apiKey
  end.

Definition getPerplexityClientForMCP (host : Host) : Completion Client :=
  match apiKeyOf PERPLEXITY_API_KEY host with
  | None => Throw "PERPLEXITY_API_KEY not found in session environment or process.env"
  | Some apiKey => newOpenAI host apiKey
  end.

Record Options : Type := mkOptions {
  requiresResearch : bool;
  claudeOverloaded : bool
}.

Inductive ModelType : Type := claude | perplexity.

Definition getBestAvailableAIModel (host : Host) (options : Options)
  : Completion (ModelType * Client) :=
  let hasPerplexity := bool_decide (is_Some (apiKeyOf PERPLEXITY_API_KEY host)) in
  let hasAnthropic := bool_decide (is_Some (apiKeyOf ANTHROPIC_API_KEY host)) in
  if requiresResearch options && negb hasPerplexity && hasAnthropic then
    match getAnthropicClientForMCP host with
    | Normal client => Normal (claude, client)
    | Throw _ => Throw "No AI models available for research"
    end
  else
    match (if requiresResearch options && hasPerplexity
           then match getPerplexityClientForMCP host with
                | Normal client => Some client
                | Throw _ => None   (* falls through to Claude *)
                end
           else None) with
    | Some client => Normal (perplexity, client)
    | None =>
        if claudeOverloaded options && hasAnthropic then
          match getAnthropicClientForMCP host with
          | Normal client => Normal (claude, client)
          | Throw _ => Throw "No AI models available"
          end
        else
          match (if negb (claudeOverloaded options) && hasAnthropic
                 then match getAnthropicClientForMCP host with
                      | Normal client => Some client
                      | Throw _ => None
                      end
                 else None) with
          | Some client => Normal (claude, client)
          | None => Throw "No AI models available. Please check your API keys."
          end
    end.

End ModelSelection.

(** What a statement sequence returned, if it did. *)
Definition returned {A : Type} (c : Completion A) : option A :=
  match c with
  | Normal a => Some a
  | Throw _ => None
  end.

(** ** tools/analyze.js, in the revision that imports
    [generateComplexityAnalysisPrompt] and [parseComplexityAnalysis] *)

Module AnalyzeTool.

(** What a prompt builder hands back: one string, or an object with the
    two prompts. *)
Inductive Built (P : Type) : Type :=
| BuiltString (text : P)
| BuiltObject (systemPrompt userPrompt : option P).
Arguments BuiltString {P} text.
Arguments BuiltObject {P} systemPrompt userPrompt.

(** [const { systemPrompt, userPrompt } = built]: a string has neither
    property. *)
Definition destructure {P : Type} (built : Built P) : option P * option P :=
  match built with
  | BuiltString _ => (None, None)
  | BuiltObject systemPrompt userPrompt => (systemPrompt, userPrompt)
  end.

(** The data interpolated into the template of
    [generateComplexityAnalysisPrompt]. *)
Record AnalysisPrompt : Type := mkAnalysisPrompt {
  ap_tasksToAnalyze : list Task;
  ap_thresholdScore : JsNumber;
  ap_useResearch : bool
}.

(** The function returns the template string itself.  [useResearch]
    defaults to [false]; the tool always passes a threshold. *)
Definition generateComplexityAnalysisPrompt (tasksToAnalyze : list Task)
    (thresholdScore : JsNumber) (useResearch : option bool)
  : Built AnalysisPrompt :=
  BuiltString (mkAnalysisPrompt tasksToAnalyze thresholdScore
                 (match useResearch with Some b => b | None => false end)).

(** What [parseComplexityAnalysis] returns is the parsed array; the array
    elements are not looked at. *)
Section Parse.
(** [JSON.parse] on the text between the outermost brackets; [None] when
    it throws or yields something that is not an array. *)
Variable JSON_parse : string -> option (list AnalysisEntry).

Definition parseComplexityAnalysis (completionText : string)
  : option (list AnalysisEntry) :=
  match AiClientUtils.indexOf "[" completionText,
        AiClientUtils.lastIndexOf "]" completionText with
  | Some jsonStart, Some jsonEnd =>
      if (jsonEnd <? jsonStart)%nat then None
      else JSON_parse (String.substring jsonStart
                         (jsonEnd + 1 - jsonStart) completionText)
  | _, _ => None
  end.
End Parse.

(** [analysisReport.complexityAnalysis] on the array that
    [parseComplexityAnalysis] returned: an array has no such property. *)
Definition complexityAnalysis_of (analysisReport : list AnalysisEntry)
  : option (list AnalysisEntry) := None.

(** [threshold] is coerced to a number by the schema. *)
Record Args : Type := mkArgs {
  output : string;
  model : string;
  threshold : option JsNumber;
  research : option bool;
  rootFolder : string   (* [args.projectRoot || getProjectRootFromSession(...)] *)
}.

Record DirectArgs : Type := mkDirectArgs {
  da_tasksJsonPath : string;
  da_outputPath : string;
  da_projectRoot : string;
  da_model : string;
  da_threshold : option JsNumber;
  da_research : option bool
}.

(** The collaborators: [session.requestSampling], [JSON.parse],
    [path.resolve], the text of the error response for a tasks file that
    is not found or holds no document (its prefix depends on which of the
    two it is), and [analyzeTaskComplexityDirect] of task-master-core.js,
    which is not among the sources at hand. *)
Record Env : Type := mkEnv {
  requestSampling : option (AnalysisPrompt -> option AnalysisPrompt -> SamplingOutcome);
  JSON_parse : string -> option (list AnalysisEntry);
  path_resolve : list string -> string;
  readError : string;
  analyzeTaskComplexityDirect : DirectArgs -> World -> Envelope string * World
}.

(** [parseFloat(args.threshold || '5')] *)
Definition thresholdScore (threshold : option JsNumber) : JsNumber :=
  match threshold with
  | Some n => if truthy n then n else of_Z 5
  | None => of_Z 5
  end.

Definition execute (env : Env) (args : Args) (w : World) : ToolResponse * World :=
  if String.eqb (rootFolder args) "" then
    (createErrorResponse "Could not determine project root.", w)
  else
    match readJSON w with
    | None => (createErrorResponse (readError env), w)
    | Some tasksData =>
        let outputPath :=
          if String.eqb (output args) ""
          then path_resolve env
                 [rootFolder args; "scripts"; "task-complexity-report.json"]
          else path_resolve env [rootFolder args; output args] in
        let '(systemPrompt, userPrompt) :=
          destructure (generateComplexityAnalysisPrompt (tasks tasksData)
                         (thresholdScore (threshold args)) (research args)) in
        match userPrompt with
        | None =>
            (createErrorResponse "Failed to generate prompt for complexity analysis.", w)
        | Some userPrompt =>
            match requestSampling env with
            | None =>
                (createErrorResponse
                   "Client-side sampling failed: FastMCP sampling function (session.requestSampling) is not available.", w)
            | Some sampling =>
                match sampling userPrompt systemPrompt with
                | Rejected msg =>
                    (createErrorResponse ("Client-side sampling failed: " +:+ msg), w)
                | Resolved completionText =>
                    if String.eqb completionText "" then
                      (createErrorResponse "Received empty completion from client LLM.", w)
                    else
                      match parseComplexityAnalysis (JSON_parse env) completionText
                              ≫= complexityAnalysis_of with
                      | None =>
                          (createErrorResponse
                             "Failed to parse valid complexity analysis report from LLM completion.", w)
                      | Some _ =>
                          let directArgs :=
                            mkDirectArgs
                              "tasks.json" (* the path that was just read *)
                              outputPath (rootFolder args) (model args)
                              (threshold args) (research args) in
                          let '(result, w') :=
                            analyzeTaskComplexityDirect env directArgs w in
                          (handleApiResult (UpdateTaskTool.liftMessage result), w')
                      end
                end
            end
        end
    end.

End AnalyzeTool.

(** A host for the analyze tool in which everything it could call works:
    the model answers with an array and the direct function writes a
    report. *)
Definition sampleAnalyzeEnv : AnalyzeTool.Env :=
  AnalyzeTool.mkEnv
    (Some (fun _ _ => Resolved "[one]"))
    (fun _ => Some [mkAnalysisEntry (IdNum 1) (IdNum 1) 9 "hard" None])
    (String.concat "/")
    "no tasks file"
    (fun _ w => (Success "Report saved.",
                 mkWorld (tasks_file w) (Some (mkComplexityReport (Some []))))).

(** * Properties *)

(** ** Numbers and numerals *)

Example parseFloat_decimal : parseFloat "  12.5abc" = Fin (125 # 10).
Proof. reflexivity. Qed.

Example parseFloat_not_numeric : parseFloat "abc" = NaN.
Proof. reflexivity. Qed.

Example parseFloat_exponent : parseFloat "-3e2" = Fin (inject_Z (-300)).
Proof. reflexivity. Qed.

Example parseInt_prefix : parseInt "42px" = Some 42.
Proof. reflexivity. Qed.

(** A numeric id, stringified and parsed back, is the number it was. *)
Example numeric_id_round_trip :
  parseFloat (ToString (IdNum 12)) = of_Z 12 /\
  parseFloat (ToString (IdNum (-3))) = of_Z (-3) /\
  parseFloat (ToString (IdNum 0)) = of_Z 0.
Proof. repeat split; reflexivity. Qed.

Lemma sub_same_not_positive v : positive (sub v v) = false.
Proof.
  destruct v as [| |q|]; simpl; try reflexivity.
  apply negb_false_iff, Qle_bool_iff.
  assert (Hq : (q - q == 0)%Q) by ring.
  rewrite Hq. apply Qle_refl.
Qed.

(** ** [Array.prototype.sort] *)

Section SortFacts.
Context {A : Type} (cmp : A -> A -> JsNumber).

Lemma sort_insert_Permutation x l : sort_insert cmp x l ≡ₚ x :: l.
Proof.
  induction l as [|y l IH]; simpl; [done|].
  destruct (positive (cmp x y)); [|done].
  rewrite IH. apply Permutation_swap.
Qed.

Lemma stable_sort_Permutation l : stable_sort cmp l ≡ₚ l.
Proof.
  induction l as [|x l IH]; simpl; [done|].
  rewrite sort_insert_Permutation. by rewrite IH.
Qed.

(** The engine's sort rearranges and nothing else, whatever the
    comparator returns. *)
Lemma run_rest_app d prev l :
  (run_rest cmp d prev l).1 ++ (run_rest cmp d prev l).2 = l.
Proof.
  revert prev. induction l as [|c l IH]; intros prev; simpl; [done|].
  destruct (if d then _ else _); [done|].
  specialize (IH c). destruct (run_rest cmp d c l) as [run rest].
  simpl in *. by rewrite IH.
Qed.

Lemma CountAndMakeRun_Permutation l :
  (CountAndMakeRun cmp l).1 ++ (CountAndMakeRun cmp l).2 ≡ₚ l.
Proof.
  destruct l as [|x0 [|x1 l]]; simpl; [done| done |].
  pose proof (run_rest_app (negative (cmp x1 x0)) x1 l) as Happ.
  destruct (run_rest cmp _ x1 l) as [run rest]. simpl in *.
  rewrite <- Happ.
  destruct (negative (cmp x1 x0)); simpl; [|done].
  change (x0 :: x1 :: run ++ rest) with ((x0 :: x1 :: run) ++ rest).
  apply Permutation_app_tail.
  change ((rev run ++ [x1]) ++ [x0]) with (rev (x0 :: x1 :: run)).
  by rewrite <- Permutation_rev.
Qed.

Lemma binary_insert_Permutation a pivot : binary_insert cmp a pivot ≡ₚ pivot :: a.
Proof.
  unfold binary_insert. rewrite <- Permutation_middle. by rewrite take_drop.
Qed.

Lemma BinaryInsertionSort_Permutation run rest :
  BinaryInsertionSort cmp run rest ≡ₚ run ++ rest.
Proof.
  unfold BinaryInsertionSort. revert run.
  induction rest as [|p rest IH]; intros run; simpl.
  - by rewrite app_nil_r.
  - rewrite IH, binary_insert_Permutation. by rewrite <- Permutation_middle.
Qed.

Lemma Array_sort_Permutation l : Array_sort cmp l ≡ₚ l.
Proof.
  unfold Array_sort.
  pose proof (CountAndMakeRun_Permutation l) as H.
  destruct (CountAndMakeRun cmp l) as [run rest]. simpl in H.
  by rewrite BinaryInsertionSort_Permutation.
Qed.

Lemma sort_insert_filter_out (P : A -> bool) x l :
  P x = false ->
  List.filter P (sort_insert cmp x l) = List.filter P l.
Proof.
  intros Hx. induction l as [|y l IH]; simpl.
  - by rewrite Hx.
  - destruct (positive (cmp x y)); simpl.
    + by rewrite IH.
    + by rewrite Hx.
Qed.

Lemma sort_insert_filter_in (P : A -> bool) x l :
  P x = true ->
  (forall y, y ∈ l -> P y = true -> positive (cmp x y) = false) ->
  List.filter P (sort_insert cmp x l) = x :: List.filter P l.
Proof.
  intros Hx. induction l as [|y l IH]; intros Hle; simpl.
  - by rewrite Hx.
  - destruct (positive (cmp x y)) eqn:Hpos; simpl.
    + destruct (P y) eqn:Hy.
      * rewrite Hle in Hpos; [done|left|done].
      * apply IH. intros z Hz. apply Hle. by right.
    + by rewrite Hx.
Qed.

(** Stability: the tasks selected by [P] keep their order whenever no
    selected task has to move behind a later selected one. *)
Lemma stable_sort_stable (P : A -> bool) l :
  StronglySorted (fun x y => positive (cmp x y) = false) (List.filter P l) ->
  List.filter P (stable_sort cmp l) = List.filter P l.
Proof.
  induction l as [|x l IH]; simpl; [done|].
  destruct (P x) eqn:Hx; intros Hs.
  - apply StronglySorted_inv in Hs as [Hs Hall].
    rewrite sort_insert_filter_in, IH; [done..|].
    intros y Hy HPy. rewrite Forall_forall in Hall. apply Hall.
    apply list_elem_of_In, filter_In. split; [|done].
    apply list_elem_of_In. by rewrite <- (stable_sort_Permutation l).
  - rewrite sort_insert_filter_out by done. by apply IH.
Qed.

(** On elements that the comparator orders consistently the stable
    arrangement is sorted as well. *)
Lemma sort_insert_sorted (Q : A -> Prop) x l :
  (forall a b, Q a -> Q b -> positive (cmp a b) = true -> positive (cmp b a) = false) ->
  (forall a b c, Q a -> Q b -> Q c ->
     positive (cmp a b) = false -> positive (cmp b c) = false ->
     positive (cmp a c) = false) ->
  Q x -> Forall Q l ->
  StronglySorted (fun a b => positive (cmp a b) = false) l ->
  StronglySorted (fun a b => positive (cmp a b) = false) (sort_insert cmp x l).
Proof.
  intros Htot Htrans Hx. induction l as [|y l IH]; intros HQ Hs; simpl.
  - repeat constructor.
  - apply Forall_cons in HQ as [Hy HQ].
    apply StronglySorted_inv in Hs as [Hs Hall].
    destruct (positive (cmp x y)) eqn:Hpos.
    + constructor; [by apply IH|].
      rewrite Forall_forall in Hall |- *. intros z Hz.
      rewrite sort_insert_Permutation in Hz.
      apply elem_of_cons in Hz as [->|Hz]; [by apply Htot|by apply Hall].
    + constructor; [by constructor|].
      constructor; [done|].
      rewrite Forall_forall in Hall, HQ |- *. intros z Hz.
      apply (Htrans x y z); auto.
Qed.

Lemma stable_sort_sorted (Q : A -> Prop) l :
  (forall a b, Q a -> Q b -> positive (cmp a b) = true -> positive (cmp b a) = false) ->
  (forall a b c, Q a -> Q b -> Q c ->
     positive (cmp a b) = false -> positive (cmp b c) = false ->
     positive (cmp a c) = false) ->
  Forall Q l ->
  StronglySorted (fun a b => positive (cmp a b) = false) (stable_sort cmp l).
Proof.
  intros Htot Htrans. induction l as [|x l IH]; intros HQ; simpl.
  - constructor.
  - apply Forall_cons in HQ as [Hx HQ].
    apply (sort_insert_sorted Q); auto.
    by rewrite stable_sort_Permutation.
Qed.

Lemma StronglySorted_lookup (R : A -> A -> Prop) l i j a b :
  StronglySorted R l -> (i < j)%nat -> l !! i = Some a -> l !! j = Some b -> R a b.
Proof.
  intros Hs. revert i j. induction Hs as [|x l Hs IH Hall]; intros i j Hij Hi Hj.
  - done.
  - destruct j as [|j]; [lia|]. destruct i as [|i]; simpl in *.
    + injection Hi as ->. rewrite List.Forall_forall in Hall.
      apply Hall. apply list_elem_of_In. by eapply list_elem_of_lookup_2.
    + apply (IH i j); [lia|done..].
Qed.

Section Ranked.
Context (rank : A -> Q).

Lemma negative_true a b :
  cmp a b = Fin (rank a - rank b) -> negative (cmp a b) = true -> (rank a < rank b)%Q.
Proof.
  intros ->. simpl. rewrite negb_true_iff, <- not_true_iff_false, Qle_bool_iff.
  intros. lra.
Qed.

Lemma negative_false a b :
  cmp a b = Fin (rank a - rank b) -> negative (cmp a b) = false -> (rank b <= rank a)%Q.
Proof.
  intros ->. simpl. rewrite negb_false_iff, Qle_bool_iff. intros. lra.
Qed.

Lemma positive_true a b :
  cmp a b = Fin (rank a - rank b) -> positive (cmp a b) = true -> (rank b < rank a)%Q.
Proof.
  intros ->. simpl. rewrite negb_true_iff, <- not_true_iff_false, Qle_bool_iff.
  intros. lra.
Qed.

Lemma positive_false a b :
  cmp a b = Fin (rank a - rank b) -> positive (cmp a b) = false -> (rank a <= rank b)%Q.
Proof.
  intros ->. simpl. rewrite negb_false_iff, Qle_bool_iff. intros. lra.
Qed.

Lemma negative_lt a b :
  cmp a b = Fin (rank a - rank b) -> (rank a < rank b)%Q -> negative (cmp a b) = true.
Proof.
  intros Hc Hlt. destruct (negative (cmp a b)) eqn:Hn; [done|].
  apply (negative_false _ _ Hc) in Hn. lra.
Qed.

Lemma negative_ge a b :
  cmp a b = Fin (rank a - rank b) -> (rank b <= rank a)%Q -> negative (cmp a b) = false.
Proof.
  intros Hc Hle. destruct (negative (cmp a b)) eqn:Hn; [|done].
  apply (negative_true _ _ Hc) in Hn. lra.
Qed.

Lemma ranked_incl l l' :
  (forall x, x ∈ l' -> x ∈ l) -> ranked cmp rank l -> ranked cmp rank l'.
Proof. intros Hsub Hr a b Ha Hb. apply Hr; by apply Hsub. Qed.

Lemma ranked_Permutation l l' :
  l ≡ₚ l' -> ranked cmp rank l -> ranked cmp rank l'.
Proof. intros Hp. apply ranked_incl. intros x. by rewrite Hp. Qed.

Lemma upper_insert_Permutation p a : upper_insert cmp p a ≡ₚ p :: a.
Proof.
  induction a as [|e a IH]; simpl; [done|].
  destruct (negative (cmp p e)); [done|].
  rewrite IH. apply Permutation_swap.
Qed.

Lemma left_sort_Permutation l : left_sort cmp l ≡ₚ l.
Proof.
  unfold left_sort. induction l as [|x l IH] using rev_ind; [done|].
  rewrite foldl_snoc, upper_insert_Permutation, IH.
  by rewrite <- Permutation_cons_append.
Qed.

(** Inserting from the right and inserting from the left commute. *)
Lemma insert_commute x y a :
  ranked cmp rank (x :: y :: a) ->
  sort_insert cmp x (upper_insert cmp y a) = upper_insert cmp y (sort_insert cmp x a).
Proof.
  induction a as [|z a IH]; intros Hr.
  - simpl.
    pose proof (Hr x y ltac:(rewrite !elem_of_cons; auto) ltac:(rewrite !elem_of_cons; auto)) as Hxy.
    pose proof (Hr y x ltac:(rewrite !elem_of_cons; auto) ltac:(rewrite !elem_of_cons; auto)) as Hyx.
    destruct (positive (cmp x y)) eqn:Hp, (negative (cmp y x)) eqn:Hn; try done.
    + apply (positive_true _ _ Hxy) in Hp. apply (negative_false _ _ Hyx) in Hn. lra.
    + apply (positive_false _ _ Hxy) in Hp. apply (negative_true _ _ Hyx) in Hn. lra.
  - assert (IH' : sort_insert cmp x (upper_insert cmp y a)
                  = upper_insert cmp y (sort_insert cmp x a)).
    { apply IH. eapply ranked_incl; [|exact Hr].
      intros w. rewrite !elem_of_cons. tauto. }
    pose proof (Hr x y ltac:(rewrite !elem_of_cons; auto) ltac:(rewrite !elem_of_cons; auto)) as Hxy.
    pose proof (Hr y x ltac:(rewrite !elem_of_cons; auto) ltac:(rewrite !elem_of_cons; auto)) as Hyx.
    pose proof (Hr x z ltac:(rewrite !elem_of_cons; auto) ltac:(rewrite !elem_of_cons; auto)) as Hxz.
    pose proof (Hr y z ltac:(rewrite !elem_of_cons; auto) ltac:(rewrite !elem_of_cons; auto)) as Hyz.
    cbn [upper_insert sort_insert].
    destruct (negative (cmp y z)) eqn:Hnyz, (positive (cmp x z)) eqn:Hpxz;
      cbn [upper_insert sort_insert]; rewrite ?Hnyz, ?Hpxz;
      try (apply (negative_true _ _ Hyz) in Hnyz);
      try (apply (negative_false _ _ Hyz) in Hnyz);
      try (apply (positive_true _ _ Hxz) in Hpxz);
      try (apply (positive_false _ _ Hxz) in Hpxz).
    + destruct (positive (cmp x y)) eqn:Hp; [done|].
      apply (positive_false _ _ Hxy) in Hp. lra.
    + destruct (positive (cmp x y)) eqn:Hp, (negative (cmp y x)) eqn:Hn; try done.
      * apply (positive_true _ _ Hxy) in Hp. apply (negative_false _ _ Hyx) in Hn. lra.
      * apply (positive_false _ _ Hxy) in Hp. apply (negative_true _ _ Hyx) in Hn. lra.
    + by rewrite IH'.
    + destruct (negative (cmp y x)) eqn:Hn; [|done].
      apply (negative_true _ _ Hyx) in Hn. lra.
Qed.

Lemma left_sort_cons x l :
  ranked cmp rank (x :: l) ->
  left_sort cmp (x :: l) = sort_insert cmp x (left_sort cmp l).
Proof.
  induction l as [|y l IH] using rev_ind; intros Hr; [done|].
  unfold left_sort in *. rewrite app_comm_cons, !foldl_snoc.
  rewrite IH.
  - symmetry. apply insert_commute.
    eapply ranked_incl; [|exact Hr]. intros w.
    rewrite !elem_of_cons, elem_of_app, list_elem_of_singleton.
    intros [->|[->|Hw]]; [tauto..|].
    change (w ∈ left_sort cmp l) in Hw. rewrite left_sort_Permutation in Hw. tauto.
  - eapply ranked_incl; [|exact Hr]. intros w.
    rewrite !elem_of_cons, elem_of_app. tauto.
Qed.

(** On a consistent comparator insertion from the left gives the stable
    arrangement. *)
Lemma left_sort_stable_sort l :
  ranked cmp rank l -> left_sort cmp l = stable_sort cmp l.
Proof.
  induction l as [|x l IH]; intros Hr; [done|].
  rewrite left_sort_cons by done. simpl. rewrite IH; [done|].
  eapply ranked_incl; [|exact Hr]. intros w. rewrite elem_of_cons. tauto.
Qed.

Lemma upper_insert_sorted p a :
  ranked cmp rank (p :: a) -> rank_sorted rank a -> rank_sorted rank (upper_insert cmp p a).
Proof.
  intros Hr Hs. induction Hs as [|e a Hs IH Hall]; simpl.
  - repeat constructor.
  - pose proof (Hr p e ltac:(rewrite !elem_of_cons; auto) ltac:(rewrite !elem_of_cons; auto)) as Hpe.
    rewrite List.Forall_forall in Hall.
    destruct (negative (cmp p e)) eqn:Hn.
    + apply (negative_true _ _ Hpe) in Hn.
      constructor; [by constructor; [|apply List.Forall_forall]|].
      apply List.Forall_forall. intros w [<-|Hw]; [lra|].
      specialize (Hall w Hw). simpl in Hall. lra.
    + apply (negative_false _ _ Hpe) in Hn.
      constructor.
      * apply IH. eapply ranked_incl; [|exact Hr]. intros w.
        rewrite !elem_of_cons. tauto.
      * apply List.Forall_forall. intros w Hw%list_elem_of_In.
        rewrite upper_insert_Permutation in Hw.
        apply elem_of_cons in Hw as [->|Hw]; [done|].
        apply Hall. by apply list_elem_of_In.
Qed.

Lemma left_sort_sorted l : ranked cmp rank l -> rank_sorted rank (left_sort cmp l).
Proof.
  unfold left_sort. induction l as [|x l IH] using rev_ind; intros Hr.
  - constructor.
  - rewrite foldl_snoc. apply upper_insert_sorted.
    + eapply ranked_incl; [|exact Hr]. intros w.
      rewrite elem_of_cons, elem_of_app, list_elem_of_singleton.
      intros [->|Hw]; [tauto|].
      change (w ∈ left_sort cmp l) in Hw. rewrite left_sort_Permutation in Hw. tauto.
    + apply IH. eapply ranked_incl; [|exact Hr]. intros w.
      rewrite elem_of_app. tauto.
Qed.

Lemma upper_insert_at p a n :
  (n <= length a)%nat ->
  (forall i e, (i < n)%nat -> a !! i = Some e -> negative (cmp p e) = false) ->
  (forall e, a !! n = Some e -> negative (cmp p e) = true) ->
  upper_insert cmp p a = take n a ++ p :: drop n a.
Proof.
  revert n. induction a as [|e a IH]; intros n Hn Hlow Hhigh; simpl in *.
  - by destruct n; [|lia].
  - destruct n as [|n]; simpl.
    + by rewrite (Hhigh e).
    + rewrite (Hlow 0%nat e) by (done || lia). f_equal.
      apply IH; [lia| |done].
      intros i e' Hi. apply (Hlow (S i)). lia.
Qed.

Lemma upper_insert_last p a :
  (forall e, e ∈ a -> negative (cmp p e) = false) ->
  upper_insert cmp p a = a ++ [p].
Proof.
  induction a as [|e a IH]; intros H; simpl; [done|].
  rewrite (H e) by left. f_equal. apply IH. intros w Hw. apply H. by right.
Qed.

(** The binary search ends within [right - left] steps, on the place
    behind the last element that [pivot] does not precede. *)
Lemma search_place steps p a left right :
  ranked cmp rank (p :: a) -> rank_sorted rank a ->
  (right - left <= steps)%nat -> (left <= right <= length a)%nat ->
  (forall i e, (i < left)%nat -> a !! i = Some e -> (rank e <= rank p)%Q) ->
  (forall i e, (right <= i)%nat -> a !! i = Some e -> (rank p < rank e)%Q) ->
  (search cmp steps p a left right <= length a)%nat /\
  (forall i e, (i < search cmp steps p a left right)%nat ->
               a !! i = Some e -> (rank e <= rank p)%Q) /\
  (forall i e, (search cmp steps p a left right <= i)%nat ->
               a !! i = Some e -> (rank p < rank e)%Q).
Proof.
  intros Hr Hs. revert left right.
  induction steps as [|steps IH]; intros left right Hsteps Hlr Hlow Hhigh;
    cbn [search].
  - assert (left = right) as -> by lia. repeat split; [lia|done..].
  - destruct (Nat.ltb_spec left right) as [Hlt|Hge].
    2: { assert (left = right) as -> by lia. repeat split; [lia|done..]. }
    assert (Hhalf : ((right - left) / 2 < right - left)%nat)
      by (apply Nat.div_lt; lia).
    set (mid := (left + (right - left) / 2)%nat) in *.
    assert (Hmid : (left <= mid < right)%nat) by (unfold mid; lia).
    destruct (lookup_lt_is_Some_2 a mid) as [e He]; [lia|].
    rewrite He.
    pose proof (Hr p e ltac:(left)
                  ltac:(right; by eapply list_elem_of_lookup_2)) as Hpe.
    destruct (negative (cmp p e)) eqn:Hn.
    + apply (negative_true _ _ Hpe) in Hn.
      apply IH; [lia|lia|done|].
      intros i e' Hi He'. destruct (decide (i = mid)) as [->|Hne].
      * rewrite He in He'. by injection He' as <-.
      * pose proof (StronglySorted_lookup _ _ mid i e e' Hs ltac:(lia) He He') as Hle.
        simpl in Hle. lra.
    + apply (negative_false _ _ Hpe) in Hn.
      apply IH; [lia|lia| |done].
      intros i e' Hi He'. destruct (decide (i = mid)) as [->|Hne].
      * rewrite He in He'. by injection He' as <-.
      * pose proof (StronglySorted_lookup _ _ i mid e' e Hs ltac:(lia) He' He) as Hle.
        simpl in Hle. lra.
Qed.

(** More steps than [right - left] change nothing. *)
Lemma search_steps s1 s2 p a left right :
  (right <= length a)%nat -> (right - left <= s1)%nat -> (right - left <= s2)%nat ->
  search cmp s1 p a left right = search cmp s2 p a left right.
Proof.
  revert s2 left right.
  induction s1 as [|s1 IH]; intros s2 left right Hlen H1 H2.
  - destruct s2 as [|s2]; cbn [search]; [done|].
    by destruct (Nat.ltb_spec left right); [lia|].
  - destruct s2 as [|s2]; cbn [search].
    { by destruct (Nat.ltb_spec left right); [lia|]. }
    destruct (Nat.ltb_spec left right) as [Hlt|Hge]; [|done].
    assert (Hhalf : ((right - left) / 2 < right - left)%nat)
      by (apply Nat.div_lt; lia).
    destruct (a !! _) as [e|]; [|done].
    destruct (negative (cmp p e)); apply IH; lia.
Qed.

Lemma binary_insert_upper p a :
  ranked cmp rank (p :: a) -> rank_sorted rank a ->
  binary_insert cmp a p = upper_insert cmp p a.
Proof.
  intros Hr Hs. unfold binary_insert. cbv zeta.
  destruct (search_place (length a) p a 0 (length a) Hr Hs)
    as (Hlen & Hlow & Hhigh); [lia|lia| | |].
  { intros i e Hi. lia. }
  { intros i e Hi He. apply lookup_lt_Some in He. lia. }
  symmetry. apply upper_insert_at; [done| |].
  - intros i e Hi He. apply negative_ge; [|exact (Hlow i e Hi He)].
    apply Hr; [left|right; by eapply list_elem_of_lookup_2].
  - intros e He. apply negative_lt; [|exact (Hhigh _ e (Nat.le_refl _) He)].
    apply Hr; [left|right; by eapply list_elem_of_lookup_2].
Qed.

Lemma foldl_binary_upper acc rest :
  ranked cmp rank (acc ++ rest) -> rank_sorted rank acc ->
  foldl (binary_insert cmp) acc rest
  = foldl (fun a pivot => upper_insert cmp pivot a) acc rest.
Proof.
  revert acc. induction rest as [|p rest IH]; intros acc Hr Hs; simpl; [done|].
  assert (Hpa : ranked cmp rank (p :: acc)).
  { eapply ranked_incl; [|exact Hr]. intros w.
    rewrite elem_of_cons, elem_of_app, elem_of_cons. tauto. }
  rewrite binary_insert_upper by done.
  apply IH; [|by apply upper_insert_sorted].
  eapply ranked_incl; [|exact Hr]. intros w.
  rewrite !elem_of_app, upper_insert_Permutation, !elem_of_cons. tauto.
Qed.

Lemma run_rest_chain d prev l : chain cmp d prev (run_rest cmp d prev l).1.
Proof.
  revert prev. induction l as [|c l IH]; intros prev; simpl; [done|].
  destruct (if d then _ else _) eqn:Hbreak; [done|].
  specialize (IH c). destruct (run_rest cmp d c l) as [run rest]. simpl in *.
  split; [|done]. destruct d, (negative (cmp c prev)); done.
Qed.

Lemma foldl_upper_descending acc prev ext :
  chain cmp true prev ext ->
  foldl (fun a pivot => upper_insert cmp pivot a) (prev :: acc) ext
  = rev ext ++ prev :: acc.
Proof.
  revert acc prev. induction ext as [|c ext IH]; intros acc prev; simpl; [done|].
  intros [Hc Hchain]. rewrite Hc. rewrite IH by done.
  by rewrite <- app_assoc.
Qed.

Lemma foldl_upper_ascending acc prev ext :
  ranked cmp rank (acc ++ prev :: ext) ->
  (forall e, e ∈ acc -> (rank e <= rank prev)%Q) ->
  chain cmp false prev ext ->
  foldl (fun a pivot => upper_insert cmp pivot a) (acc ++ [prev]) ext
  = acc ++ prev :: ext.
Proof.
  revert acc prev. induction ext as [|c ext IH]; intros acc prev Hr Hacc; simpl.
  - done.
  - intros [Hc Hchain].
    assert (Hle : (rank prev <= rank c)%Q).
    { apply (negative_false c prev); [|done].
      apply Hr; rewrite elem_of_app, !elem_of_cons; tauto. }
    rewrite upper_insert_last.
    + rewrite (IH (acc ++ [prev]) c).
      * by rewrite <- app_assoc.
      * by rewrite <- app_assoc.
      * intros e [He| ->%list_elem_of_singleton]%elem_of_app; [|done].
        specialize (Hacc e He). lra.
      * done.
    + intros e He. apply negative_ge.
      * apply Hr; rewrite elem_of_app, !elem_of_cons;
          apply elem_of_app in He as [He|He%list_elem_of_singleton]; subst; tauto.
      * apply elem_of_app in He as [He| ->%list_elem_of_singleton]; [|done].
        specialize (Hacc e He). lra.
Qed.

Lemma CountAndMakeRun_left_sort l :
  ranked cmp rank l ->
  exists prefix,
    l = prefix ++ (CountAndMakeRun cmp l).2 /\
    (CountAndMakeRun cmp l).1 = left_sort cmp prefix.
Proof.
  intros Hr. destruct l as [|x0 [|x1 l]].
  - by exists [].
  - by exists [x0].
  - simpl.
    pose proof (run_rest_app (negative (cmp x1 x0)) x1 l) as Happ.
    pose proof (run_rest_chain (negative (cmp x1 x0)) x1 l) as Hchain.
    destruct (run_rest cmp _ x1 l) as [ext rest]. simpl in *.
    exists (x0 :: x1 :: ext). split; [by rewrite <- Happ|].
    unfold left_sort. simpl.
    destruct (negative (cmp x1 x0)) eqn:Hd.
    + rewrite foldl_upper_descending by done. by rewrite <- app_assoc.
    + change [x0; x1] with ([x0] ++ [x1]).
      rewrite foldl_upper_ascending; [done| | |done].
      * eapply ranked_incl; [|exact Hr]. intros w. rewrite <- Happ. simpl.
        rewrite !elem_of_cons, ?elem_of_app. tauto.
      * intros e ->%list_elem_of_singleton.
        apply (negative_false x1 x0); [|done].
        apply Hr; rewrite !elem_of_cons; tauto.
Qed.

(** On a consistent comparator the engine returns the stable
    arrangement. *)
Lemma Array_sort_ranked l :
  ranked cmp rank l -> Array_sort cmp l = stable_sort cmp l.
Proof.
  intros Hr. rewrite <- left_sort_stable_sort by done.
  unfold Array_sort, BinaryInsertionSort.
  destruct (CountAndMakeRun_left_sort l Hr) as (prefix & Hl & Hrun).
  destruct (CountAndMakeRun cmp l) as [run rest]. simpl in *. subst run l.
  rewrite foldl_binary_upper.
  - unfold left_sort. by rewrite foldl_app.
  - eapply ranked_incl; [|exact Hr]. intros w.
    rewrite !elem_of_app, left_sort_Permutation. tauto.
  - apply left_sort_sorted. eapply ranked_incl; [|exact Hr].
    intros w. rewrite elem_of_app. tauto.
Qed.
(** On a consistent comparator the engine's sort is stable and
    sorts. *)
Lemma Array_sort_stable (P : A -> bool) l :
  ranked cmp rank l ->
  StronglySorted (fun x y => positive (cmp x y) = false) (List.filter P l) ->
  List.filter P (Array_sort cmp l) = List.filter P l.
Proof. intros Hr. rewrite Array_sort_ranked by done. apply stable_sort_stable. Qed.

Lemma Array_sort_sorted l :
  ranked cmp rank l -> rank_sorted rank (Array_sort cmp l).
Proof.
  intros Hr. rewrite Array_sort_ranked, <- left_sort_stable_sort by done.
  by apply left_sort_sorted.
Qed.
End Ranked.
End SortFacts.

(** ** [Map] *)

Section JsMapFacts.
Context {V : Type}.
Implicit Types (m : JsMap V) (k : string) (v : V).

Lemma Map_get_delete k k' m :
  Map_get k (Map_delete k' m) = if String.eqb k' k then None else Map_get k m.
Proof.
  induction m as [|[k1 v1] m IH]; simpl.
  - by destruct (String.eqb k' k).
  - destruct (String.eqb_spec k' k1) as [->|Hne]; simpl.
    + rewrite IH. destruct (String.eqb_spec k1 k) as [->|Hne'].
      * done.
      * destruct (String.eqb_spec k k1); congruence.
    + rewrite IH. destruct (String.eqb_spec k k1) as [->|Hne'].
      * destruct (String.eqb_spec k' k1); congruence.
      * done.
Qed.

Lemma Map_get_set k k' v m :
  Map_get k' (Map_set k v m) = if String.eqb k' k then Some v else Map_get k' m.
Proof.
  induction m as [|[k1 v1] m IH]; simpl; [done|].
  destruct (String.eqb_spec k k1) as [->|Hne]; simpl.
  - destruct (String.eqb_spec k' k1); done.
  - rewrite IH. destruct (String.eqb_spec k' k1) as [->|Hne'].
    + destruct (String.eqb_spec k1 k); congruence.
    + done.
Qed.

Lemma Map_get_elem_of k v m : Map_get k m = Some v -> (k, v) ∈ m.
Proof.
  induction m as [|[k1 v1] m IH]; simpl; [done|].
  destruct (String.eqb_spec k k1) as [->|Hne].
  - intros [= ->]. left.
  - intros H. right. by apply IH.
Qed.

Lemma Map_delete_elem_of k e m : e ∈ Map_delete k m -> e ∈ m.
Proof.
  unfold Map_delete. intros H.
  apply list_elem_of_In, filter_In in H as [H _]. by apply list_elem_of_In.
Qed.

Lemma Map_set_elem_of k v e m : e ∈ Map_set k v m -> e = (k, v) ∨ e ∈ m.
Proof.
  induction m as [|[k1 v1] m IH]; simpl.
  - intros H. apply list_elem_of_singleton in H. by left.
  - destruct (String.eqb k k1).
    + intros [->|H]%elem_of_cons; [by left|]. right. by right.
    + intros [->|H]%elem_of_cons; [right; left|].
      destruct (IH H) as [->|H']; [by left|]. right. by right.
Qed.

End JsMapFacts.

(** ** The reconciliation merge *)

Section MergeFacts.
Import SaveUpdatedTasks.

Lemma keyed_delete k m : keyed m -> keyed (Map_delete k m).
Proof. intros H k' v Hin. apply H. by eapply Map_delete_elem_of. Qed.

Lemma updatedTasksMap_entries_aux updated m0 k v :
  (k, v) ∈ foldl (fun m task => Map_set (key task) task m) m0 updated ->
  (k, v) ∈ m0 ∨ (v ∈ updated ∧ key v = k).
Proof.
  revert m0. induction updated as [|u updated IH]; intros m0; simpl.
  - by left.
  - intros H. destruct (IH _ H) as [H'|[H' Hk]].
    + apply Map_set_elem_of in H' as [[= -> ->]|H'].
      * right. split; [left|done].
      * by left.
    + right. split; [by right|done].
Qed.

Lemma updatedTasksMap_entries updated k v :
  (k, v) ∈ updatedTasksMap updated -> v ∈ updated ∧ key v = k.
Proof.
  intros H. apply updatedTasksMap_entries_aux in H as [H|H]; [|done].
  by apply elem_of_nil in H.
Qed.

Lemma updatedTasksMap_keyed updated : keyed (updatedTasksMap updated).
Proof. intros k v H. by apply updatedTasksMap_entries in H as [_ H]. Qed.

Lemma updatedTasksMap_get_aux updated m0 k :
  Map_get k (foldl (fun m task => Map_set (key task) task m) m0 updated) = None <->
  Map_get k m0 = None ∧ k ∉ map key updated.
Proof.
  revert m0. induction updated as [|u updated IH]; intros m0; simpl.
  - split; [intros H; split; [done|apply not_elem_of_nil]|by intros [H _]].
  - rewrite IH, Map_get_set, not_elem_of_cons.
    destruct (String.eqb_spec k (key u)) as [->|Hne]; [split; [by intros []|]|tauto].
    by intros (_ & ? & _).
Qed.

(** A key is absent from the index exactly when no update has it. *)
Lemma updatedTasksMap_get_None updated k :
  Map_get k (updatedTasksMap updated) = None <-> k ∉ map key updated.
Proof.
  unfold updatedTasksMap. rewrite updatedTasksMap_get_aux. simpl. tauto.
Qed.

(** A task whose key is not in the index stays in its slot. *)
Lemma mergeTasks_lookup_untouched existing m i t :
  existing !! i = Some t ->
  Map_get (key t) m = None ->
  (mergeTasks existing m).1 !! i = Some t.
Proof.
  revert m i. induction existing as [|x l IH]; intros m i Hi Hget; [done|].
  simpl. destruct (Map_get (key x) m) as [u|] eqn:Hx.
  - destruct (mergeTasks l (Map_delete (key x) m)) as [out m'] eqn:Hm.
    destruct i as [|i]; simpl in *.
    + congruence.
    + specialize (IH (Map_delete (key x) m) i Hi). rewrite Hm in IH.
      apply IH. rewrite Map_get_delete, Hget. by destruct (String.eqb _ _).
  - destruct (mergeTasks l m) as [out m'] eqn:Hm.
    destruct i as [|i]; simpl in *; [done|].
    specialize (IH m i Hi Hget). by rewrite Hm in IH.
Qed.

(** What is left in the index after the walk: the entries whose key no
    existing task has. *)
Lemma mergeTasks_leftover_elem_of existing m e :
  e ∈ (mergeTasks existing m).2 -> e ∈ m.
Proof.
  revert m. induction existing as [|x l IH]; intros m; simpl; [done|].
  destruct (Map_get (key x) m) as [u|].
  - destruct (mergeTasks l (Map_delete (key x) m)) as [out m'] eqn:Hm.
    simpl. intros H. specialize (IH (Map_delete (key x) m)).
    rewrite Hm in IH. eapply Map_delete_elem_of, IH, H.
  - destruct (mergeTasks l m) as [out m'] eqn:Hm.
    simpl. intros H. specialize (IH m). rewrite Hm in IH. by apply IH.
Qed.

(** Tasks selected by a predicate that holds of no task, old or new,
    under an indexed key come out of the walk as they went in. *)
Lemma mergeTasks_filter (P : Task -> bool) existing m :
  keyed m ->
  (forall k v t, (k, v) ∈ m -> key t = k -> P t = false) ->
  List.filter P (mergeTasks existing m).1 = List.filter P existing.
Proof.
  revert m. induction existing as [|x l IH]; intros m Hk HP; [done|].
  simpl. destruct (Map_get (key x) m) as [u|] eqn:Hx.
  - destruct (mergeTasks l (Map_delete (key x) m)) as [out m'] eqn:Hm.
    simpl. apply Map_get_elem_of in Hx.
    rewrite (HP _ _ x Hx eq_refl), (HP _ _ u Hx (Hk _ _ Hx)).
    specialize (IH (Map_delete (key x) m)). rewrite Hm in IH.
    apply IH; [by apply keyed_delete|].
    intros k v t Hin. apply (HP k v t). by eapply Map_delete_elem_of.
  - destruct (mergeTasks l m) as [out m'] eqn:Hm.
    simpl. specialize (IH m Hk HP). rewrite Hm in IH. simpl in IH.
    by rewrite IH.
Qed.
End MergeFacts.

Section MergeIdempotence.
Import SaveUpdatedTasks.

Lemma find_app {A} (f : A -> bool) l1 l2 :
  List.find f (l1 ++ l2) =
  match List.find f l1 with Some x => Some x | None => List.find f l2 end.
Proof. induction l1 as [|x l1 IH]; simpl; [done|]. by destruct (f x). Qed.

Lemma find_head_filter {A} (f : A -> bool) l :
  List.find f l = head (List.filter f l).
Proof. induction l as [|x l IH]; simpl; [done|]. by destruct (f x). Qed.

Lemma StronglySorted_all {A} (R : A -> A -> Prop) l :
  (forall x y, x ∈ l -> y ∈ l -> R x y) -> StronglySorted R l.
Proof.
  induction l as [|x l IH]; intros H; constructor.
  - apply IH. intros y z Hy Hz. apply H; by right.
  - apply Forall_forall. intros y Hy. apply H; [left|by right].
Qed.

Lemma values_firstWithKey m k v :
  keyed m -> Map_get k m = Some v -> firstWithKey k (Map_values m) = Some v.
Proof.
  induction m as [|[k1 v1] m IH]; intros Hk; simpl; [done|].
  assert (Hk1 : key v1 = k1) by (apply Hk; left).
  assert (Hm : keyed m) by (intros k' v' H; apply Hk; by right).
  rewrite Hk1. rewrite (String.eqb_sym k1 k).
  destruct (String.eqb k k1); [done|]. by apply IH.
Qed.

(** After the walk an update is the first task under its key, or no
    task has its key and it is still in the index. *)
Lemma mergeTasks_first existing m k v :
  keyed m -> Map_get k m = Some v ->
  firstWithKey k (mergeTasks existing m).1 = Some v ∨
  (firstWithKey k (mergeTasks existing m).1 = None ∧
   Map_get k (mergeTasks existing m).2 = Some v).
Proof.
  revert m. induction existing as [|x l IH]; intros m Hk Hget; simpl.
  - by right.
  - destruct (Map_get (key x) m) as [u|] eqn:Hx.
    + specialize (IH (Map_delete (key x) m)).
      destruct (mergeTasks l (Map_delete (key x) m)) as [out m'] eqn:Hm.
      simpl in *. rewrite (Hk _ _ (Map_get_elem_of _ _ _ Hx)).
      destruct (String.eqb_spec (key x) k) as [<-|Hne].
      * left. congruence.
      * apply IH; [by apply keyed_delete|].
        rewrite Map_get_delete. by destruct (String.eqb_spec (key x) k).
    + specialize (IH m Hk Hget).
      destruct (mergeTasks l m) as [out m'] eqn:Hm. simpl in *.
      destruct (String.eqb_spec (key x) k) as [<-|Hne]; [congruence|done].
Qed.

Lemma mergeTasks_leftover_keyed existing m :
  keyed m -> keyed (mergeTasks existing m).2.
Proof.
  intros Hk k v H. apply Hk. by eapply mergeTasks_leftover_elem_of.
Qed.


End MergeIdempotence.

(** ** Frame properties of the merge *)

Section MergeFrame.
Import SaveUpdatedTasks.

Lemma named_in_spec updated t :
  named_in updated t = true <-> key t ∈ map key updated.
Proof.
  unfold named_in. rewrite existsb_exists. split.
  - intros (k & Hin & ->%String.eqb_eq). by apply list_elem_of_In.
  - intros Hin. exists (key t). split; [by apply list_elem_of_In|].
    apply String.eqb_refl.
Qed.

Lemma untouched_get updated t :
  untouched updated t = true <->
  Map_get (key t) (updatedTasksMap updated) = None.
Proof.
  rewrite updatedTasksMap_get_None, <- named_in_spec. unfold untouched.
  destruct (named_in updated t); split; done.
Qed.

Lemma untouched_index updated k v t :
  (k, v) ∈ updatedTasksMap updated -> key t = k -> untouched updated t = false.
Proof.
  intros [Hv Hk]%updatedTasksMap_entries Ht. unfold untouched.
  apply negb_false_iff, named_in_spec. rewrite Ht, <- Hk.
  by apply list_elem_of_fmap_2.
Qed.

Lemma filter_Permutation_bool {A} (f : A -> bool) l l' :
  l ≡ₚ l' -> List.filter f l ≡ₚ List.filter f l'.
Proof.
  induction 1 as [|x l l' _ IH|x y l|l l' l'' _ IH1 _ IH2]; simpl.
  - done.
  - destruct (f x); [by constructor|done].
  - destruct (f x), (f y); try done. apply Permutation_swap.
  - by etrans.
Qed.

Lemma filter_none {A} (f : A -> bool) l :
  (forall x, x ∈ l -> f x = false) -> List.filter f l = [].
Proof.
  induction l as [|x l IH]; intros H; simpl; [done|].
  rewrite (H x) by left. apply IH. intros y Hy. apply H. by right.
Qed.

(** The untouched tasks of the walk's output, leftovers appended, are
    the untouched tasks of the input, in order. *)
Lemma walk_untouched existing updated :
  let r := mergeTasks existing (updatedTasksMap updated) in
  List.filter (untouched updated) (r.1 ++ Map_values r.2) =
  List.filter (untouched updated) existing.
Proof.
  simpl. rewrite List.filter_app, mergeTasks_filter.
  - rewrite (filter_none _ (Map_values _)); [by rewrite app_nil_r|].
    intros v [[k v'] [-> Hin]]%list_elem_of_fmap. simpl.
    apply mergeTasks_leftover_elem_of in Hin.
    eapply untouched_index; [done|].
    by apply updatedTasksMap_keyed in Hin.
  - apply updatedTasksMap_keyed.
  - intros k v t. apply untouched_index.
Qed.

Lemma Map_get_None_not_elem_of {V} k (v : V) m :
  Map_get k m = None -> (k, v) ∉ m.
Proof.
  induction m as [|[k1 v1] m IH]; simpl; [intros _; apply not_elem_of_nil|].
  destruct (String.eqb_spec k k1) as [->|Hne]; [done|].
  intros H [[= ]|Hin]%elem_of_cons; [done|]. by apply IH.
Qed.

Lemma mergeTasks_leftover_fresh existing m k v :
  (k, v) ∈ (mergeTasks existing m).2 -> k ∉ map key existing.
Proof.
  revert m. induction existing as [|x l IH]; intros m; simpl.
  - intros _. apply not_elem_of_nil.
  - destruct (Map_get (key x) m) as [u|] eqn:Hx.
    + specialize (IH (Map_delete (key x) m)).
      destruct (mergeTasks l (Map_delete (key x) m)) as [out m'] eqn:Hm.
      simpl in *. intros Hin. apply not_elem_of_cons. split; [|by apply IH].
      pose proof (mergeTasks_leftover_elem_of l (Map_delete (key x) m) (k, v)) as Hsub.
      rewrite Hm in Hsub. specialize (Hsub Hin).
      apply list_elem_of_In, filter_In in Hsub as [_ Hne]. simpl in Hne.
      intros ->. by rewrite String.eqb_refl in Hne.
    + specialize (IH m).
      destruct (mergeTasks l m) as [out m'] eqn:Hm.
      simpl in *. intros Hin. apply not_elem_of_cons. split; [|by apply IH].
      pose proof (mergeTasks_leftover_elem_of l m (k, v)) as Hsub.
      rewrite Hm in Hsub. specialize (Hsub Hin).
      intros ->. by eapply Map_get_None_not_elem_of.
Qed.

(** When every id of the batch is the id of an existing task, nothing is
    appended and the list is not sorted. *)
Lemma mergedTasks_no_new existing updated :
  (forall u, u ∈ updated -> key u ∈ map key existing) ->
  mergedTasks existing updated = (mergeTasks existing (updatedTasksMap updated)).1.
Proof.
  intros Hall. unfold mergedTasks.
  pose proof (mergeTasks_leftover_fresh existing (updatedTasksMap updated)) as Hf.
  pose proof (mergeTasks_leftover_elem_of existing (updatedTasksMap updated)) as Hs.
  destruct (mergeTasks existing (updatedTasksMap updated)) as [merged m'].
  simpl in *. destruct m' as [|[k v] rest]; [done|]. exfalso.
  apply (Hf k v); [left|].
  destruct (updatedTasksMap_entries updated k v) as [Hv <-]; [apply Hs; left|].
  by apply Hall.
Qed.

Lemma mergedTasks_untouched_Permutation existing updated :
  List.filter (untouched updated) (mergedTasks existing updated) ≡ₚ
  List.filter (untouched updated) existing.
Proof.
  rewrite <- (walk_untouched existing updated). unfold mergedTasks.
  destruct (mergeTasks existing (updatedTasksMap updated)) as [merged m'].
  simpl. destruct m' as [|e rest]; simpl.
  - by rewrite app_nil_r.
  - apply filter_Permutation_bool, Array_sort_Permutation.
Qed.

End MergeFrame.

(** ** The order of the merged list *)

Section MergeOrder.
Import SaveUpdatedTasks.

Lemma mergeTasks_elem_of existing m t :
  t ∈ (mergeTasks existing m).1 -> t ∈ existing \/ exists k, (k, t) ∈ m.
Proof.
  revert m. induction existing as [|x l IH]; intros m; simpl.
  - by intros ?%elem_of_nil.
  - destruct (Map_get (key x) m) as [u|] eqn:Hx.
    + specialize (IH (Map_delete (key x) m)).
      destruct (mergeTasks l (Map_delete (key x) m)) as [out m'].
      simpl in *. intros [->|Hin]%elem_of_cons.
      * right. eexists. by apply Map_get_elem_of.
      * destruct (IH Hin) as [H|[k H]]; [left; by right|].
        right. exists k. by eapply Map_delete_elem_of.
    + specialize (IH m). destruct (mergeTasks l m) as [out m'].
      simpl in *. intros [->|Hin]%elem_of_cons; [left; left|].
      destruct (IH Hin) as [H|H]; [left; by right|by right].
Qed.

(** The merged list is the output of the walk followed by what the walk
    left in the index, in some order. *)
Lemma mergedTasks_Permutation existing updated :
  let r := mergeTasks existing (updatedTasksMap updated) in
  mergedTasks existing updated ≡ₚ r.1 ++ Map_values r.2.
Proof.
  unfold mergedTasks.
  destruct (mergeTasks existing (updatedTasksMap updated)) as [merged m'].
  simpl. destruct m' as [|e m']; simpl.
  - by rewrite app_nil_r.
  - apply Array_sort_Permutation.
Qed.




Lemma numeric_ranked l :
  Forall numeric_id l -> ranked compareById rank_of_id l.
Proof.
  rewrite Forall_forall. intros Hnum a b Ha Hb.
  destruct (Hnum a Ha) as [qa Hqa]. destruct (Hnum b Hb) as [qb Hqb].
  unfold compareById, rank_of_id. by rewrite Hqa, Hqb.
Qed.

(** With numeric ids in the document and in the batch, what is sorted
    has numeric ids. *)
Lemma walk_numeric existing updated :
  Forall numeric_id existing -> Forall numeric_id updated ->
  let r := mergeTasks existing (updatedTasksMap updated) in
  Forall numeric_id (r.1 ++ Map_values r.2).
Proof.
  intros He Hup. cbv zeta. rewrite Forall_forall in He, Hup |- *.
  intros t [Ht|Ht]%elem_of_app.
  - destruct (mergeTasks_elem_of _ _ t Ht) as [H|[k H]]; [by apply He|].
    apply Hup. by apply updatedTasksMap_entries in H as [H _].
  - apply list_elem_of_fmap in Ht as [[k v'] [-> Hin]]. simpl.
    apply Hup. apply mergeTasks_leftover_elem_of in Hin.
    by apply updatedTasksMap_entries in Hin as [H _].
Qed.

(** Tasks under one key never overtake each other in the sort of a list
    with numeric ids. *)
Lemma sort_firstWithKey k l :
  Forall numeric_id l ->
  firstWithKey k (Array_sort compareById l) = firstWithKey k l.
Proof.
  intros Hnum. unfold firstWithKey.
  rewrite !find_head_filter, (Array_sort_stable compareById rank_of_id);
    [done|by apply numeric_ranked|].
  apply StronglySorted_all. intros x y Hx Hy.
  apply list_elem_of_In, filter_In in Hx as [_ Hx%String.eqb_eq].
  apply list_elem_of_In, filter_In in Hy as [_ Hy%String.eqb_eq].
  unfold compareById. rewrite Hx, Hy. apply sub_same_not_positive.
Qed.

(** Each update (the last one given for its id) is the first task under
    its key in the merged list, when the order is determined. *)
Lemma mergedTasks_first existing updated k v :
  order_determined existing updated ->
  Map_get k (updatedTasksMap updated) = Some v ->
  firstWithKey k (mergedTasks existing updated) = Some v.
Proof.
  intros Hord Hget.
  pose proof (updatedTasksMap_keyed updated) as Hk.
  pose proof (mergeTasks_first existing _ k v Hk Hget) as Hfirst.
  pose proof (mergeTasks_leftover_keyed existing _ Hk) as Hk'.
  destruct Hord as [Hall|[He Hup]].
  - rewrite mergedTasks_no_new by done.
    destruct Hfirst as [H|[_ H]]; [done|]. exfalso.
    apply Map_get_elem_of in H.
    pose proof (mergeTasks_leftover_fresh _ _ _ _ H) as Hfresh.
    apply mergeTasks_leftover_elem_of, updatedTasksMap_entries in H as [Hv Hkv].
    apply Hfresh. rewrite <- Hkv. by apply Hall.
  - pose proof (walk_numeric existing updated He Hup) as Hnum.
    unfold mergedTasks. cbv zeta in Hnum.
    destruct (mergeTasks existing (updatedTasksMap updated)) as [merged m'].
    simpl in *. destruct m' as [|e rest]; simpl.
    + destruct Hfirst as [H|[_ H]]; done.
    + rewrite sort_firstWithKey by done. unfold firstWithKey in *. rewrite find_app.
      destruct Hfirst as [->|[-> H]]; [done|].
      by apply (values_firstWithKey (e :: rest)).
Qed.


Lemma mergedTasks_untouched_sorted existing updated :
  Forall numeric_id existing -> Forall numeric_id updated ->
  StronglySorted id_le (List.filter (untouched updated) existing) ->
  List.filter (untouched updated) (mergedTasks existing updated) =
  List.filter (untouched updated) existing.
Proof.
  intros He Hup Hs. rewrite <- (walk_untouched existing updated) in Hs |- *.
  pose proof (walk_numeric existing updated He Hup) as Hnum.
  unfold mergedTasks. cbv zeta in Hnum.
  destruct (mergeTasks existing (updatedTasksMap updated)) as [merged m'].
  simpl in *. destruct m' as [|e rest]; simpl.
  - by rewrite app_nil_r.
  - apply (Array_sort_stable compareById rank_of_id); [|done].
    by apply numeric_ranked.
Qed.
End MergeOrder.

(** ** Reconciliation: completed subtasks, untouched tasks, idempotence,
    argument errors *)

Section MergeClaims.
Import SaveUpdatedTasks.





(** Appending a new id sorts the whole list. *)
Example merge_sorts_untouched :
  mergedTasks [sampleTask 2 "pending" None; sampleTask 1 "pending" None]
              [sampleTask 3 "pending" None]
  = [sampleTask 1 "pending" None; sampleTask 2 "pending" None;
     sampleTask 3 "pending" None].
Proof. reflexivity. Qed.

(** C3, as stated, fails: the untouched tasks do not always keep their
    relative position. *)
Lemma untouched_tasks_unchanged_counterexample :
  ~ (forall existing updated,
       List.filter (untouched updated) (mergedTasks existing updated) =
       List.filter (untouched updated) existing).
Proof.
  intros H.
  specialize (H [sampleTask 2 "pending" None; sampleTask 1 "pending" None]
                [sampleTask 3 "pending" None]).
  rewrite merge_sorts_untouched in H. discriminate H.
Qed.

(** C3 (amended): the tasks whose id is not in the batch are all in the
    result, each as it was and as often as before.  When every id of the
    batch belongs to an existing task they also keep their slots, hence
    their relative position.  When the batch has an id that is new to the
    document the list is sorted by numeric id; if all ids, of the
    document and of the batch, are numerals, they keep their relative
    position when they were in that order already. *)
Theorem untouched_tasks_unchanged existing updated :
  List.filter (untouched updated) (mergedTasks existing updated) ≡ₚ
    List.filter (untouched updated) existing /\
  ((forall u, u ∈ updated -> key u ∈ map key existing) ->
     (forall i t, existing !! i = Some t -> untouched updated t = true ->
                  mergedTasks existing updated !! i = Some t) /\
     List.filter (untouched updated) (mergedTasks existing updated) =
       List.filter (untouched updated) existing) /\
  (Forall numeric_id existing -> Forall numeric_id updated ->
   StronglySorted id_le (List.filter (untouched updated) existing) ->
     List.filter (untouched updated) (mergedTasks existing updated) =
       List.filter (untouched updated) existing).
Proof.
  split; [apply mergedTasks_untouched_Permutation|]. split.
  - intros Hall. rewrite mergedTasks_no_new by done. split.
    + intros i t Hi Hu. apply mergeTasks_lookup_untouched; [done|].
      by apply untouched_get.
    + apply mergeTasks_filter; [apply updatedTasksMap_keyed|].
      intros k v t. apply untouched_index.
  - apply mergedTasks_untouched_sorted.
Qed.

Lemma untouched_tasks_unchanged_witness :
  mergedTasks [sampleTask 2 "pending" None; sampleTask 1 "pending" None]
              [sampleTask 2 "done" None] !! 1%nat
    = Some (sampleTask 1 "pending" None) /\
  List.filter (untouched [sampleTask 3 "pending" None])
    (mergedTasks [sampleTask 1 "pending" None; sampleTask 2 "pending" None]
                 [sampleTask 3 "pending" None])
    = [sampleTask 1 "pending" None; sampleTask 2 "pending" None].
Proof.
  split.
  - refine (proj1 (proj1 (proj2 (untouched_tasks_unchanged
              [sampleTask 2 "pending" None; sampleTask 1 "pending" None]
              [sampleTask 2 "done" None])) _) 1%nat _ eq_refl eq_refl).
    intros u ->%list_elem_of_singleton. left.
  - refine (proj2 (proj2 (untouched_tasks_unchanged
              [sampleTask 1 "pending" None; sampleTask 2 "pending" None]
              [sampleTask 3 "pending" None])) _ _ _).
    + repeat constructor; eexists; vm_compute; reflexivity.
    + repeat constructor; eexists; vm_compute; reflexivity.
    + repeat constructor.
Defined.


(** The hypothesis on the ids in the last part of C3 is needed: next
    to an id that is not a numeral the sort moves task 5 in front of
    task x, two untouched tasks that were in an order the comparator
    accepts. *)
Example merge_moves_untouched_mixed_ids :
  StronglySorted id_le (List.filter (untouched unorderedBatch) unorderedDocument) /\
  List.filter (untouched unorderedBatch) unorderedDocument
    = [stringTask "x" "pending" None; sampleTask 5 "pending" None] /\
  List.filter (untouched unorderedBatch) (mergedTasks unorderedDocument unorderedBatch)
    = [sampleTask 5 "pending" None; stringTask "x" "pending" None].
Proof.
  split; [|split; vm_compute; reflexivity].
  change (List.filter (untouched unorderedBatch) unorderedDocument)
    with [stringTask "x" "pending" None; sampleTask 5 "pending" None].
  repeat constructor.
Qed.




Example merge_twice_with_new_id :
  let once := mergedTasks [sampleTask 2 "pending" None; sampleTask 1 "pending" None]
                          [sampleTask 3 "pending" None; sampleTask 2 "done" None] in
  once = [sampleTask 1 "pending" None; sampleTask 2 "done" None;
          sampleTask 3 "pending" None] /\
  mergedTasks once [sampleTask 3 "pending" None; sampleTask 2 "done" None] = once.
Proof. split; reflexivity. Qed.

Lemma mergedTasks_nil existing : mergedTasks existing [] = existing.
Proof.
  assert (H : mergeTasks existing [] = (existing, [])).
  { induction existing as [|x l IH]; simpl; [done|]. by rewrite IH. }
  unfold mergedTasks.
  change (updatedTasksMap []) with (@nil (string * Task)). by rewrite H.
Qed.

(** C8: a batch that is not an array is refused with a structured error
    and nothing is written; an empty batch succeeds and leaves the
    stored document as it is. *)
Theorem merge_argument_errors path root w :
  (exists e, saveUpdatedTasksDirect (mkArgs path root NotAnArray) w = (Failure e, w)
             /\ code e = "MISSING_ARGS") /\
  (forall d, path <> "" -> root <> "" -> readJSON w = Some d ->
     saveUpdatedTasksDirect (mkArgs path root (ArrayOf [])) w
       = (Success "Successfully saved 0 updated tasks.", w)
     /\ tasks_file (saveUpdatedTasksDirect (mkArgs path root (ArrayOf [])) w).2
          = Some d).
Proof.
  split.
  - unfold saveUpdatedTasksDirect. simpl. rewrite orb_true_r. by eexists.
  - intros d Hp Hr Hd.
    assert (Hsave : saveUpdatedTasksDirect (mkArgs path root (ArrayOf [])) w
                    = (Success "Successfully saved 0 updated tasks.", w)).
    { unfold saveUpdatedTasksDirect. simpl.
      apply String.eqb_neq in Hp, Hr. rewrite Hp, Hr, Hd. simpl.
      rewrite mergedTasks_nil. f_equal.
      destruct w as [tf rf], d as [ts md]. simpl in *. by subst. }
    by rewrite Hsave.
Qed.

Lemma merge_argument_errors_witness :
  saveUpdatedTasksDirect (mkArgs "tasks.json" "/p" (ArrayOf []))
    (mkWorld (Some (mkDocument [sampleTask 1 "pending" None] "meta")) None)
  = (Success "Successfully saved 0 updated tasks.",
     mkWorld (Some (mkDocument [sampleTask 1 "pending" None] "meta")) None).
Proof.
  refine (proj1 (proj2 (merge_argument_errors "tasks.json" "/p"
            (mkWorld (Some (mkDocument [sampleTask 1 "pending" None] "meta")) None))
            (mkDocument [sampleTask 1 "pending" None] "meta") _ _ eq_refl));
    discriminate.
Defined.
End MergeClaims.

(** ** Expansion of one task *)

Section ExpandClaims.
Import ExpandTask.

Lemma eqb_empty_false s : s <> "" -> String.eqb s "" = false.
Proof. apply String.eqb_neq. Qed.

Example expand_done_task_with_subtasks :
  expandTaskDirect (mkArgs "tasks.json" "1" "" "" None) sampleEnv
    (sampleWorld [sampleTask 1 "done" (Some [sampleSubtask 1 "pending"])])
  = (Failure (mkError "TASK_COMPLETED" "Task 1 is already completed"),
     sampleWorld [sampleTask 1 "done" (Some [sampleSubtask 1 "pending"])]).
Proof. reflexivity. Qed.

(** C10: expanding a task whose status is [done] or [completed] returns
    the TASK_COMPLETED error and writes nothing. *)
Theorem expand_completed_task args env w taskId sampling data taskIndex task :
  tasksJsonPath args <> "" ->
  id args <> "" -> parseInt (id args) = Some taskId -> taskId <> 0 ->
  requestSampling env = Some sampling ->
  readJSON w = Some data ->
  findIndex (fun t => strict_eq_number (task_id t) taskId) (tasks data) = Some taskIndex ->
  tasks data !! taskIndex = Some task ->
  task_status task = "done" \/ task_status task = "completed" ->
  expandTaskDirect args env w =
    (Failure (mkError "TASK_COMPLETED"
                ("Task " +:+ pretty taskId +:+ " is already completed")), w).
Proof.
  intros Hpath Hid Hparse Hnz Hs Hr Hfind Hlook Hstatus.
  unfold expandTaskDirect.
  rewrite (eqb_empty_false _ Hpath), (eqb_empty_false _ Hid), Hparse.
  destruct taskId as [|p|p]; [done| |];
    rewrite Hs, Hr, Hfind, Hlook;
    (assert (Hc : isCompleted task = true);
     [unfold isCompleted; destruct Hstatus as [-> | ->]; reflexivity|]);
    by rewrite Hc.
Qed.

Lemma expand_completed_task_witness :
  expandTaskDirect (mkArgs "tasks.json" "2" "" "" (Some true)) sampleEnv
    (sampleWorld [sampleTask 1 "pending" None; sampleTask 2 "completed" None])
  = (Failure (mkError "TASK_COMPLETED" "Task 2 is already completed"),
     sampleWorld [sampleTask 1 "pending" None; sampleTask 2 "completed" None]).
Proof.
  refine (expand_completed_task
            (mkArgs "tasks.json" "2" "" "" (Some true)) sampleEnv
            (sampleWorld [sampleTask 1 "pending" None; sampleTask 2 "completed" None])
            2 (fun _ => Resolved "[two]")
            (mkDocument [sampleTask 1 "pending" None; sampleTask 2 "completed" None] "meta")
            1%nat (sampleTask 2 "completed" None)
            _ _ eq_refl _ eq_refl eq_refl eq_refl eq_refl (or_intror eq_refl));
    discriminate.
Defined.

(** C5, as stated, fails: a task with subtasks whose status is [done] is
    not skipped with a success envelope, it is refused. *)
Lemma expand_skips_existing_counterexample :
  ~ (forall args env w taskId sampling data taskIndex task st rest,
       tasksJsonPath args <> "" ->
       id args <> "" -> parseInt (id args) = Some taskId -> taskId <> 0 ->
       requestSampling env = Some sampling ->
       readJSON w = Some data ->
       findIndex (fun t => strict_eq_number (task_id t) taskId) (tasks data) = Some taskIndex ->
       tasks data !! taskIndex = Some task ->
       task_subtasks task = Some (st :: rest) ->
       force args <> Some true ->
       exists d, expandTaskDirect args env w = (Success d, w)
                 /\ d_subtasksAdded d = 0%nat).
Proof.
  intros H.
  destruct (H (mkArgs "tasks.json" "1" "" "" None) sampleEnv
              (sampleWorld [sampleTask 1 "done" (Some [sampleSubtask 1 "pending"])])
              1 (fun _ => Resolved "[two]")
              (mkDocument [sampleTask 1 "done" (Some [sampleSubtask 1 "pending"])] "meta")
              0%nat (sampleTask 1 "done" (Some [sampleSubtask 1 "pending"]))
              (sampleSubtask 1 "pending") [])
    as (d & Hd & _); try done.
Qed.

(** C5 (amended): for a task that has at least one subtask and whose
    status is neither [done] nor [completed], expansion without the force
    flag is a no-op reported as success: the envelope carries the task as
    it is and zero subtasks added, and nothing is written. *)
Theorem expand_skips_existing args env w taskId sampling data taskIndex task st rest :
  tasksJsonPath args <> "" ->
  id args <> "" -> parseInt (id args) = Some taskId -> taskId <> 0 ->
  requestSampling env = Some sampling ->
  readJSON w = Some data ->
  findIndex (fun t => strict_eq_number (task_id t) taskId) (tasks data) = Some taskIndex ->
  tasks data !! taskIndex = Some task ->
  task_subtasks task = Some (st :: rest) ->
  force args <> Some true ->
  task_status task <> "done" -> task_status task <> "completed" ->
  expandTaskDirect args env w =
    (Success (mkData
       (Some ("Task " +:+ pretty taskId +:+ " already has subtasks. Skipped."))
       task 0), w).
Proof.
  intros Hpath Hid Hparse Hnz Hs Hr Hfind Hlook Hsubs Hforce Hd Hc.
  unfold expandTaskDirect.
  rewrite (eqb_empty_false _ Hpath), (eqb_empty_false _ Hid), Hparse.
  assert (Hnc : isCompleted task = false).
  { unfold isCompleted. apply String.eqb_neq in Hd, Hc. by rewrite Hd, Hc. }
  assert (Hex : hasExistingSubtasks task = true)
    by (unfold hasExistingSubtasks; by rewrite Hsubs).
  assert (Hff : match force args with Some true => true | _ => false end = false)
    by (by destruct (force args) as [[]|]).
  destruct taskId as [|p|p]; [done| |];
    by rewrite Hs, Hr, Hfind, Hlook, Hnc, Hex, Hff.
Qed.

Lemma expand_skips_existing_witness :
  expandTaskDirect (mkArgs "tasks.json" "1" "" "" None) sampleEnv
    (sampleWorld [sampleTask 1 "pending" (Some [sampleSubtask 1 "done"])])
  = (Success (mkData (Some "Task 1 already has subtasks. Skipped.")
                     (sampleTask 1 "pending" (Some [sampleSubtask 1 "done"])) 0),
     sampleWorld [sampleTask 1 "pending" (Some [sampleSubtask 1 "done"])]).
Proof.
  refine (expand_skips_existing
            (mkArgs "tasks.json" "1" "" "" None) sampleEnv
            (sampleWorld [sampleTask 1 "pending" (Some [sampleSubtask 1 "done"])])
            1 (fun _ => Resolved "[two]")
            (mkDocument [sampleTask 1 "pending" (Some [sampleSubtask 1 "done"])] "meta")
            0%nat (sampleTask 1 "pending" (Some [sampleSubtask 1 "done"]))
            (sampleSubtask 1 "done") []
            _ _ eq_refl _ eq_refl eq_refl eq_refl eq_refl eq_refl _ _ _);
    discriminate.
Defined.
End ExpandClaims.

(** ** Subtask numbering *)

Section Numbering.
Import ExpandTask.

Lemma imap_ids (g : nat -> Z) (f : nat -> Subtask -> Subtask) (l : list Subtask) :
  (forall i s, st_id (f i s) = Some (g i)) ->
  map st_id (imap f l) = map (fun i => Some (g i)) (seq 0 (length l)).
Proof.
  revert g f. induction l as [|x l IH]; intros g f Hf; [done|].
  simpl. rewrite Hf. f_equal.
  rewrite (IH (g ∘ S) (f ∘ S)) by (intros; apply Hf).
  by rewrite <- seq_shift, map_map.
Qed.

Lemma assignIds_contiguous l : contiguous_ids (assignIds 1 l).
Proof.
  unfold contiguous_ids, assignIds.
  rewrite (imap_ids (fun i => 1 + Z.of_nat i)) by done.
  rewrite length_imap, <- seq_shift, map_map.
  apply map_ext. intros i. f_equal. lia.
Qed.

Lemma renumber_contiguous l :
  contiguous_ids (SaveMultipleTaskSubtasks.renumber l).
Proof.
  unfold contiguous_ids, SaveMultipleTaskSubtasks.renumber.
  rewrite (imap_ids (fun i => Z.of_nat i + 1)) by done.
  rewrite length_imap, <- seq_shift, map_map.
  apply map_ext. intros i. f_equal. lia.
Qed.

(** When the generator is reached the task has no subtasks (any more), so
    numbering starts at 1. *)
Lemma nextSubtaskId_start task forceFlag :
  hasExistingSubtasks task && negb forceFlag = false ->
  nextSubtaskId
    (if hasExistingSubtasks task && forceFlag then set_subtasks [] task else task) = 1.
Proof.
  unfold hasExistingSubtasks, nextSubtaskId.
  destruct (task_subtasks task) as [[|s l]|] eqn:Hs; simpl; rewrite ?Hs; try done.
  destruct forceFlag; simpl; done.
Qed.

Lemma set_subtasks_cleared subs (b : bool) task :
  set_subtasks subs (if b then set_subtasks [] task else task) = set_subtasks subs task.
Proof. by destruct b. Qed.

(** The world after [expandTaskDirect]: untouched, or the stored document
    with the target task carrying freshly numbered subtasks. *)
Lemma expandTaskDirect_world args env w :
  (expandTaskDirect args env w).2 = w \/
  exists data taskIndex task parsed,
    readJSON w = Some data /\ tasks data !! taskIndex = Some task /\
    (expandTaskDirect args env w).2 =
      writeJSON (with_tasks data
                   (<[taskIndex := set_subtasks (assignIds 1 parsed) task]> (tasks data))) w.
Proof.
  unfold expandTaskDirect.
  destruct (String.eqb (tasksJsonPath args) ""); [by left|].
  destruct (if String.eqb (id args) "" then None else parseInt (id args))
    as [[|p|p]|]; try (by left).
  all: destruct (requestSampling env) as [sampling|]; [|by left].
  all: destruct (readJSON w) as [data|] eqn:Hr; [|by left].
  all: destruct (findIndex _ (tasks data)) as [taskIndex|]; [|by left].
  all: destruct (tasks data !! taskIndex) as [task|] eqn:Hl; [|by left].
  all: destruct (isCompleted task); [by left|].
  all: destruct (hasExistingSubtasks task && negb _) eqn:Hskip; [by left|].
  all: rewrite (nextSubtaskId_start _ _ Hskip).
  all: destruct (sampling _) as [msg|text]; [by left|].
  all: destruct (String.eqb text ""); [by left|].
  all: destruct (AiClientUtils.parseSubtasksFromText _ text) as [parsed|]; [|by left].
  all: right; exists data, taskIndex, task, parsed.
  all: split; [done|]; split; [done|].
  all: rewrite set_subtasks_cleared; by destruct (generateTaskFiles env _).
Qed.

Lemma expandTaskDirect_contiguous args env w data data' :
  readJSON w = Some data ->
  Forall task_contiguous (tasks data) ->
  tasks_file (expandTaskDirect args env w).2 = Some data' ->
  Forall task_contiguous (tasks data').
Proof.
  intros Hr Hall.
  destruct (expandTaskDirect_world args env w)
    as [-> | (d & i & task & parsed & Hr' & Hl & ->)].
  - unfold readJSON in Hr. rewrite Hr. by intros [= <-].
  - simpl. intros [= <-]. simpl. rewrite Hr in Hr'. injection Hr' as <-.
    apply Forall_insert; [done|]. apply assignIds_contiguous.
Qed.

Import SaveMultipleTaskSubtasks.

Lemma step_contiguous tm forceFlag ts c update ts' c' :
  Forall task_contiguous ts ->
  step tm forceFlag (ts, c) update = Some (ts', c') ->
  Forall task_contiguous ts'.
Proof.
  intros Hall. unfold step.
  destruct (tm !! _) as [idx|]; [|by intros [= <- _]].
  destruct (ts !! idx) as [parentTask|]; [|done].
  destruct (has_subtasks parentTask && negb forceFlag); [by intros [= <- _]|].
  destruct (su_subtasks update) as [subs|]; [|done].
  intros [= <- _]. apply Forall_insert; [done|]. apply renumber_contiguous.
Qed.

Lemma loop_contiguous tm forceFlag updates ts c ts' c' :
  Forall task_contiguous ts ->
  loop tm forceFlag (ts, c) updates = Some (ts', c') ->
  Forall task_contiguous ts'.
Proof.
  revert ts c. induction updates as [|u updates IH]; intros ts c Hall; cbn [loop].
  - by intros [= <- _].
  - destruct (step tm forceFlag (ts, c) u) as [[ts1 c1]|] eqn:Hstep; [|done].
    intros Hloop. eapply IH; [|exact Hloop].
    eapply step_contiguous; [exact Hall|exact Hstep].
Qed.

Lemma saveMultiple_contiguous args w data data' :
  readJSON w = Some data ->
  Forall task_contiguous (tasks data) ->
  tasks_file (saveMultipleTaskSubtasksDirect args w).2 = Some data' ->
  Forall task_contiguous (tasks data').
Proof.
  intros Hr Hall. unfold saveMultipleTaskSubtasksDirect.
  assert (Hsame : tasks_file w = Some data' -> Forall task_contiguous (tasks data')).
  { unfold readJSON in Hr. rewrite Hr. by intros [= <-]. }
  destruct (subtaskUpdates args) as [updates|]; [|done].
  destruct (_ || _); [done|]. rewrite Hr.
  destruct (loop _ _ _ updates) as [[ts c]|] eqn:Hloop; [|done].
  simpl. intros [= <-]. simpl. by eapply loop_contiguous.
Qed.

Import SaveUpdatedTasks.

(** The merged list is made of existing tasks and updates, nothing else. *)
Lemma mergedTasks_elem_of existing updated t :
  t ∈ mergedTasks existing updated -> t ∈ existing \/ t ∈ updated.
Proof.
  unfold mergedTasks.
  pose proof (mergeTasks_elem_of existing (updatedTasksMap updated) t) as H1.
  pose proof (mergeTasks_leftover_elem_of existing (updatedTasksMap updated)) as H2.
  destruct (mergeTasks existing (updatedTasksMap updated)) as [merged m'].
  simpl in *.
  assert (Hm : t ∈ merged -> t ∈ existing \/ t ∈ updated).
  { intros Hin. destruct (H1 Hin) as [H|[k H]]; [by left|].
    right. by apply updatedTasksMap_entries in H as [H _]. }
  assert (Hv : t ∈ Map_values m' -> t ∈ existing \/ t ∈ updated).
  { intros [[k v] [-> Hin]]%list_elem_of_fmap. simpl.
    right. apply H2 in Hin. by apply updatedTasksMap_entries in Hin as [H _]. }
  destruct m' as [|e rest]; [done|]. simpl.
  rewrite Array_sort_Permutation. intros [Hin|Hin]%elem_of_app; [by apply Hm|].
  by apply Hv.
Qed.

Lemma mergeTasks_keys existing m :
  keyed m -> map key (mergeTasks existing m).1 = map key existing.
Proof.
  revert m. induction existing as [|x l IH]; intros m Hk; simpl; [done|].
  destruct (Map_get (key x) m) as [u|] eqn:Hx.
  - specialize (IH (Map_delete (key x) m) (keyed_delete _ _ Hk)).
    destruct (mergeTasks l (Map_delete (key x) m)) as [out m'].
    simpl in *. rewrite IH. f_equal. apply Hk. by apply Map_get_elem_of.
  - specialize (IH m Hk). destruct (mergeTasks l m) as [out m'].
    simpl in *. by rewrite IH.
Qed.

Lemma compareById_numeric a b qa qb :
  parseFloat (key a) = Fin qa -> parseFloat (key b) = Fin qb ->
  positive (compareById a b) = negb (Qle_bool qa qb).
Proof.
  intros Ha Hb. unfold compareById. rewrite Ha, Hb. simpl. f_equal.
  apply eq_true_iff_eq. rewrite !Qle_bool_iff. split; intros; lra.
Qed.

(** Tasks whose ids are all numeric come out of the sort in
    non-decreasing order of id. *)
Lemma sort_by_id_sorted l :
  Forall numeric_id l -> StronglySorted id_le (Array_sort compareById l).
Proof.
  intros Hnum.
  rewrite (Array_sort_ranked compareById rank_of_id) by (by apply numeric_ranked).
  revert Hnum. apply stable_sort_sorted.
  - intros a b [qa Ha] [qb Hb].
    rewrite (compareById_numeric a b qa qb), (compareById_numeric b a qb qa) by done.
    rewrite negb_true_iff, negb_false_iff, <- not_true_iff_false, !Qle_bool_iff.
    intros; lra.
  - intros a b c [qa Ha] [qb Hb] [qc Hc].
    rewrite (compareById_numeric a b qa qb), (compareById_numeric b c qb qc),
      (compareById_numeric a c qa qc) by done.
    rewrite !negb_false_iff, !Qle_bool_iff. intros; lra.
Qed.

(** Step 3 of the merge: when the batch has an id that no existing task
    has, the updates under new ids are in the result and, ids being
    numeric, the result is sorted by id. *)
Lemma mergedTasks_appends_and_sorts existing updated u :
  u ∈ updated -> key u ∉ map key existing ->
  Forall numeric_id existing -> Forall numeric_id updated ->
  (exists v, v ∈ updated /\ key v = key u /\ v ∈ mergedTasks existing updated) /\
  StronglySorted id_le (mergedTasks existing updated).
Proof.
  intros Hu Hnew He Hup.
  destruct (Map_get (key u) (updatedTasksMap updated)) as [v|] eqn:Hget.
  2: { apply updatedTasksMap_get_None in Hget. destruct Hget.
       by apply list_elem_of_fmap_2. }
  pose proof (mergedTasks_first existing updated _ _
                (or_intror (conj He Hup)) Hget) as Hfirst.
  split.
  - exists v. apply Map_get_elem_of, updatedTasksMap_entries in Hget as [Hv Hk].
    repeat split; [done..|].
    apply find_some in Hfirst as [Hin _]. by apply list_elem_of_In.
  - unfold mergedTasks in *.
    pose proof (mergeTasks_keys existing _ (updatedTasksMap_keyed updated)) as Hkeys.
    pose proof (mergeTasks_elem_of existing (updatedTasksMap updated)) as Hel.
    pose proof (mergeTasks_leftover_elem_of existing (updatedTasksMap updated)) as Hlo.
    destruct (mergeTasks existing (updatedTasksMap updated)) as [merged m'].
    simpl in *. destruct m' as [|e rest].
    + simpl in Hfirst. apply find_some in Hfirst as [Hin Hk%String.eqb_eq].
      destruct Hnew. rewrite <- Hkeys, <- Hk. apply list_elem_of_fmap_2.
      by apply list_elem_of_In.
    + simpl. apply sort_by_id_sorted. rewrite Forall_forall in He, Hup |- *.
      intros t [Ht|Ht]%elem_of_app.
      * destruct (Hel t Ht) as [H|[k H]]; [by apply He|].
        apply Hup. by apply updatedTasksMap_entries in H as [H _].
      * change (t ∈ Map_values (e :: rest)) in Ht.
        apply list_elem_of_fmap in Ht as [[k v'] [-> Hin]]. simpl.
        apply Hup. apply Hlo in Hin.
        by apply updatedTasksMap_entries in Hin as [H _].
Qed.
End Numbering.

Section NumberingClaims.
Import SaveUpdatedTasks.

(** Expansion numbers what the generator returned from 1 and defaults the
    status; ids the generator supplied are overwritten. *)
Example expand_numbers_from_one :
  ExpandTask.expandTaskDirect (ExpandTask.mkArgs "tasks.json" "3" "4" "" None) sampleEnv
    (sampleWorld [sampleTask 3 "pending" (Some [])])
  = (Success (ExpandTask.mkData None
       (sampleTask 3 "pending"
          (Some [mkSubtask (Some 1) (Some "a") (Some "b") (Some "") (Some "pending");
                 mkSubtask (Some 2) (Some "c") (Some "d") (Some "e") (Some "done")]))
       2),
     sampleWorld
       [sampleTask 3 "pending"
          (Some [mkSubtask (Some 1) (Some "a") (Some "b") (Some "") (Some "pending");
                 mkSubtask (Some 2) (Some "c") (Some "d") (Some "e") (Some "done")])]).
Proof. vm_compute. reflexivity. Qed.

(** The merge takes the subtasks of an update as they come. *)
Example merge_keeps_generator_ids :
  mergedTasks [sampleTask 1 "pending" None]
              [sampleTask 1 "pending" (Some [sampleSubtask 5 "pending"])]
  = [sampleTask 1 "pending" (Some [sampleSubtask 5 "pending"])].
Proof. reflexivity. Qed.

(** C2, as stated, fails for the reconciliation merge: it does not
    renumber, even on a document whose subtask ids were all contiguous. *)
Lemma subtask_ids_contiguous_counterexample :
  ~ (forall existing updated,
       Forall task_contiguous existing ->
       Forall task_contiguous (mergedTasks existing updated)).
Proof.
  intros H.
  specialize (H [sampleTask 1 "pending" None]
                [sampleTask 1 "pending" (Some [sampleSubtask 5 "pending"])]).
  rewrite merge_keeps_generator_ids in H.
  assert (Hc : task_contiguous (sampleTask 1 "pending" (Some [sampleSubtask 5 "pending"]))).
  { eapply Forall_inv, H. by repeat constructor. }
  discriminate Hc.
Qed.

(** C2 (amended): single-task expansion and the multi-task subtask save
    number the subtasks they write [1..N], so a stored document in which
    every task has contiguous subtask ids keeps that property under both.
    The reconciliation merge does not renumber: a replaced task has the
    subtasks of its update as supplied, and the property is kept when the
    updates of the batch have it too. *)
Theorem subtask_ids_contiguous :
  (forall args env w data data',
     readJSON w = Some data -> Forall task_contiguous (tasks data) ->
     tasks_file (ExpandTask.expandTaskDirect args env w).2 = Some data' ->
     Forall task_contiguous (tasks data')) /\
  (forall args w data data',
     readJSON w = Some data -> Forall task_contiguous (tasks data) ->
     tasks_file (SaveMultipleTaskSubtasks.saveMultipleTaskSubtasksDirect args w).2
       = Some data' ->
     Forall task_contiguous (tasks data')) /\
  (forall existing updated,
     Forall task_contiguous existing -> Forall task_contiguous updated ->
     Forall task_contiguous (mergedTasks existing updated)).
Proof.
  split; [|split].
  - apply expandTaskDirect_contiguous.
  - apply saveMultiple_contiguous.
  - intros existing updated He Hu. apply Forall_forall. intros t Hin.
    rewrite Forall_forall in He, Hu.
    apply mergedTasks_elem_of in Hin as [Hin|Hin]; auto.
Qed.

Lemma subtask_ids_contiguous_witness :
  Forall task_contiguous
    [sampleTask 3 "pending"
       (Some [mkSubtask (Some 1) (Some "a") (Some "b") (Some "") (Some "pending");
              mkSubtask (Some 2) (Some "c") (Some "d") (Some "e") (Some "done")])] /\
  Forall task_contiguous
    [sampleTask 1 "pending" (Some [sampleSubtask 1 "pending"]);
     sampleTask 2 "pending" None] /\
  Forall task_contiguous
    (mergedTasks [sampleTask 1 "pending" None]
                 [sampleTask 1 "done" (Some [sampleSubtask 1 "done"])]).
Proof.
  split; [|split].
  - refine (proj1 subtask_ids_contiguous
              (ExpandTask.mkArgs "tasks.json" "3" "4" "" None) sampleEnv
              (sampleWorld [sampleTask 3 "pending" (Some [])])
              (mkDocument [sampleTask 3 "pending" (Some [])] "meta")
              (mkDocument _ "meta") eq_refl _ _).
    + repeat constructor.
    + vm_compute. reflexivity.
  - refine (proj1 (proj2 subtask_ids_contiguous)
              (SaveMultipleTaskSubtasks.mkArgs "tasks.json" "/p"
                 (Some [SaveMultipleTaskSubtasks.mkSubtaskUpdate (IdNum 1)
                          (Some [sampleSubtask 7 "pending"])]) false)
              (sampleWorld [sampleTask 1 "pending" None; sampleTask 2 "pending" None])
              (mkDocument [sampleTask 1 "pending" None; sampleTask 2 "pending" None] "meta")
              (mkDocument _ "meta") eq_refl _ _).
    + repeat constructor.
    + vm_compute. reflexivity.
  - refine (proj2 (proj2 subtask_ids_contiguous)
              [sampleTask 1 "pending" None]
              [sampleTask 1 "done" (Some [sampleSubtask 1 "done"])] _ _);
      repeat constructor.
Defined.
End NumberingClaims.

(** ** The target number of subtasks *)

Section TargetCount.
Import AiClientUtils.

Lemma scoreTarget_clamp score : scoreTarget score = clamp 3 10 (Qceiling (score / (3 # 2))).
Proof. reflexivity. Qed.

(** For the scores that reach it the clamp yields between 6 and 10. *)
Lemma scoreTarget_range score :
  Qle_bool 8 score = true -> 6 <= scoreTarget score <= 10.
Proof.
  intros H%Qle_bool_iff. unfold scoreTarget.
  assert (Hc : 6 <= Qceiling (score / (3 # 2))).
  { change 6 with (Qceiling (8 / (3 # 2))). apply Qceiling_resp_le.
    apply Qmult_le_compat_r; [done|]. by vm_compute. }
  lia.
Qed.

Example target_without_entry :
  targetNumSubtasks (sampleTask 4 "pending" None) None
    (Some (mkComplexityReport (Some [mkAnalysisEntry (IdNum 9) (IdNum 9) 9 "" None])))
  = of_Z 3.
Proof. reflexivity. Qed.

(** C6, as stated, fails: with a report at hand that has no entry for the
    task the target is 3, not the fallback 5. *)
Lemma target_count_resolution_counterexample :
  ~ (forall task requestedCount complexityReport,
       targetNumSubtasks task requestedCount complexityReport =
       spec_targetNumSubtasks task requestedCount complexityReport).
Proof.
  intros H.
  specialize (H (sampleTask 4 "pending" None) None
                (Some (mkComplexityReport
                         (Some [mkAnalysisEntry (IdNum 9) (IdNum 9) 9 "" None])))).
  discriminate H.
Qed.

(** C6 (amended): the target is the requested count when one is provided;
    else, when a complexity report with an analysis list is at hand,
    [clamp(ceil(score / 1.5), 3, 10)] if the first entry for the task's id
    has a score of 8 or more, and 3 otherwise, also when the list has no
    entry for the task; else, without a report or without its analysis
    list, the fallback 5. *)
Theorem target_count_resolution task complexityReport :
  (forall n, targetNumSubtasks task (Some n) complexityReport = n) /\
  (forall analysis entry,
     analysisOf complexityReport = Some analysis ->
     findAnalysis analysis task = Some entry ->
     targetNumSubtasks task None complexityReport =
       if Qle_bool 8 (a_complexityScore entry)
       then of_Z (clamp 3 10 (Qceiling (a_complexityScore entry / (3 # 2))))
       else of_Z 3) /\
  (forall analysis,
     analysisOf complexityReport = Some analysis ->
     findAnalysis analysis task = None ->
     targetNumSubtasks task None complexityReport = of_Z 3) /\
  (analysisOf complexityReport = None ->
     targetNumSubtasks task None complexityReport = of_Z 5).
Proof.
  unfold targetNumSubtasks. repeat split.
  - intros analysis entry -> ->. done.
  - by intros analysis -> ->.
  - by intros ->.
Qed.

Lemma target_count_resolution_witness :
  targetNumSubtasks (sampleTask 4 "pending" None) None
    (Some (mkComplexityReport
             (Some [mkAnalysisEntry (IdNum 4) (IdNum 4) 10 "" None])))
    = of_Z 7 /\
  targetNumSubtasks (sampleTask 4 "pending" None) None
    (Some (mkComplexityReport (Some []))) = of_Z 3 /\
  targetNumSubtasks (sampleTask 4 "pending" None) None None = of_Z 5.
Proof.
  split; [|split].
  - exact (proj1 (proj2 (target_count_resolution (sampleTask 4 "pending" None)
             (Some (mkComplexityReport
                      (Some [mkAnalysisEntry (IdNum 4) (IdNum 4) 10 "" None])))))
             _ _ eq_refl eq_refl).
  - exact (proj1 (proj2 (proj2 (target_count_resolution (sampleTask 4 "pending" None)
             (Some (mkComplexityReport (Some []))))))
             _ eq_refl eq_refl).
  - exact (proj2 (proj2 (proj2 (target_count_resolution (sampleTask 4 "pending" None)
             None))) eq_refl).
Defined.
End TargetCount.

(** ** The range filter of the update tool *)

Section RangeFilter.
Import UpdateTool.

(** What the filter selects: the tasks whose id parses to a number that is
    at least the parsed [from], and whose status is not ['done']. *)
Lemma selected_spec from task :
  selected from task = true <->
  isNaN (parseFloat (ToString (task_id task))) = false /\
  ge (parseFloat (ToString (task_id task))) (parseFloat from) = true /\
  task_status task <> "done".
Proof.
  unfold selected. rewrite !andb_true_iff, !negb_true_iff, String.eqb_neq. tauto.
Qed.

(** A task whose id is not numeric is left out, whatever [from] is. *)
Lemma non_numeric_id_excluded from task :
  parseFloat (ToString (task_id task)) = NaN -> selected from task = false.
Proof. unfold selected. by intros ->. Qed.

Example filter_skips_non_numeric_ids :
  tasksToUpdateContext "2"
    [sampleTask 1 "pending" None;
     mkTask (IdStr "abc") "" "" "" "" "pending" [] "" None;
     mkTask (IdStr "2.5") "" "" "" "" "pending" [] "" None;
     sampleTask 3 "done" None; sampleTask 4 "in-progress" None]
  = [mkTask (IdStr "2.5") "" "" "" "" "pending" [] "" None;
     sampleTask 4 "in-progress" None].
Proof. reflexivity. Qed.

(** Where the filter and the specification agree: everywhere except on
    the status ['completed']. *)
Lemma selected_agrees from task :
  task_status task <> "completed" ->
  selected from task = spec_selected from task.
Proof.
  intros H%String.eqb_neq. unfold selected, spec_selected.
  by rewrite H, orb_false_r.
Qed.

(** C9 (code bug): a task whose status is ['completed'] passes the range
    filter, which only leaves out ['done']. *)
Theorem range_filter_selects_completed :
  tasksToUpdateContext "1" [sampleTask 2 "completed" None]
    = [sampleTask 2 "completed" None] /\
  List.filter (spec_selected "1") [sampleTask 2 "completed" None] = [].
Proof. split; reflexivity. Qed.
End RangeFilter.

(** ** The batch expansion tool *)

Section ExpandAllRev1Facts.
Import ExpandAllRev1.
Context (gen : Task -> string -> string -> option bool -> string * string)
        (parse : string -> option (list Subtask))
        (save : list Update -> option bool -> World ->
                Envelope SaveMultipleTaskSubtasks.Data * World)
        (sample : option (string -> string -> SamplingOutcome)).

(** The loop visits every eligible task: what it collects are the updates
    of all the tasks whose generation succeeded, in order, wherever the
    failures are. *)
Lemma rev1_loop_all args tasksToExpand acc :
  loop gen parse sample args tasksToExpand acc
    = acc ++ omap (body gen parse sample args) tasksToExpand.
Proof.
  revert acc. induction tasksToExpand as [|t l IH]; intros acc; simpl.
  - by rewrite app_nil_r.
  - destruct (body gen parse sample args t) as [u|]; rewrite IH; [|done].
    by rewrite <- app_assoc.
Qed.

(** No eligible task, or none that could be expanded: a success envelope
    with a message, and nothing written. *)
Lemma rev1_nothing_to_do args w data :
  rootFolder args <> "" -> readJSON w = Some data ->
  (forall t, t ∈ List.filter (eligible (force args)) (tasks data) ->
             body gen parse sample args t = None) ->
  exists m, execute gen parse save sample args w
            = (handleApiResult (Success (Message m)), w).
Proof.
  intros Hroot%String.eqb_neq Hr Hfail. unfold execute. rewrite Hroot, Hr.
  destruct (List.filter _ (tasks data)) as [|t l] eqn:Hf; [by eexists|].
  rewrite rev1_loop_all, app_nil_l.
  assert (Hnone : omap (body gen parse sample args) (t :: l) = []).
  { rewrite <- Hf in *. clear Hf.
    induction (List.filter _ (tasks data)) as [|x xs IH]; [done|].
    simpl. rewrite (Hfail x) by left. apply IH. intros y Hy. apply Hfail. by right. }
  rewrite Hnone. by eexists.
Qed.

(** A failure in the middle of the batch does not keep the later tasks
    from being expanded. *)
Lemma rev1_failure_does_not_abort args before t after :
  body gen parse sample args t = None ->
  loop gen parse sample args (before ++ t :: after) []
    = loop gen parse sample args (before ++ after) [].
Proof.
  intros Hfail. rewrite !rev1_loop_all, !app_nil_l, !omap_app. simpl.
  by rewrite Hfail.
Qed.
End ExpandAllRev1Facts.

Section ExpandAllRev2Facts.
Import ExpandAllRev2.

(** With the identifier bound the loop visits every eligible task: each
    one ends in a pushed result or in a counted failure, and the results
    are those of the tasks whose generation succeeded, in order. *)
Lemma rev2_loop_all env args report tasksToExpand results failedCount :
  complexityReport env = Some report ->
  exists pushed nfailed,
    loop env args tasksToExpand results failedCount
      = Normal (results ++ pushed, (failedCount + nfailed)%nat) /\
    pushed = omap (fun t => match body env args t with
                            | Push u => Some u
                            | _ => None
                            end) tasksToExpand /\
    (length pushed + nfailed)%nat = length tasksToExpand.
Proof.
  intros Hb. revert results failedCount.
  induction tasksToExpand as [|t l IH]; intros results failedCount; simpl.
  - exists [], 0%nat. by rewrite app_nil_r, Nat.add_0_r.
  - assert (Hnt : forall msg, body env args t <> Throws msg).
    { intros msg. unfold body. rewrite Hb.
      destruct (sample env) as [f|]; [|done].
      destruct (f _) as [|text]; [done|].
      destruct (String.eqb text ""); [done|].
      by destruct (AiClientUtils.parseSubtasksFromText _ _). }
    destruct (body env args t) as [u| |msg] eqn:Hbody.
    + destruct (IH (results ++ [u]) failedCount) as (pushed & n & -> & -> & Hlen).
      exists (u :: omap (fun t => match body env args t with
                                  | Push u => Some u | _ => None end) l), n.
      rewrite <- app_assoc. simpl. by rewrite Hlen.
    + destruct (IH results (S failedCount)) as (pushed & n & -> & -> & Hlen).
      exists (omap (fun t => match body env args t with
                             | Push u => Some u | _ => None end) l), (S n).
      replace (failedCount + S n)%nat with (S failedCount + n)%nat by lia.
      by rewrite <- Hlen, Nat.add_succ_r.
    + by destruct (Hnt msg).
Qed.

(** With the identifier bound: no eligible task, or none whose generation
    succeeded, gives a success envelope with a message, and no write. *)
Lemma rev2_nothing_to_do env args w data report :
  complexityReport env = Some report ->
  rootFolder args <> "" -> readJSON w = Some data ->
  (forall t, t ∈ List.filter (eligible (force args)) (tasks data) ->
             body env args t = Failed) ->
  exists m, execute env args w = (handleApiResult (Success (Message m)), w).
Proof.
  intros Hb Hroot%String.eqb_neq Hr Hfail. unfold execute. rewrite Hroot, Hr.
  destruct (List.filter _ (tasks data)) as [|t l] eqn:Hf; [by eexists|].
  destruct (rev2_loop_all env args report (t :: l) [] 0 Hb)
    as (pushed & n & -> & Hp & _).
  assert (Hnone : pushed = []).
  { subst pushed. rewrite <- Hf in *. clear Hf.
    induction (List.filter _ (tasks data)) as [|x xs IH]; [done|].
    simpl. rewrite (Hfail x) by left. apply IH. intros y Hy. apply Hfail. by right. }
  rewrite Hnone. simpl. by eexists.
Qed.

(** Without an eligible task the identifier is never read. *)
Lemma rev2_no_eligible_task env args w data :
  rootFolder args <> "" -> readJSON w = Some data ->
  List.filter (eligible (force args)) (tasks data) = [] ->
  execute env args w =
    (handleApiResult
       (Success (Message "No pending tasks eligible for expansion found.")), w).
Proof.
  intros Hroot%String.eqb_neq Hr Hf. unfold execute. by rewrite Hroot, Hr, Hf.
Qed.

(** As the module stands the identifier is unbound, and the first
    eligible task ends the whole call with an error response. *)
Lemma rev2_unbound_aborts env args w data t rest :
  complexityReport env = module_binding ->
  rootFolder args <> "" -> readJSON w = Some data ->
  List.filter (eligible (force args)) (tasks data) = t :: rest ->
  execute env args w =
    (createErrorResponse
       "Internal server error during expand all tasks: complexityReport is not defined", w).
Proof.
  intros Hb Hroot%String.eqb_neq Hr Hf. unfold execute.
  rewrite Hroot, Hr, Hf. simpl. unfold body. by rewrite Hb.
Qed.

(** Three eligible tasks, the generator fails for the second: with the
    identifier bound the other two are expanded and saved. *)
Example rev2_bound_batch_resilience :
  execute (sampleHost 2 (Some None)) sampleExpandAllArgs
    (sampleWorld [sampleTask 1 "pending" None; sampleTask 2 "pending" None;
                  sampleTask 3 "pending" None])
  = (handleApiResult (Success (Saved (SaveMultipleTaskSubtasks.mkData
       "Successfully saved subtask updates for 2 tasks. Skipped 0." 2 0))),
     sampleWorld
       [sampleTask 1 "pending"
          (Some [mkSubtask (Some 1) (Some "a") (Some "b") (Some "") None;
                 mkSubtask (Some 2) (Some "c") (Some "d") (Some "e") (Some "done")]);
        sampleTask 2 "pending" None;
        sampleTask 3 "pending"
          (Some [mkSubtask (Some 1) (Some "a") (Some "b") (Some "") None;
                 mkSubtask (Some 2) (Some "c") (Some "d") (Some "e") (Some "done")])]).
Proof. vm_compute. reflexivity. Qed.

(** C7 (code bug): in tools/expand-all.js the loop body reads the
    undeclared identifier [complexityReport]; with one or more eligible
    tasks the call ends in an error response before any task is
    processed, whether or not the generator would have failed. *)
Theorem expand_all_aborts_before_first_task :
  execute (sampleHost 2 module_binding) sampleExpandAllArgs
    (sampleWorld [sampleTask 1 "pending" None; sampleTask 2 "pending" None;
                  sampleTask 3 "pending" None])
  = (createErrorResponse
       "Internal server error during expand all tasks: complexityReport is not defined",
     sampleWorld [sampleTask 1 "pending" None; sampleTask 2 "pending" None;
                  sampleTask 3 "pending" None]) /\
  execute (sampleHost 1 module_binding) sampleExpandAllArgs
    (sampleWorld [sampleTask 1 "pending" None])
  = (createErrorResponse
       "Internal server error during expand all tasks: complexityReport is not defined",
     sampleWorld [sampleTask 1 "pending" None]).
Proof. split; reflexivity. Qed.
End ExpandAllRev2Facts.

(** * Further properties of the code *)

(** ** Scanning a completion for its JSON array *)

Section ScanFacts.
Import AiClientUtils.

Lemma append_cons c a b : String c a +:+ b = String c (a +:+ b).
Proof. reflexivity. Qed.

Lemma append_nil_l b : "" +:+ b = b.
Proof. reflexivity. Qed.

Lemma append_nil_r a : a +:+ "" = a.
Proof. induction a as [|c a IH]; [done|]. by rewrite append_cons, IH. Qed.

Lemma length_append a b :
  String.length (a +:+ b) = (String.length a + String.length b)%nat.
Proof.
  induction a as [|c a IH]; [done|]. rewrite append_cons. simpl. by rewrite IH.
Qed.

Lemma append_assoc a b c : (a +:+ b) +:+ c = a +:+ (b +:+ c).
Proof.
  induction a as [|x a IH]; [done|]. by rewrite !append_cons, IH.
Qed.

Lemma indexOf_from_None c s i j :
  indexOf_from c s i = None -> indexOf_from c s j = None.
Proof.
  revert i j. induction s as [|c' s IH]; intros i j; simpl; [done|].
  destruct (Ascii.eqb c c'); [done|]. apply IH.
Qed.

Lemma indexOf_from_app c pre s i :
  indexOf c pre = None ->
  indexOf_from c (pre +:+ s) i = indexOf_from c s (i + String.length pre).
Proof.
  unfold indexOf. revert i. induction pre as [|c' pre IH]; intros i.
  - intros _. rewrite append_nil_l. simpl. by rewrite Nat.add_0_r.
  - rewrite append_cons. simpl. destruct (Ascii.eqb c c'); [done|]. intros H.
    rewrite IH by (by eapply indexOf_from_None).
    f_equal. lia.
Qed.

Lemma lastIndexOf_from_absent c s i found :
  indexOf c s = None -> lastIndexOf_from c s i found = found.
Proof.
  unfold indexOf. revert i found.
  induction s as [|c' s IH]; intros i found; simpl; [done|].
  destruct (Ascii.eqb c c'); [done|]. intros H.
  apply IH. by eapply indexOf_from_None.
Qed.

Lemma lastIndexOf_from_app c x s i found :
  lastIndexOf_from c (x +:+ s) i found =
  lastIndexOf_from c s (i + String.length x) (lastIndexOf_from c x i found).
Proof.
  revert i found. induction x as [|c' x IH]; intros i found.
  - rewrite append_nil_l. simpl. by rewrite Nat.add_0_r.
  - rewrite append_cons. simpl. rewrite IH. f_equal. lia.
Qed.

Lemma substring_app_skip pre s m :
  String.substring (String.length pre) m (pre +:+ s) = String.substring 0 m s.
Proof.
  induction pre as [|c pre IH]; [done|]. rewrite append_cons. simpl. apply IH.
Qed.

Lemma substring_prefix b post :
  String.substring 0 (String.length b) (b +:+ post) = b.
Proof.
  induction b as [|c b IH].
  - rewrite append_nil_l. by destruct post.
  - rewrite append_cons. simpl. by rewrite IH.
Qed.

(** The text handed to [JSON.parse] runs from the first opening bracket to
    the last closing bracket. *)
Lemma parseSubtasksFromText_extract JSON_parse pre mid post :
  indexOf "[" pre = None -> indexOf "]" post = None ->
  parseSubtasksFromText JSON_parse (pre +:+ String "[" (mid +:+ String "]" post))
    = checkParsed (JSON_parse (String "[" (mid +:+ "]"))).
Proof.
  intros Hpre Hpost. unfold parseSubtasksFromText.
  assert (Hstart : indexOf "[" (pre +:+ String "[" (mid +:+ String "]" post))
                   = Some (String.length pre)).
  { unfold indexOf at 1. rewrite indexOf_from_app by done. simpl. done. }
  assert (Hend : lastIndexOf "]" (pre +:+ String "[" (mid +:+ String "]" post))
                 = Some (String.length pre + S (String.length mid))%nat).
  { unfold lastIndexOf.
    replace (pre +:+ String "[" (mid +:+ String "]" post))
      with ((pre +:+ String "[" mid) +:+ String "]" post)
      by (by rewrite append_assoc, append_cons).
    rewrite lastIndexOf_from_app. simpl.
    rewrite lastIndexOf_from_absent by done.
    rewrite length_append. simpl. done. }
  rewrite Hstart, Hend.
  destruct (_ <? _)%nat eqn:Hlt; [apply Nat.ltb_lt in Hlt; lia|].
  rewrite substring_app_skip.
  replace (String.length pre + S (String.length mid) + 1 - String.length pre)%nat
    with (String.length (String "[" (mid +:+ "]"))).
  2: { simpl. rewrite length_append. simpl. lia. }
  replace (String "[" (mid +:+ String "]" post))
    with (String "[" (mid +:+ "]") +:+ post)
    by (by rewrite append_cons, append_assoc).
  rewrite substring_prefix. unfold checkParsed.
  destruct (JSON_parse _) as [[|[o|] rest]|]; done.
Qed.

(** X1: whatever surrounds the array in a completion is ignored, as long
    as the text before it has no opening bracket and the text after it no
    closing bracket. *)
Theorem parseSubtasksFromText_ignores_surroundings JSON_parse pre mid post :
  indexOf "[" pre = None -> indexOf "]" post = None ->
  parseSubtasksFromText JSON_parse (pre +:+ "[" +:+ mid +:+ "]" +:+ post)
    = parseSubtasksFromText JSON_parse ("[" +:+ mid +:+ "]").
Proof.
  intros Hpre Hpost.
  change (pre +:+ "[" +:+ mid +:+ "]" +:+ post)
    with (pre +:+ String "[" (mid +:+ String "]" post)).
  rewrite parseSubtasksFromText_extract by done.
  pose proof (parseSubtasksFromText_extract JSON_parse "" mid "" eq_refl eq_refl) as H.
  rewrite append_nil_l in H. by rewrite <- H.
Qed.

Lemma parseSubtasksFromText_ignores_surroundings_witness :
  parseSubtasksFromText (ExpandTask.JSON_parse sampleEnv)
    ("Here are the subtasks: " +:+ "[" +:+ "two" +:+ "]" +:+ " Let me know.")
  = parseSubtasksFromText (ExpandTask.JSON_parse sampleEnv) ("[" +:+ "two" +:+ "]").
Proof.
  exact (parseSubtasksFromText_ignores_surroundings (ExpandTask.JSON_parse sampleEnv)
           "Here are the subtasks: " "two" " Let me know." eq_refl eq_refl).
Defined.
End ScanFacts.

Section ParseResult.
Import AiClientUtils.

Lemma ensureDetails_objects parsed subs :
  ensureDetails parsed = Some subs ->
  exists objs, parsed = JObject <$> objs /\ subs = withDetails <$> objs.
Proof.
  revert subs. induction parsed as [|[o|] rest IH]; intros subs; simpl.
  - intros [= <-]. by exists [].
  - destruct (ensureDetails rest) as [rest'|]; [|done].
    intros [= <-]. destruct (IH rest' eq_refl) as (objs & -> & ->).
    by exists (o :: objs).
  - done.
Qed.

(** X2: when [parseSubtasksFromText] returns subtasks, every element of
    the parsed array was an object, the result has those objects in order,
    each with its [details] defaulted to the empty string, and the first
    has a title and a description; one element that is not an object, or a
    first element without them, makes the whole completion unusable. *)
Theorem parseSubtasksFromText_result JSON_parse text subs :
  parseSubtasksFromText JSON_parse text = Some subs ->
  exists json objs,
    JSON_parse json = Some (JObject <$> objs) /\
    subs = withDetails <$> objs /\
    Forall (fun s => is_Some (st_details s)) subs /\
    match objs with
    | o :: _ => is_Some (st_title o) /\ is_Some (st_description o)
    | [] => True
    end.
Proof.
  unfold parseSubtasksFromText.
  destruct (indexOf "[" text) as [jsonStart|]; [|done].
  destruct (lastIndexOf "]" text) as [jsonEnd|]; [|done].
  destruct (_ <? _)%nat; [done|].
  destruct (JSON_parse _) as [parsed|] eqn:Hparse; [|done].
  assert (Hdetails : forall objs, Forall (fun s => is_Some (st_details s))
                                         (withDetails <$> objs)).
  { intros objs. apply Forall_fmap, Forall_true. intros o. by eexists. }
  destruct parsed as [|[o|] rest].
  - intros [= <-]. eexists _, []. by rewrite Hparse.
  - destruct (st_title o) as [ti|] eqn:Ht; [|done].
    destruct (st_description o) as [de|] eqn:Hd; [|done].
    intros (objs & Hobjs & ->)%ensureDetails_objects.
    eexists _, objs. rewrite Hparse, Hobjs. repeat split; [apply Hdetails|].
    destruct objs as [|o' objs]; [done|]. injection Hobjs as <- _.
    rewrite Ht, Hd. by split; eexists.
  - done.
Qed.

Lemma parseSubtasksFromText_result_witness :
  exists json objs,
    ExpandTask.JSON_parse sampleEnv json = Some (JObject <$> objs) /\
    [mkSubtask None (Some "a") (Some "b") (Some "") None;
     mkSubtask (Some 9) (Some "c") (Some "d") (Some "e") (Some "done")]
      = withDetails <$> objs /\
    Forall (fun s => is_Some (st_details s))
      [mkSubtask None (Some "a") (Some "b") (Some "") None;
       mkSubtask (Some 9) (Some "c") (Some "d") (Some "e") (Some "done")] /\
    match objs with
    | o :: _ => is_Some (st_title o) /\ is_Some (st_description o)
    | [] => True
    end.
Proof.
  exact (parseSubtasksFromText_result (ExpandTask.JSON_parse sampleEnv) "x [two] y"
           _ eq_refl).
Defined.
End ParseResult.

(** ** More on the expansion of one task *)

Section ExpandFacts.
Import ExpandTask.

Lemma findIndex_None {A} (f : A -> bool) l :
  findIndex f l = None <-> forall x, x ∈ l -> f x = false.
Proof.
  induction l as [|x l IH]; simpl.
  - split; [by intros _ y ?%elem_of_nil|done].
  - destruct (f x) eqn:Hx.
    + split; [done|]. intros H. by rewrite (H x) in Hx by left.
    + destruct (findIndex f l); simpl.
      * split; [done|]. intros H.
        assert (Hn : Some n = None); [|done].
        apply IH. intros y Hy. apply H. by right.
      * split; [|done]. intros _ y [->|Hy]%elem_of_cons; [done|]. by apply IH.
Qed.

Lemma length_assignIds next l : length (assignIds next l) = length l.
Proof. apply length_imap. Qed.

(** Once the task is found, open and due for generation, and the
    generator has delivered a parseable completion, the document is
    written, whatever happens next. *)
Lemma expandTaskDirect_generated args env w taskId sampling data taskIndex task
    text parsed :
  tasksJsonPath args <> "" ->
  id args <> "" -> parseInt (id args) = Some taskId -> taskId <> 0 ->
  requestSampling env = Some sampling ->
  readJSON w = Some data ->
  findIndex (fun t => strict_eq_number (task_id t) taskId) (tasks data) = Some taskIndex ->
  tasks data !! taskIndex = Some task ->
  isCompleted task = false ->
  hasExistingSubtasks task = false \/ force args = Some true ->
  (forall p, sampling p = Resolved text) -> text <> "" ->
  AiClientUtils.parseSubtasksFromText (JSON_parse env) text = Some parsed ->
  expandTaskDirect args env w =
    let task' := set_subtasks (assignIds 1 parsed) task in
    let data' := with_tasks data (<[taskIndex := task']> (tasks data)) in
    (if generateTaskFiles env data'
     then Success (mkData None task' (length parsed))
     else fail "EXPAND_TASK_SAMPLING_ERROR"
                "Unknown error during task expansion via sampling",
     writeJSON data' w).
Proof.
  intros Hpath Hid Hparse Hnz Hs Hr Hfind Hlook Hnc Hdue Hsample Htext Hp.
  unfold expandTaskDirect.
  rewrite (eqb_empty_false _ Hpath), (eqb_empty_false _ Hid), Hparse.
  assert (Hskip : hasExistingSubtasks task
                  && negb (match force args with Some true => true | _ => false end)
                  = false).
  { destruct Hdue as [-> | ->]; [done|]. simpl. apply andb_false_r. }
  destruct taskId as [|p|p]; [done| |];
    rewrite Hs, Hr, Hfind, Hlook, Hnc, Hskip; cbv zeta;
    rewrite Hsample, (eqb_empty_false _ Htext), Hp,
      (nextSubtaskId_start _ _ Hskip), set_subtasks_cleared, length_assignIds;
    by destruct (generateTaskFiles env _).
Qed.

(** X3: a first or forced expansion that succeeds stores exactly the
    generated subtasks, numbered from 1, on the target task; every other
    task, and every other field of the target, is as before.  Subtasks the
    task had, completed ones included, are not kept. *)
Theorem expand_replaces_subtasks args env w taskId sampling data taskIndex task
    text parsed :
  tasksJsonPath args <> "" ->
  id args <> "" -> parseInt (id args) = Some taskId -> taskId <> 0 ->
  requestSampling env = Some sampling ->
  readJSON w = Some data ->
  findIndex (fun t => strict_eq_number (task_id t) taskId) (tasks data) = Some taskIndex ->
  tasks data !! taskIndex = Some task ->
  isCompleted task = false ->
  hasExistingSubtasks task = false \/ force args = Some true ->
  (forall p, sampling p = Resolved text) -> text <> "" ->
  AiClientUtils.parseSubtasksFromText (JSON_parse env) text = Some parsed ->
  (forall d, generateTaskFiles env d = true) ->
  exists data',
    expandTaskDirect args env w =
      (Success (mkData None (set_subtasks (assignIds 1 parsed) task) (length parsed)),
       mkWorld (Some data') (report_file w)) /\
    metadata data' = metadata data /\
    length (tasks data') = length (tasks data) /\
    tasks data' !! taskIndex = Some (set_subtasks (assignIds 1 parsed) task) /\
    (forall j, j <> taskIndex -> tasks data' !! j = tasks data !! j).
Proof.
  intros Hpath Hid Hparse Hnz Hs Hr Hfind Hlook Hnc Hdue Hsample Htext Hp Hgen.
  rewrite (expandTaskDirect_generated args env w taskId sampling data taskIndex task
             text parsed) by done.
  simpl. rewrite Hgen. eexists. split; [reflexivity|]. simpl.
  split; [done|]. split; [apply length_insert|]. split.
  - apply list_lookup_insert_eq. by eapply lookup_lt_Some.
  - intros j Hj. by apply list_lookup_insert_ne.
Qed.

Lemma expand_replaces_subtasks_witness :
  exists data',
    expandTaskDirect (mkArgs "tasks.json" "2" "" "" (Some true)) sampleEnv
      (sampleWorld [sampleTask 1 "pending" None;
                    sampleTask 2 "pending" (Some [sampleSubtask 1 "done"])]) =
      (Success (mkData None
         (set_subtasks
            (assignIds 1 [mkSubtask None (Some "a") (Some "b") (Some "") None;
                          mkSubtask (Some 9) (Some "c") (Some "d") (Some "e") (Some "done")])
            (sampleTask 2 "pending" (Some [sampleSubtask 1 "done"]))) 2),
       mkWorld (Some data') None) /\
    metadata data' = "meta" /\
    length (tasks data') = 2%nat /\
    tasks data' !! 1%nat =
      Some (set_subtasks
              (assignIds 1 [mkSubtask None (Some "a") (Some "b") (Some "") None;
                            mkSubtask (Some 9) (Some "c") (Some "d") (Some "e") (Some "done")])
              (sampleTask 2 "pending" (Some [sampleSubtask 1 "done"]))) /\
    (forall j, j <> 1%nat ->
       tasks data' !! j =
       [sampleTask 1 "pending" None;
        sampleTask 2 "pending" (Some [sampleSubtask 1 "done"])] !! j).
Proof.
  refine (expand_replaces_subtasks
            (mkArgs "tasks.json" "2" "" "" (Some true)) sampleEnv
            (sampleWorld [sampleTask 1 "pending" None;
                          sampleTask 2 "pending" (Some [sampleSubtask 1 "done"])])
            2 (fun _ => Resolved "[two]")
            (mkDocument [sampleTask 1 "pending" None;
                         sampleTask 2 "pending" (Some [sampleSubtask 1 "done"])] "meta")
            1%nat (sampleTask 2 "pending" (Some [sampleSubtask 1 "done"]))
            "[two]" _
            _ _ eq_refl _ eq_refl eq_refl eq_refl eq_refl eq_refl
            (or_intror eq_refl) (fun _ => eq_refl) _ eq_refl (fun _ => eq_refl));
    discriminate.
Defined.
End ExpandFacts.

Section ExpandEdges.
Import ExpandTask.

(** X4: when regenerating the task files fails, the call reports an error
    although the document has already been written with the new
    subtasks. *)
Theorem expand_error_after_write args env w taskId sampling data taskIndex task
    text parsed :
  tasksJsonPath args <> "" ->
  id args <> "" -> parseInt (id args) = Some taskId -> taskId <> 0 ->
  requestSampling env = Some sampling ->
  readJSON w = Some data ->
  findIndex (fun t => strict_eq_number (task_id t) taskId) (tasks data) = Some taskIndex ->
  tasks data !! taskIndex = Some task ->
  isCompleted task = false ->
  hasExistingSubtasks task = false \/ force args = Some true ->
  (forall p, sampling p = Resolved text) -> text <> "" ->
  AiClientUtils.parseSubtasksFromText (JSON_parse env) text = Some parsed ->
  generateTaskFiles env
    (with_tasks data
       (<[taskIndex := set_subtasks (assignIds 1 parsed) task]> (tasks data))) = false ->
  exists e,
    expandTaskDirect args env w =
      (Failure e,
       writeJSON (with_tasks data
                    (<[taskIndex := set_subtasks (assignIds 1 parsed) task]>
                       (tasks data))) w) /\
    code e = "EXPAND_TASK_SAMPLING_ERROR".
Proof.
  intros Hpath Hid Hparse Hnz Hs Hr Hfind Hlook Hnc Hdue Hsample Htext Hp Hgen.
  rewrite (expandTaskDirect_generated args env w taskId sampling data taskIndex task
             text parsed) by done.
  simpl. rewrite Hgen. by eexists.
Qed.

Lemma expand_error_after_write_witness :
  exists e,
    expandTaskDirect (mkArgs "tasks.json" "1" "" "" None) sampleEnvNoFiles
      (sampleWorld [sampleTask 1 "pending" None]) =
      (Failure e,
       writeJSON
         (with_tasks (mkDocument [sampleTask 1 "pending" None] "meta")
            (<[0%nat := set_subtasks
                 (assignIds 1
                    [mkSubtask None (Some "a") (Some "b") (Some "") None;
                     mkSubtask (Some 9) (Some "c") (Some "d") (Some "e") (Some "done")])
                 (sampleTask 1 "pending" None)]>
               [sampleTask 1 "pending" None]))
         (sampleWorld [sampleTask 1 "pending" None])) /\
    code e = "EXPAND_TASK_SAMPLING_ERROR".
Proof.
  refine (expand_error_after_write
            (mkArgs "tasks.json" "1" "" "" None) sampleEnvNoFiles
            (sampleWorld [sampleTask 1 "pending" None])
            1 (fun _ => Resolved "[two]")
            (mkDocument [sampleTask 1 "pending" None] "meta")
            0%nat (sampleTask 1 "pending" None) "[two]" _
            _ _ eq_refl _ eq_refl eq_refl eq_refl eq_refl eq_refl
            (or_introl eq_refl) (fun _ => eq_refl) _ eq_refl eq_refl);
    discriminate.
Defined.

(** X5: as long as the task files can be regenerated, an error envelope
    means that nothing was written.  In particular a forced expansion
    whose generation fails leaves the subtasks it was about to replace in
    the document: they are cleared in memory only. *)
Theorem expand_failure_writes_nothing args env w e :
  (forall d, generateTaskFiles env d = true) ->
  (expandTaskDirect args env w).1 = Failure e ->
  (expandTaskDirect args env w).2 = w.
Proof.
  intros Hgen. unfold expandTaskDirect.
  destruct (String.eqb (tasksJsonPath args) ""); [done|].
  destruct (if String.eqb (id args) "" then None else parseInt (id args))
    as [[|p|p]|]; try done.
  all: destruct (requestSampling env) as [sampling|]; [|done].
  all: destruct (readJSON w) as [data|]; [|done].
  all: destruct (findIndex _ (tasks data)) as [taskIndex|]; [|done].
  all: destruct (tasks data !! taskIndex) as [task|]; [|done].
  all: destruct (isCompleted task); [done|].
  all: destruct (hasExistingSubtasks task && negb _); [done|].
  all: cbv zeta.
  all: destruct (sampling _) as [msg|text]; [done|].
  all: destruct (String.eqb text ""); [done|].
  all: destruct (AiClientUtils.parseSubtasksFromText _ text) as [parsed|]; [|done].
  all: by rewrite Hgen.
Qed.

Lemma expand_failure_writes_nothing_witness :
  (expandTaskDirect (mkArgs "tasks.json" "1" "" "" (Some true)) sampleEnvRejecting
     (sampleWorld [sampleTask 1 "pending" (Some [sampleSubtask 1 "done"])])).2
  = sampleWorld [sampleTask 1 "pending" (Some [sampleSubtask 1 "done"])].
Proof.
  exact (expand_failure_writes_nothing
           (mkArgs "tasks.json" "1" "" "" (Some true)) sampleEnvRejecting
           (sampleWorld [sampleTask 1 "pending" (Some [sampleSubtask 1 "done"])])
           (mkError "EXPAND_TASK_SAMPLING_ERROR"
                    "Failed to get completion via sampling: overloaded")
           (fun _ => eq_refl) eq_refl).
Defined.

(** X6: the task is looked up by strict equality with the parsed number:
    when no task has that number as its id the call ends in
    TASK_NOT_FOUND and writes nothing, which is the fate of every task
    whose id is stored as a string. *)
Theorem expand_unknown_id args env w taskId sampling data :
  tasksJsonPath args <> "" ->
  id args <> "" -> parseInt (id args) = Some taskId -> taskId <> 0 ->
  requestSampling env = Some sampling ->
  readJSON w = Some data ->
  (forall t, t ∈ tasks data -> task_id t <> IdNum taskId) ->
  expandTaskDirect args env w =
    (Failure (mkError "TASK_NOT_FOUND"
                ("Task with ID " +:+ pretty taskId +:+ " not found")), w).
Proof.
  intros Hpath Hid Hparse Hnz Hs Hr Hnone.
  unfold expandTaskDirect.
  rewrite (eqb_empty_false _ Hpath), (eqb_empty_false _ Hid), Hparse.
  assert (Hfind : findIndex (fun t => strict_eq_number (task_id t) taskId) (tasks data)
                  = None).
  { apply findIndex_None. intros t Ht. specialize (Hnone t Ht).
    unfold strict_eq_number. destruct (task_id t) as [n|s]; [|done].
    apply Z.eqb_neq. congruence. }
  destruct taskId as [|p|p]; [done| |]; by rewrite Hs, Hr, Hfind.
Qed.

Lemma expand_unknown_id_witness :
  expandTaskDirect (mkArgs "tasks.json" "5" "" "" None) sampleEnv
    (sampleWorld [mkTask (IdStr "5") "" "" "" "" "pending" [] "" None])
  = (Failure (mkError "TASK_NOT_FOUND" "Task with ID 5 not found"),
     sampleWorld [mkTask (IdStr "5") "" "" "" "" "pending" [] "" None]).
Proof.
  refine (expand_unknown_id (mkArgs "tasks.json" "5" "" "" None) sampleEnv
            (sampleWorld [mkTask (IdStr "5") "" "" "" "" "pending" [] "" None])
            5 (fun _ => Resolved "[two]")
            (mkDocument [mkTask (IdStr "5") "" "" "" "" "pending" [] "" None] "meta")
            _ _ eq_refl _ eq_refl eq_refl _); try discriminate.
  intros t ->%list_elem_of_singleton. discriminate.
Defined.
End ExpandEdges.

(** ** More on the multi-task subtask save *)

Section SaveMultipleFacts.
Import SaveMultipleTaskSubtasks.

Lemma taskMap_snoc existing x :
  taskMap (existing ++ [x]) =
  <[ToString (task_id x) := length existing]> (taskMap existing).
Proof.
  unfold taskMap. rewrite imap_app, foldl_app. simpl.
  by rewrite Nat.add_0_r.
Qed.

(** The index under a key is the slot of a task with that key. *)
Lemma taskMap_lookup existing k i :
  taskMap existing !! k = Some i ->
  exists t, existing !! i = Some t /\ ToString (task_id t) = k.
Proof.
  induction existing as [|x l IH] using rev_ind; [done|].
  rewrite taskMap_snoc, lookup_insert.
  case_decide as Hk.
  - intros [= <-]. exists x. split; [|done].
    by rewrite lookup_app_r, Nat.sub_diag.
  - intros (t & Hl & Ht)%IH. exists t. split; [|done].
    by apply lookup_app_l_Some.
Qed.

Lemma set_subtasks_id subs t : task_id (set_subtasks subs t) = task_id t.
Proof. done. Qed.

Lemma step_length tm forceFlag ts c update ts' c' :
  step tm forceFlag (ts, c) update = Some (ts', c') -> length ts' = length ts.
Proof.
  unfold step.
  destruct (tm !! _) as [idx|]; [|by intros [= <- _]].
  destruct (ts !! idx) as [parentTask|]; [|done].
  destruct (has_subtasks parentTask && negb forceFlag); [by intros [= <- _]|].
  destruct (su_subtasks update) as [subs|]; [|done].
  intros [= <- _]. apply length_insert.
Qed.

(** A step leaves every slot alone except the one its update is aimed at. *)
Lemma step_other tm forceFlag ts c update ts' c' i :
  step tm forceFlag (ts, c) update = Some (ts', c') ->
  tm !! ToString (su_taskId update) <> Some i ->
  ts' !! i = ts !! i.
Proof.
  unfold step.
  destruct (tm !! _) as [idx|]; [|by intros [= <- _]].
  destruct (ts !! idx) as [parentTask|]; [|done].
  destruct (has_subtasks parentTask && negb forceFlag); [by intros [= <- _]|].
  destruct (su_subtasks update) as [subs|]; [|done].
  intros [= <- _] Hne. apply list_lookup_insert_ne. congruence.
Qed.

(** Without force a step leaves a task that has subtasks as it is. *)
Lemma step_protected tm ts c update ts' c' i t :
  step tm false (ts, c) update = Some (ts', c') ->
  ts !! i = Some t -> has_subtasks t = true ->
  ts' !! i = Some t.
Proof.
  intros Hstep Hi Ht.
  destruct (decide (tm !! ToString (su_taskId update) = Some i)) as [Heq|Hne].
  - unfold step in Hstep. rewrite Heq, Hi, Ht in Hstep. simpl in Hstep.
    by injection Hstep as <- _.
  - by rewrite (step_other _ _ _ _ _ _ _ _ Hstep Hne).
Qed.

Lemma loop_length tm forceFlag updates ts c ts' c' :
  loop tm forceFlag (ts, c) updates = Some (ts', c') -> length ts' = length ts.
Proof.
  revert ts c. induction updates as [|u updates IH]; intros ts c; cbn [loop].
  - by intros [= <- _].
  - destruct (step tm forceFlag (ts, c) u) as [[ts1 c1]|] eqn:Hstep; [|done].
    intros Hloop. rewrite (IH _ _ Hloop). by eapply step_length.
Qed.

Lemma loop_other tm forceFlag updates ts c ts' c' i :
  loop tm forceFlag (ts, c) updates = Some (ts', c') ->
  (forall u, u ∈ updates -> tm !! ToString (su_taskId u) <> Some i) ->
  ts' !! i = ts !! i.
Proof.
  revert ts c. induction updates as [|u updates IH]; intros ts c; cbn [loop].
  - by intros [= <- _].
  - destruct (step tm forceFlag (ts, c) u) as [[ts1 c1]|] eqn:Hstep; [|done].
    intros Hloop Hne. rewrite (IH _ _ Hloop).
    + eapply step_other; [done|]. apply Hne. left.
    + intros u' Hu'. apply Hne. by right.
Qed.

Lemma loop_protected tm updates ts c ts' c' i t :
  loop tm false (ts, c) updates = Some (ts', c') ->
  ts !! i = Some t -> has_subtasks t = true ->
  ts' !! i = Some t.
Proof.
  revert ts c. induction updates as [|u updates IH]; intros ts c; cbn [loop].
  - by intros [= <- _].
  - destruct (step tm false (ts, c) u) as [[ts1 c1]|] eqn:Hstep; [|done].
    intros Hloop Hi Ht. eapply IH; [done| |done].
    by eapply step_protected.
Qed.

Lemma loop_counts tm forceFlag updates ts c ts' c' :
  loop tm forceFlag (ts, c) updates = Some (ts', c') ->
  (updatedCount c' + skippedCount c')%nat
    = (updatedCount c + skippedCount c + length updates)%nat.
Proof.
  revert ts c. induction updates as [|u updates IH]; intros ts c; cbn [loop].
  - intros [= _ <-]. simpl. lia.
  - destruct (step tm forceFlag (ts, c) u) as [[ts1 c1]|] eqn:Hstep; [|done].
    intros Hloop. rewrite (IH _ _ Hloop). simpl.
    assert (updatedCount c1 + skippedCount c1 = S (updatedCount c + skippedCount c))%nat;
      [|lia].
    unfold step in Hstep.
    destruct (tm !! _) as [idx|]; [|injection Hstep as _ <-; simpl; lia].
    destruct (ts !! idx) as [parentTask|]; [|done].
    destruct (has_subtasks parentTask && negb forceFlag);
      [injection Hstep as _ <-; simpl; lia|].
    destruct (su_subtasks u) as [subs|]; [|done].
    injection Hstep as _ <-. simpl. lia.
Qed.

(** The stored tasks after a call: as before, or the outcome of the loop. *)
Lemma saveMultiple_world args w :
  (saveMultipleTaskSubtasksDirect args w).2 = w \/
  exists updates data ts c,
    subtaskUpdates args = Some updates /\ readJSON w = Some data /\
    loop (taskMap (tasks data)) (force args) (tasks data, mkCounts 0 0) updates
      = Some (ts, c) /\
    String.eqb (tasksJsonPath args) "" || String.eqb (projectRoot args) "" = false /\
    saveMultipleTaskSubtasksDirect args w =
      (Success (mkData
         ("Successfully saved subtask updates for "
            +:+ pretty (updatedCount c) +:+ " tasks. Skipped "
            +:+ pretty (skippedCount c) +:+ ".")
         (updatedCount c) (skippedCount c)),
       writeJSON (with_tasks data ts) w).
Proof.
  unfold saveMultipleTaskSubtasksDirect.
  destruct (subtaskUpdates args) as [updates|]; [|by left].
  destruct (_ || _) eqn:Hargs; [by left|].
  destruct (readJSON w) as [data|] eqn:Hr; [|by left].
  destruct (loop _ _ _ updates) as [[ts c]|] eqn:Hloop; [|by left].
  right. by exists updates, data, ts, c.
Qed.

(** X7: every update of a batch that is saved is accounted for: it is
    counted as updated or as skipped (unknown parent, or existing subtasks
    without force), and the two counts add up to the size of the batch. *)
Theorem saveMultiple_accounts_for_every_update args w d w' updates :
  saveMultipleTaskSubtasksDirect args w = (Success d, w') ->
  subtaskUpdates args = Some updates ->
  (d_updatedCount d + d_skippedCount d)%nat = length updates.
Proof.
  intros Hsave Hu.
  destruct (saveMultiple_world args w)
    as [Hw | (updates' & data & ts & c & Hu' & Hr & Hloop & _ & Heq)].
  - unfold saveMultipleTaskSubtasksDirect in Hsave. rewrite Hu in Hsave.
    destruct (_ || _); [done|].
    destruct (readJSON w) as [data|]; [|done].
    destruct (loop _ _ _ updates) as [[ts c]|] eqn:Hloop; [|done].
    injection Hsave as <- _. simpl. by rewrite (loop_counts _ _ _ _ _ _ _ Hloop).
  - rewrite Heq in Hsave. injection Hsave as <- _. simpl.
    rewrite Hu in Hu'. injection Hu' as <-.
    by rewrite (loop_counts _ _ _ _ _ _ _ Hloop).
Qed.

Lemma saveMultiple_accounts_for_every_update_witness :
  (SaveMultipleTaskSubtasks.d_updatedCount
     (SaveMultipleTaskSubtasks.mkData
        "Successfully saved subtask updates for 1 tasks. Skipped 2." 1 2)
   + SaveMultipleTaskSubtasks.d_skippedCount
       (SaveMultipleTaskSubtasks.mkData
          "Successfully saved subtask updates for 1 tasks. Skipped 2." 1 2))%nat
  = length [SaveMultipleTaskSubtasks.mkSubtaskUpdate (IdNum 1)
              (Some [sampleSubtask 7 "pending"]);
            SaveMultipleTaskSubtasks.mkSubtaskUpdate (IdNum 2) (Some []);
            SaveMultipleTaskSubtasks.mkSubtaskUpdate (IdNum 9) (Some [])].
Proof.
  exact (saveMultiple_accounts_for_every_update
           (mkArgs "tasks.json" "/p"
              (Some [mkSubtaskUpdate (IdNum 1) (Some [sampleSubtask 7 "pending"]);
                     mkSubtaskUpdate (IdNum 2) (Some []);
                     mkSubtaskUpdate (IdNum 9) (Some [])]) false)
           (sampleWorld [sampleTask 1 "pending" None;
                         sampleTask 2 "pending" (Some [sampleSubtask 1 "done"])])
           (mkData "Successfully saved subtask updates for 1 tasks. Skipped 2." 1 2)
           _ _ eq_refl eq_refl).
Defined.
End SaveMultipleFacts.

Section SaveMultipleFrame.
Import SaveMultipleTaskSubtasks.

(** X8: without the force flag the save never touches a task that already
    has subtasks: whatever the batch holds for it, the task is stored as
    it was. *)
Theorem saveMultiple_keeps_existing_subtasks args w data data' i t :
  force args = false ->
  readJSON w = Some data ->
  tasks data !! i = Some t -> has_subtasks t = true ->
  tasks_file (saveMultipleTaskSubtasksDirect args w).2 = Some data' ->
  tasks data' !! i = Some t.
Proof.
  intros Hf Hr Hi Ht.
  destruct (saveMultiple_world args w)
    as [-> | (updates & d & ts & c & Hu & Hr' & Hloop & _ & ->)].
  - unfold readJSON in Hr. rewrite Hr. by intros [= <-].
  - simpl. intros [= <-]. simpl. rewrite Hr in Hr'. injection Hr' as <-.
    rewrite Hf in Hloop. by eapply loop_protected.
Qed.

Lemma saveMultiple_keeps_existing_subtasks_witness :
  [sampleTask 1 "pending" (Some [sampleSubtask 1 "done"]);
   sampleTask 2 "pending" (Some [mkSubtask (Some 1) (Some "t") (Some "d") (Some "") (Some "pending")])]
    !! 0%nat
  = Some (sampleTask 1 "pending" (Some [sampleSubtask 1 "done"])).
Proof.
  exact (saveMultiple_keeps_existing_subtasks
           (mkArgs "tasks.json" "/p"
              (Some [mkSubtaskUpdate (IdNum 1) (Some [sampleSubtask 7 "pending"]);
                     mkSubtaskUpdate (IdNum 2) (Some [sampleSubtask 7 "pending"])]) false)
           (sampleWorld [sampleTask 1 "pending" (Some [sampleSubtask 1 "done"]);
                         sampleTask 2 "pending" None])
           (mkDocument [sampleTask 1 "pending" (Some [sampleSubtask 1 "done"]);
                        sampleTask 2 "pending" None] "meta")
           (mkDocument _ "meta")
           0%nat (sampleTask 1 "pending" (Some [sampleSubtask 1 "done"]))
           eq_refl eq_refl eq_refl eq_refl eq_refl).
Defined.

(** X9: the save changes no task that the batch does not name: a task
    whose id, as a string, is the [taskId] of no update is stored as it
    was, in its slot, and the number of tasks stays the same. *)
Theorem saveMultiple_leaves_unnamed_tasks args w data data' updates i t :
  subtaskUpdates args = Some updates ->
  readJSON w = Some data ->
  tasks data !! i = Some t ->
  (forall u, u ∈ updates -> ToString (su_taskId u) <> ToString (task_id t)) ->
  tasks_file (saveMultipleTaskSubtasksDirect args w).2 = Some data' ->
  tasks data' !! i = Some t /\ length (tasks data') = length (tasks data).
Proof.
  intros Hu Hr Hi Hne.
  destruct (saveMultiple_world args w)
    as [-> | (updates' & d & ts & c & Hu' & Hr' & Hloop & _ & ->)].
  - unfold readJSON in Hr. rewrite Hr. by intros [= <-].
  - simpl. intros [= <-]. simpl. rewrite Hr in Hr'. injection Hr' as <-.
    rewrite Hu in Hu'. injection Hu' as <-.
    split; [|by eapply loop_length].
    rewrite <- Hi. eapply loop_other; [done|].
    intros u Hin Htm. apply taskMap_lookup in Htm as (t' & Ht' & Hk).
    rewrite Hi in Ht'. injection Ht' as <-. by apply (Hne u).
Qed.

Lemma saveMultiple_leaves_unnamed_tasks_witness :
  [sampleTask 1 "pending" (Some [mkSubtask (Some 1) (Some "t") (Some "d") (Some "") (Some "pending")]);
   sampleTask 2 "done" None] !! 1%nat
    = Some (sampleTask 2 "done" None) /\
  length [sampleTask 1 "pending" (Some [mkSubtask (Some 1) (Some "t") (Some "d") (Some "") (Some "pending")]);
          sampleTask 2 "done" None] = 2%nat.
Proof.
  refine (saveMultiple_leaves_unnamed_tasks
            (mkArgs "tasks.json" "/p"
               (Some [mkSubtaskUpdate (IdNum 1) (Some [sampleSubtask 7 "pending"])]) true)
            (sampleWorld [sampleTask 1 "pending" None; sampleTask 2 "done" None])
            (mkDocument [sampleTask 1 "pending" None; sampleTask 2 "done" None] "meta")
            (mkDocument _ "meta") _
            1%nat (sampleTask 2 "done" None)
            eq_refl eq_refl eq_refl _ eq_refl).
  intros u ->%list_elem_of_singleton. discriminate.
Defined.

(** X10: the save is all or nothing: the file is written once, after the
    whole batch has been gone through, so every error envelope, also the
    one for an update without a subtasks array after updates that could be
    applied, leaves the stored document as it was. *)
Theorem saveMultiple_all_or_nothing args w e :
  (saveMultipleTaskSubtasksDirect args w).1 = Failure e ->
  (saveMultipleTaskSubtasksDirect args w).2 = w.
Proof.
  destruct (saveMultiple_world args w)
    as [Hw | (updates & d & ts & c & _ & _ & _ & _ & ->)]; [done|].
  simpl. discriminate.
Qed.

Lemma saveMultiple_all_or_nothing_witness :
  (saveMultipleTaskSubtasksDirect
     (mkArgs "tasks.json" "/p"
        (Some [mkSubtaskUpdate (IdNum 1) (Some [sampleSubtask 7 "pending"]);
               mkSubtaskUpdate (IdNum 2) None]) false)
     (sampleWorld [sampleTask 1 "pending" None; sampleTask 2 "pending" None])).2
  = sampleWorld [sampleTask 1 "pending" None; sampleTask 2 "pending" None].
Proof.
  exact (saveMultiple_all_or_nothing
           (mkArgs "tasks.json" "/p"
              (Some [mkSubtaskUpdate (IdNum 1) (Some [sampleSubtask 7 "pending"]);
                     mkSubtaskUpdate (IdNum 2) None]) false)
           (sampleWorld [sampleTask 1 "pending" None; sampleTask 2 "pending" None])
           (mkError "SAVE_MULTI_SUBTASK_ERROR" "Failed to save multiple subtasks: ")
           eq_refl).
Defined.
End SaveMultipleFrame.

(** ** Saving the same batch twice *)

Section SaveMultipleIdempotence.
Import SaveMultipleTaskSubtasks.

Lemma same_but_subtasks_refl t : same_but_subtasks t t.
Proof. done. Qed.

Lemma same_but_subtasks_set subs t : same_but_subtasks t (set_subtasks subs t).
Proof. done. Qed.

Lemma same_but_subtasks_id t1 t2 : same_but_subtasks t1 t2 -> task_id t1 = task_id t2.
Proof. intros H. exact (f_equal task_id (H [])). Qed.

Lemma set_subtasks_same t subs : task_subtasks t = Some subs -> set_subtasks subs t = t.
Proof. destruct t. simpl. by intros ->. Qed.

Lemma renumber_nil_inv subs : renumber subs = [] -> subs = [].
Proof. by destruct subs. Qed.

Lemma has_subtasks_set subs t :
  has_subtasks (set_subtasks subs t) = match subs with [] => false | _ => true end.
Proof. by destruct subs. Qed.

(** *** Without force: the outcome is a fixed point of every update *)

(** A task keeps having a subtask list once it has one. *)
Lemma step_subtasks_stay tm forceFlag ts c update ts' c' i t subs :
  step tm forceFlag (ts, c) update = Some (ts', c') ->
  ts !! i = Some t -> task_subtasks t = Some subs ->
  exists t' subs', ts' !! i = Some t' /\ task_subtasks t' = Some subs'.
Proof.
  intros Hstep Hi Hs.
  destruct (decide (tm !! ToString (su_taskId update) = Some i)) as [Heq|Hne].
  - unfold step in Hstep. rewrite Heq, Hi in Hstep.
    destruct (has_subtasks t && negb forceFlag).
    + injection Hstep as <- _. eauto.
    + destruct (su_subtasks update) as [new|]; [|done].
      injection Hstep as <- _.
      exists (set_subtasks (renumber new) t), (renumber new). split; [|done].
      apply list_lookup_insert_eq. by eapply lookup_lt_Some.
  - rewrite (step_other _ _ _ _ _ _ _ _ Hstep Hne). eauto.
Qed.

Lemma loop_subtasks_stay tm forceFlag updates ts c ts' c' i t subs :
  loop tm forceFlag (ts, c) updates = Some (ts', c') ->
  ts !! i = Some t -> task_subtasks t = Some subs ->
  exists t' subs', ts' !! i = Some t' /\ task_subtasks t' = Some subs'.
Proof.
  revert ts c t subs. induction updates as [|u updates IH]; intros ts c t subs; cbn [loop].
  - intros [= <- _]. eauto.
  - destruct (step tm forceFlag (ts, c) u) as [[ts1 c1]|] eqn:Hstep; [|done].
    intros Hloop Hi Hs.
    destruct (step_subtasks_stay _ _ _ _ _ _ _ _ _ _ Hstep Hi Hs) as (t1 & s1 & Hi1 & Hs1).
    by eapply IH.
Qed.

(** After the loop every update finds its parent either with subtasks, or
    with the empty list that it would assign itself. *)
Lemma loop_settled tm updates ts c ts' c' u i :
  loop tm false (ts, c) updates = Some (ts', c') ->
  u ∈ updates -> tm !! ToString (su_taskId u) = Some i ->
  exists t', ts' !! i = Some t' /\
    (has_subtasks t' = true \/
     (su_subtasks u = Some [] /\ task_subtasks t' = Some [])).
Proof.
  revert ts c. induction updates as [|u0 updates IH]; intros ts c; cbn [loop].
  - by intros _ ?%elem_of_nil.
  - destruct (step tm false (ts, c) u0) as [[ts1 c1]|] eqn:Hstep; [|done].
    intros Hloop [->|Hin]%elem_of_cons Htm; [|by eapply IH].
    unfold step in Hstep. rewrite Htm in Hstep.
    destruct (ts !! i) as [t|] eqn:Hi; [|done].
    destruct (has_subtasks t) eqn:Ht; simpl in Hstep.
    + injection Hstep as <- _. exists t. split; [|by left].
      by eapply loop_protected.
    + destruct (su_subtasks u0) as [subs|]; [|done].
      injection Hstep as <- _.
      assert (Hi1 : <[i:=set_subtasks (renumber subs) t]> ts !! i
                    = Some (set_subtasks (renumber subs) t)).
      { apply list_lookup_insert_eq. by eapply lookup_lt_Some. }
      destruct (loop_subtasks_stay _ _ _ _ _ _ _ _ _ _ Hloop Hi1 eq_refl)
        as (t' & subs' & Hi' & Hs').
      destruct subs as [|s subs].
      * exists t'. split; [done|].
        destruct subs' as [|s' subs'].
        -- by right.
        -- left. unfold has_subtasks. by rewrite Hs'.
      * exists (set_subtasks (renumber (s :: subs)) t). split; [|by left].
        by eapply loop_protected.
Qed.

Lemma step_settled tm ts c u :
  (forall i, tm !! ToString (su_taskId u) = Some i ->
     exists t', ts !! i = Some t' /\
       (has_subtasks t' = true \/
        (su_subtasks u = Some [] /\ task_subtasks t' = Some []))) ->
  exists c', step tm false (ts, c) u = Some (ts, c').
Proof.
  intros H. unfold step.
  destruct (tm !! ToString (su_taskId u)) as [i|]; [|by eexists].
  destruct (H i eq_refl) as (t' & Hi & [Ht | [-> Hs]]); rewrite Hi.
  - rewrite Ht. simpl. by eexists.
  - destruct (has_subtasks t'); simpl; [by eexists|].
    change (renumber []) with (@nil Subtask).
    rewrite (set_subtasks_same _ _ Hs). eexists.
    do 2 f_equal. by apply list_insert_id.
Qed.

Lemma loop_settled_fixed tm updates ts c :
  (forall u i, u ∈ updates -> tm !! ToString (su_taskId u) = Some i ->
     exists t', ts !! i = Some t' /\
       (has_subtasks t' = true \/
        (su_subtasks u = Some [] /\ task_subtasks t' = Some []))) ->
  exists c', loop tm false (ts, c) updates = Some (ts, c').
Proof.
  revert c. induction updates as [|u updates IH]; intros c H; cbn [loop].
  - by eexists.
  - destruct (step_settled tm ts c u) as [c1 ->].
    { intros i. apply H. left. }
    apply IH. intros u' i Hin. apply H. by right.
Qed.

(** *** With force: the outcome does not depend on the subtasks before *)

Lemma loop_same_but_subtasks tm forceFlag updates ts c ts' c' :
  loop tm forceFlag (ts, c) updates = Some (ts', c') ->
  Forall2 same_but_subtasks ts ts'.
Proof.
  revert ts c. induction updates as [|u updates IH]; intros ts c; cbn [loop].
  - intros [= <- _]. by apply Forall_Forall2_diag, Forall_true.
  - destruct (step tm forceFlag (ts, c) u) as [[ts1 c1]|] eqn:Hstep; [|done].
    intros Hloop. specialize (IH _ _ Hloop).
    assert (H1 : Forall2 same_but_subtasks ts ts1).
    { unfold step in Hstep.
      assert (Hrefl : Forall2 same_but_subtasks ts ts)
        by (by apply Forall_Forall2_diag, Forall_true).
      destruct (tm !! _) as [idx|]; [|by injection Hstep as <- _].
      destruct (ts !! idx) as [parentTask|] eqn:Hidx; [|done].
      destruct (has_subtasks parentTask && negb forceFlag);
        [by injection Hstep as <- _|].
      destruct (su_subtasks u) as [subs|]; [|done].
      injection Hstep as <- _.
      rewrite <- (list_insert_id ts idx parentTask) at 1 by done.
      apply Forall2_insert; [done|]. apply same_but_subtasks_set. }
    clear Hstep Hloop. revert H1 IH. generalize ts ts1 ts'. clear.
    intros a b d Hab. revert d.
    induction Hab as [|x y a b Hxy _ IH]; intros d Hbd.
    + by apply Forall2_nil_inv_l in Hbd as ->.
    + apply Forall2_cons_inv_l in Hbd as (z & d' & Hyz & Hd & ->).
      constructor; [|by apply IH].
      intros subs. by rewrite Hxy, Hyz.
Qed.

Lemma loop_forced_again tm updates ts c ts' c' ts2 c2 :
  loop tm true (ts, c) updates = Some (ts', c') ->
  Forall2 same_but_subtasks ts ts2 ->
  (forall i, (forall u, u ∈ updates -> tm !! ToString (su_taskId u) <> Some i) ->
             ts2 !! i = ts' !! i) ->
  exists c2', loop tm true (ts2, c2) updates = Some (ts', c2').
Proof.
  revert ts c ts2 c2. induction updates as [|u updates IH];
    intros ts c ts2 c2; cbn [loop].
  - intros [= <- _] _ H. exists c2. do 2 f_equal.
    apply list_eq. intros i. apply H. by intros u ?%elem_of_nil.
  - destruct (step tm true (ts, c) u) as [[ts1 c1]|] eqn:Hstep; [|done].
    intros Hloop Hrel Hoff.
    unfold step in Hstep |- *.
    destruct (tm !! ToString (su_taskId u)) as [idx|] eqn:Htm.
    + destruct (ts !! idx) as [t|] eqn:Hidx; [|done].
      cbn [negb] in Hstep |- *. rewrite andb_false_r in Hstep.
      destruct (su_subtasks u) as [subs|]; [|done].
      injection Hstep as <- <-.
      destruct (Forall2_lookup_l _ _ _ _ _ Hrel Hidx) as (t2 & Hidx2 & Ht2).
      rewrite Hidx2, andb_false_r.
      eapply IH; [exact Hloop| |].
      * rewrite <- (Ht2 (renumber subs)). by apply Forall2_insert.
      * intros i Hi. destruct (decide (i = idx)) as [->|Hne].
        -- rewrite <- (Ht2 (renumber subs)).
           rewrite (loop_other _ _ _ _ _ _ _ _ Hloop Hi).
           rewrite !list_lookup_insert_eq; [done|by eapply lookup_lt_Some..].
        -- rewrite list_lookup_insert_ne by done. apply Hoff.
           intros u' [->|Hu']%elem_of_cons; [congruence|by apply Hi].
    + injection Hstep as <- <-.
      eapply IH; [exact Hloop|done|].
      intros i Hi. apply Hoff.
      intros u' [->|Hu']%elem_of_cons; [congruence|by apply Hi].
Qed.

(** The index of parents only depends on the ids. *)
Lemma taskMap_same_ids ts ts' :
  Forall2 same_but_subtasks ts ts' -> taskMap ts = taskMap ts'.
Proof.
  revert ts'. induction ts as [|x l IH] using rev_ind; intros ts' H.
  - by apply Forall2_nil_inv_l in H as ->.
  - apply Forall2_app_inv_l in H as (l' & k & Hl & Hk & ->).
    apply Forall2_cons_inv_l in Hk as (y & k' & Hxy & ->%Forall2_nil_inv_l & ->).
    rewrite !taskMap_snoc, (IH _ Hl), (Forall2_length _ _ _ Hl).
    by rewrite (same_but_subtasks_id _ _ Hxy).
Qed.

(** Going through the batch again, starting from the outcome, ends in the
    same outcome. *)
Lemma loop_again tm forceFlag updates ts c ts' c' c2 :
  loop tm forceFlag (ts, c) updates = Some (ts', c') ->
  exists c2', loop tm forceFlag (ts', c2) updates = Some (ts', c2').
Proof.
  intros Hloop. destruct forceFlag.
  - eapply loop_forced_again; [exact Hloop| |done].
    by eapply loop_same_but_subtasks.
  - apply loop_settled_fixed. intros u i Hin Htm.
    by eapply loop_settled.
Qed.

(** X11: saving the same batch a second time leaves the stored document
    as the first save left it, with or without the force flag. *)
Theorem saveMultiple_idempotent args w :
  (saveMultipleTaskSubtasksDirect args
     (saveMultipleTaskSubtasksDirect args w).2).2
  = (saveMultipleTaskSubtasksDirect args w).2.
Proof.
  destruct (saveMultiple_world args w)
    as [Hw | (updates & data & ts & c & Hu & Hr & Hloop & Hargs & ->)];
    [by rewrite Hw|].
  cbn [snd]. unfold saveMultipleTaskSubtasksDirect at 1.
  rewrite Hu, Hargs. cbn [readJSON writeJSON tasks_file with_tasks tasks].
  rewrite <- (taskMap_same_ids (tasks data) ts)
    by (by eapply loop_same_but_subtasks).
  destruct (loop_again _ _ _ _ _ _ _ (mkCounts 0 0) Hloop) as [c2 ->].
  done.
Qed.
End SaveMultipleIdempotence.

(** ** The merge: accounting of ids, order *)

Section MergeAccounting.
Import SaveUpdatedTasks.

Lemma count_key_keys k l :
  count_key k l = length (List.filter (fun s => String.eqb s k) (map key l)).
Proof.
  unfold count_key. induction l as [|x l IH]; simpl; [done|].
  destruct (String.eqb (key x) k); simpl; by rewrite IH.
Qed.

Lemma count_key_app k l1 l2 :
  count_key k (l1 ++ l2) = (count_key k l1 + count_key k l2)%nat.
Proof. unfold count_key. by rewrite List.filter_app, length_app. Qed.

Lemma count_key_Permutation k l1 l2 :
  l1 ≡ₚ l2 -> count_key k l1 = count_key k l2.
Proof.
  intros H. unfold count_key.
  by rewrite (filter_Permutation_bool _ _ _ H).
Qed.

Lemma Map_get_None_keys {V} k (m : JsMap V) :
  Map_get k m = None <-> k ∉ map fst m.
Proof.
  induction m as [|[k1 v1] m IH]; simpl.
  - split; [intros _; apply not_elem_of_nil|done].
  - rewrite not_elem_of_cons, <- IH.
    destruct (String.eqb_spec k k1) as [->|Hne]; [split; [done|by intros []]|tauto].
Qed.

Lemma Map_set_keys {V} k (v : V) m :
  map fst (Map_set k v m) = map fst m \/
  ((k ∉ map fst m) /\ map fst (Map_set k v m) = map fst m ++ [k]).
Proof.
  induction m as [|[k1 v1] m IH]; simpl.
  - right. split; [apply not_elem_of_nil|done].
  - destruct (String.eqb_spec k k1) as [->|Hne]; simpl; [by left|].
    destruct IH as [->|[Hk ->]]; [by left|right].
    split; [|done]. rewrite not_elem_of_cons. tauto.
Qed.

Lemma Map_set_NoDup {V} k (v : V) m :
  NoDup (map fst m) -> NoDup (map fst (Map_set k v m)).
Proof.
  intros Hnd. destruct (Map_set_keys k v m) as [->|[Hk ->]]; [done|].
  apply NoDup_app. split; [done|]. split; [|apply NoDup_singleton].
  intros x Hx ->%list_elem_of_singleton. done.
Qed.

(** The keys of the update index are distinct. *)
Lemma updatedTasksMap_NoDup updated : NoDup (map fst (updatedTasksMap updated)).
Proof.
  unfold updatedTasksMap.
  assert (H : forall m0 : JsMap Task, NoDup (map fst m0) ->
            NoDup (map fst (foldl (fun m task => Map_set (key task) task m) m0 updated))).
  { induction updated as [|u updated IH]; intros m0 H0; simpl; [done|].
    apply IH. by apply Map_set_NoDup. }
  apply H. constructor.
Qed.

(** Entries of a map under the key [k]. *)
Lemma entries_under_key {V} k (m : JsMap V) :
  NoDup (map fst m) ->
  length (List.filter (fun e => String.eqb (fst e) k) m) =
  match Map_get k m with Some _ => 1%nat | None => 0%nat end.
Proof.
  induction m as [|[k1 v1] m IH]; simpl; [done|].
  intros [Hk1 Hnd]%NoDup_cons. rewrite (String.eqb_sym k k1).
  destruct (String.eqb_spec k1 k) as [->|Hne]; simpl.
  - rewrite IH by done. apply Map_get_None_keys in Hk1. by rewrite Hk1.
  - by apply IH.
Qed.

(** What the walk leaves in the index: the entries under keys that no
    existing task has. *)
Lemma mergeTasks_leftover existing m :
  (mergeTasks existing m).2 =
  List.filter (fun e => negb (existsb (String.eqb (fst e)) (map key existing))) m.
Proof.
  revert m. induction existing as [|x l IH]; intros m; simpl.
  - induction m as [|e m IHm]; simpl; [done|]. by rewrite <- IHm.
  - destruct (Map_get (key x) m) as [u|] eqn:Hx.
    + specialize (IH (Map_delete (key x) m)).
      destruct (mergeTasks l (Map_delete (key x) m)) as [out m']. simpl in *.
      rewrite IH. unfold Map_delete. clear.
      induction m as [|e m IHm]; simpl; [done|].
      rewrite (String.eqb_sym (key x) (fst e)).
      destruct (String.eqb (fst e) (key x)); simpl; [done|].
      destruct (existsb _ _); simpl; by rewrite IHm.
    + specialize (IH m). destruct (mergeTasks l m) as [out m']. simpl in *.
      rewrite IH. apply Map_get_None_keys in Hx. clear IH.
      induction m as [|e m IHm]; simpl; [done|].
      simpl in Hx. apply not_elem_of_cons in Hx as [Hne Hx].
      destruct (String.eqb_spec (fst e) (key x)) as [Heq|_]; [by destruct Hne|].
      simpl. destruct (existsb _ _); simpl; by rewrite IHm.
Qed.

Lemma count_key_values k (m : JsMap Task) :
  keyed m ->
  count_key k (Map_values m) = length (List.filter (fun e => String.eqb (fst e) k) m).
Proof.
  unfold count_key, Map_values. induction m as [|[k1 v1] m IH]; intros Hk; simpl; [done|].
  rewrite (Hk k1 v1) by left.
  assert (Hm : keyed m) by (intros k' v' Hin; apply Hk; by right).
  destruct (String.eqb k1 k); simpl; by rewrite IH.
Qed.

Lemma filter_under_key {V} k (P : string -> bool) (m : JsMap V) :
  List.filter (fun e => String.eqb (fst e) k) (List.filter (fun e => P (fst e)) m) =
  if P k then List.filter (fun e => String.eqb (fst e) k) m else [].
Proof.
  induction m as [|[k1 v1] m IH]; simpl; [by destruct (P k)|].
  destruct (String.eqb_spec k1 k) as [->|Hne].
  - destruct (P k); simpl; [|done]. rewrite String.eqb_refl. by rewrite IH.
  - destruct (P k1); simpl; [|done].
    by destruct (String.eqb_spec k1 k).
Qed.

Lemma existsb_eqb_elem_of k l :
  existsb (String.eqb k) l = true <-> k ∈ l.
Proof.
  rewrite existsb_exists. split.
  - intros (x & Hin & ->%String.eqb_eq). by apply list_elem_of_In.
  - intros Hin. exists k. split; [by apply list_elem_of_In|apply String.eqb_refl].
Qed.

(** X12: the merge neither loses nor duplicates a task: under every id
    the result has as many tasks as the document had, plus one when the id
    is new to the document and named in the batch, however often the batch
    names it. *)
Theorem merge_id_accounting existing updated k :
  count_key k (mergedTasks existing updated) =
  (count_key k existing +
   if bool_decide (k ∈ map key updated /\ k ∉ map key existing) then 1 else 0)%nat.
Proof.
  rewrite (count_key_Permutation _ _ _ (mergedTasks_Permutation existing updated)).
  rewrite count_key_app. f_equal.
  - rewrite !count_key_keys. f_equal. f_equal.
    apply mergeTasks_keys, updatedTasksMap_keyed.
  - rewrite count_key_values
      by apply mergeTasks_leftover_keyed, updatedTasksMap_keyed.
    rewrite mergeTasks_leftover.
    rewrite (filter_under_key k
               (fun s => negb (existsb (String.eqb s) (map key existing)))).
    destruct (existsb (String.eqb k) (map key existing)) eqn:Hex; simpl.
    + apply existsb_eqb_elem_of in Hex.
      rewrite bool_decide_eq_false_2; [done|tauto].
    + assert (Hnew : k ∉ map key existing).
      { rewrite <- existsb_eqb_elem_of. by rewrite Hex. }
      rewrite entries_under_key by apply updatedTasksMap_NoDup.
      destruct (Map_get k (updatedTasksMap updated)) as [v|] eqn:Hget.
      * rewrite bool_decide_eq_true_2; [done|]. split; [|done].
        destruct (decide (k ∈ map key updated)) as [|Hn]; [done|].
        apply updatedTasksMap_get_None in Hn. congruence.
      * apply updatedTasksMap_get_None in Hget.
        rewrite bool_decide_eq_false_2; [done|tauto].
Qed.

(** X13: when every id of the batch is the id of an existing task, every
    slot of the document keeps its id and the number of tasks stays the
    same: updates replace in place, nothing is appended or moved. *)
Theorem merge_in_place_keeps_ids existing updated :
  (forall u, u ∈ updated -> key u ∈ map key existing) ->
  map key (mergedTasks existing updated) = map key existing.
Proof.
  intros H. rewrite mergedTasks_no_new by done.
  apply mergeTasks_keys, updatedTasksMap_keyed.
Qed.

Lemma merge_in_place_keeps_ids_witness :
  map key (mergedTasks [sampleTask 2 "pending" None; sampleTask 1 "pending" None]
                       [sampleTask 1 "done" None; sampleTask 1 "review" None])
  = map key [sampleTask 2 "pending" None; sampleTask 1 "pending" None].
Proof.
  apply (merge_in_place_keeps_ids
           [sampleTask 2 "pending" None; sampleTask 1 "pending" None]
           [sampleTask 1 "done" None; sampleTask 1 "review" None]).
  intros u Hu.
  repeat (apply elem_of_cons in Hu as [->|Hu];
          [apply list_elem_of_In; vm_compute; tauto|]).
  by apply elem_of_nil in Hu.
Defined.

(** X14: when the batch brings an id that is new to the document and all
    ids are numerals, the stored list is in ascending order of id, whatever
    the order in the document was, and holds an update with the new id. *)
Theorem merge_new_id_sorts existing updated u :
  u ∈ updated -> key u ∉ map key existing ->
  Forall numeric_id existing -> Forall numeric_id updated ->
  (exists v, v ∈ updated /\ key v = key u /\ v ∈ mergedTasks existing updated) /\
  forall i j a b qa qb,
    (i < j)%nat ->
    mergedTasks existing updated !! i = Some a ->
    mergedTasks existing updated !! j = Some b ->
    parseFloat (key a) = Fin qa -> parseFloat (key b) = Fin qb ->
    (qa <= qb)%Q.
Proof.
  intros Hu Hnew He Hup.
  destruct (mergedTasks_appends_and_sorts existing updated u Hu Hnew He Hup)
    as [Hin Hsorted].
  split; [exact Hin|].
  intros i j a b qa qb Hij Hi Hj Ha Hb.
  pose proof (StronglySorted_lookup _ _ _ _ _ _ Hsorted Hij Hi Hj) as Hle.
  unfold id_le in Hle. rewrite (compareById_numeric a b qa qb) in Hle by done.
  apply negb_false_iff in Hle. by apply Qle_bool_iff.
Qed.

Lemma merge_new_id_sorts_witness :
  exists v,
    v ∈ [sampleTask 3 "pending" None] /\
    key v = key (sampleTask 3 "pending" None) /\
    v ∈ mergedTasks [sampleTask 4 "pending" None; sampleTask 1 "pending" None]
                    [sampleTask 3 "pending" None].
Proof.
  apply (merge_new_id_sorts
           [sampleTask 4 "pending" None; sampleTask 1 "pending" None]
           [sampleTask 3 "pending" None] (sampleTask 3 "pending" None)).
  - left.
  - intros Hin%list_elem_of_In. vm_compute in Hin. by destruct Hin as [|[|[]]].
  - repeat constructor; eexists; vm_compute; reflexivity.
  - repeat constructor; eexists; vm_compute; reflexivity.
Defined.
End MergeAccounting.

(** ** The [update_task] tool *)

Section UpdateTaskFacts.
Import SaveUpdatedTasks UpdateTaskTool.

Lemma find_None_forall {A} (f : A -> bool) l :
  (forall x, x ∈ l -> f x = false) -> List.find f l = None.
Proof.
  induction l as [|x l IH]; intros H; simpl; [done|].
  rewrite (H x) by left. apply IH. intros y Hy. apply H. by right.
Qed.

(** X15: [update_task] looks the task up by strict equality with the
    string it was given, so in a document whose ids are numbers, the only
    ones [expandTaskDirect] finds, it finds no task: the call ends in the
    not-found error and writes nothing. *)
Theorem update_task_misses_numeric_ids env args w data :
  rootFolder args <> "" ->
  readJSON w = Some data ->
  (forall t, t ∈ tasks data -> exists n, task_id t = IdNum n) ->
  execute env args w =
    (createErrorResponse
       ("Failed to find/read tasks.json or task " +:+ id args
          +:+ ": Task with ID " +:+ id args +:+ " not found."), w).
Proof.
  intros Hroot Hread Hnum. unfold execute.
  apply String.eqb_neq in Hroot. rewrite Hroot, Hread.
  rewrite find_None_forall; [done|].
  intros t Ht. by destruct (Hnum t Ht) as [n ->].
Qed.

Lemma update_task_misses_numeric_ids_witness :
  execute sampleUpdateTaskEnv (mkArgs "7" "more detail" "/p")
          (sampleWorld [sampleTask 7 "pending" None]) =
    (createErrorResponse
       "Failed to find/read tasks.json or task 7: Task with ID 7 not found.",
     sampleWorld [sampleTask 7 "pending" None]).
Proof.
  apply (update_task_misses_numeric_ids sampleUpdateTaskEnv
           (mkArgs "7" "more detail" "/p")
           (sampleWorld [sampleTask 7 "pending" None])
           (mkDocument [sampleTask 7 "pending" None] "meta")).
  - done.
  - reflexivity.
  - intros t Ht. apply list_elem_of_singleton in Ht as ->. by exists 7.
Defined.

Lemma mergeTasks_empty_index existing : mergeTasks existing [] = (existing, []).
Proof. induction existing as [|x l IH]; simpl; [done|]. by rewrite IH. Qed.

Lemma mergeTasks_single existing u i t :
  existing !! i = Some t -> key t = key u ->
  (forall j t', (j < i)%nat -> existing !! j = Some t' -> key t' <> key u) ->
  mergeTasks existing [(key u, u)] = (<[i := u]> existing, []).
Proof.
  revert i. induction existing as [|x l IH]; intros i Hi Hk Hfirst; [done|].
  cbn [mergeTasks Map_get].
  destruct i as [|i].
  - injection Hi as ->. rewrite Hk, String.eqb_refl.
    unfold Map_delete. cbn [List.filter fst]. rewrite String.eqb_refl. cbn [negb].
    by rewrite mergeTasks_empty_index.
  - assert (Hne : String.eqb (key x) (key u) = false).
    { apply String.eqb_neq. apply (Hfirst 0%nat x); [lia|done]. }
    rewrite Hne. rewrite (IH i); [done|done|done|].
    intros j t' Hj. apply (Hfirst (S j)). lia.
Qed.

(** A batch of one update whose id is in the document replaces the first
    task under that id, in its slot. *)
Lemma mergedTasks_single existing u i t :
  existing !! i = Some t -> key t = key u ->
  (forall j t', (j < i)%nat -> existing !! j = Some t' -> key t' <> key u) ->
  mergedTasks existing [u] = <[i := u]> existing.
Proof.
  intros Hi Hk Hfirst. unfold mergedTasks, updatedTasksMap.
  cbn [foldl Map_set]. by rewrite (mergeTasks_single existing u i t).
Qed.

Lemma first_index {A} (f : A -> bool) (l : list A) x :
  x ∈ l -> f x = true ->
  exists i t, l !! i = Some t /\ f t = true /\
    forall j t', (j < i)%nat -> l !! j = Some t' -> f t' = false.
Proof.
  induction l as [|y l IH]; intros Hin Hx; [by apply elem_of_nil in Hin|].
  destruct (f y) eqn:Hy.
  - exists 0%nat, y. repeat split; [done|]. intros j t' Hj. lia.
  - apply elem_of_cons in Hin as [->|Hin]; [congruence|].
    destruct (IH Hin Hx) as (i & t & Hi & Ht & Hfirst).
    exists (S i), t. repeat split; [done..|].
    intros [|j] t' Hj Hl; simpl in Hl; [congruence|].
    apply (Hfirst j); [lia|done].
Qed.

Lemma strict_eq_string_key t v :
  strict_eq_string (task_id t) v = true -> key t = v.
Proof.
  unfold key. destruct (task_id t) as [n|s]; simpl; [done|].
  by intros ->%String.eqb_eq.
Qed.

(** The outcome of a call that gets as far as the save. *)
Lemma execute_saved env args w data taskToUpdate sampling text updatedTask updatedId :
  rootFolder args <> "" ->
  readJSON w = Some data ->
  List.find (fun t => strict_eq_string (task_id t) (id args)) (tasks data)
    = Some taskToUpdate ->
  requestSampling env = Some sampling ->
  sampling (_buildUpdateTaskPrompt taskToUpdate (prompt args)) = Resolved text ->
  text <> "" ->
  parseTaskJsonResponse (JSON_parse env) text = Some updatedTask ->
  truthy_id (pt_id updatedTask) = Some updatedId ->
  ToString updatedId = id args ->
  execute env args w =
    (handleApiResult (Success (Message "Successfully saved 1 updated tasks.")),
     writeJSON (with_tasks data
                  (mergedTasks (tasks data) [task_of updatedId updatedTask])) w).
Proof.
  intros Hroot%String.eqb_neq Hread Hfind Hs Hres Htext%String.eqb_neq Hparse Hid Heq.
  unfold execute. rewrite Hroot, Hread, Hfind, Hs, Hres, Htext, Hparse, Hid, Heq.
  rewrite String.eqb_refl. cbn [negb].
  unfold saveUpdatedTasksDirect.
  cbn [tasksJsonPath projectRoot updatedTasks Array_isArray elements negb].
  rewrite Hroot, Hread. reflexivity.
Qed.

(** X16: a successful [update_task] call changes exactly one slot of the
    document: the first task whose id prints as the requested id is
    replaced by the task parsed from the completion that the model gave
    for the task found by strict equality, with [details] and
    [testStrategy] filled and an id that prints as the requested one; no
    task is added, removed or moved, and the metadata stay. *)
Theorem update_task_replaces_one_slot env args w m w' :
  execute env args w = (handleApiResult (Success m), w') ->
  exists data i t taskToUpdate sampling text updatedTask updatedId,
    readJSON w = Some data /\
    tasks data !! i = Some t /\ key t = id args /\
    (forall j t', (j < i)%nat -> tasks data !! j = Some t' -> key t' <> id args) /\
    List.find (fun t => strict_eq_string (task_id t) (id args)) (tasks data)
      = Some taskToUpdate /\
    requestSampling env = Some sampling /\
    sampling (_buildUpdateTaskPrompt taskToUpdate (prompt args)) = Resolved text /\
    parseTaskJsonResponse (JSON_parse env) text = Some updatedTask /\
    truthy_id (pt_id updatedTask) = Some updatedId /\
    ToString updatedId = id args /\
    m = Message "Successfully saved 1 updated tasks." /\
    w' = writeJSON
           (with_tasks data (<[i := task_of updatedId updatedTask]> (tasks data))) w.
Proof.
  unfold execute.
  destruct (String.eqb (rootFolder args) "") eqn:Hroot; [done|].
  destruct (readJSON w) as [data|] eqn:Hread; [|done].
  destruct (List.find _ (tasks data)) as [taskToUpdate|] eqn:Hfind; [|done].
  destruct (requestSampling env) as [sampling|] eqn:Hs; [|done].
  destruct (sampling _) as [msg|text] eqn:Hres; [done|].
  destruct (String.eqb text "") eqn:Htext; [done|].
  destruct (parseTaskJsonResponse _ text) as [updatedTask|] eqn:Hparse; [|done].
  destruct (truthy_id _) as [updatedId|] eqn:Hid; [|done].
  destruct (String.eqb_spec (ToString updatedId) (id args)) as [Heq|Hne];
    cbn [negb]; [|done].
  apply String.eqb_neq in Hroot, Htext.
  pose proof (execute_saved env args w data taskToUpdate sampling text
                updatedTask updatedId Hroot Hread Hfind Hs Hres Htext Hparse Hid Heq)
    as Hexec.
  unfold execute in Hexec. apply String.eqb_neq in Hroot, Htext.
  rewrite Hroot, Hread, Hfind, Hs, Hres, Htext, Hparse, Hid, Heq in Hexec.
  rewrite String.eqb_refl in Hexec. cbn [negb] in Hexec.
  rewrite Hexec. intros [= <- <-].
  pose proof Hfind as Hfound.
  apply find_some in Hfind as [Hin Hstrict].
  apply list_elem_of_In in Hin. apply strict_eq_string_key in Hstrict.
  destruct (first_index (fun t => String.eqb (key t) (id args))
              (tasks data) taskToUpdate Hin)
    as (i & t & Hi & Ht%String.eqb_eq & Hfirst).
  { rewrite Hstrict. apply String.eqb_refl. }
  exists data, i, t, taskToUpdate, sampling, text, updatedTask, updatedId.
  assert (Hku : key (task_of updatedId updatedTask) = id args) by done.
  split; [done|]. split; [done|]. split; [done|]. split.
  { intros j t' Hj Hl. apply String.eqb_neq. by apply (Hfirst j). }
  do 7 (split; [done|]).
  f_equal. f_equal. apply (mergedTasks_single _ _ i t); [done|congruence|].
  intros j t' Hj Hl. rewrite Hku. apply String.eqb_neq. by apply (Hfirst j).
Qed.

Lemma update_task_replaces_one_slot_witness :
  exists data i t taskToUpdate sampling text updatedTask updatedId,
    readJSON (sampleWorld [sampleTask 7 "pending" None;
                           stringTask "7" "pending" (Some [sampleSubtask 1 "done"])])
      = Some data /\
    tasks data !! i = Some t /\ key t = "7" /\
    (forall j t', (j < i)%nat -> tasks data !! j = Some t' -> key t' <> "7") /\
    List.find (fun t => strict_eq_string (task_id t) "7") (tasks data)
      = Some taskToUpdate /\
    requestSampling sampleUpdateTaskEnv = Some sampling /\
    sampling (_buildUpdateTaskPrompt taskToUpdate "more detail") = Resolved text /\
    parseTaskJsonResponse (JSON_parse sampleUpdateTaskEnv) text = Some updatedTask /\
    truthy_id (pt_id updatedTask) = Some updatedId /\
    ToString updatedId = "7" /\
    Message "Successfully saved 1 updated tasks."
      = Message "Successfully saved 1 updated tasks." /\
    mkWorld (Some (mkDocument [mkTask (IdStr "7") "t" "d" "" "" "review" [] "" None;
                               stringTask "7" "pending" (Some [sampleSubtask 1 "done"])]
                              "meta")) None
      = writeJSON (with_tasks data (<[i := task_of updatedId updatedTask]> (tasks data)))
          (sampleWorld [sampleTask 7 "pending" None;
                        stringTask "7" "pending" (Some [sampleSubtask 1 "done"])]).
Proof.
  apply (update_task_replaces_one_slot sampleUpdateTaskEnv
           (mkArgs "7" "more detail" "/p")
           (sampleWorld [sampleTask 7 "pending" None;
                         stringTask "7" "pending" (Some [sampleSubtask 1 "done"])])
           (Message "Successfully saved 1 updated tasks.")).
  vm_compute. reflexivity.
Defined.

(** X17: [update_task] writes only when it reports success: every other
    response, the error envelope of the save included, leaves the stored
    document as it was. *)
Theorem update_task_error_writes_nothing env args w :
  (forall m, (execute env args w).1 <> handleApiResult (Success m)) ->
  (execute env args w).2 = w.
Proof.
  unfold execute.
  destruct (String.eqb (rootFolder args) "") eqn:Hroot; [done|].
  destruct (readJSON w) as [data|] eqn:Hread; [|done].
  destruct (List.find _ (tasks data)) as [taskToUpdate|]; [|done].
  destruct (requestSampling env) as [sampling|]; [|done].
  destruct (sampling _) as [msg|text]; [done|].
  destruct (String.eqb text ""); [done|].
  destruct (parseTaskJsonResponse _ text) as [updatedTask|]; [|done].
  destruct (truthy_id _) as [updatedId|]; [|done].
  destruct (negb _); [done|].
  unfold saveUpdatedTasksDirect.
  cbn [tasksJsonPath projectRoot updatedTasks Array_isArray elements negb].
  rewrite Hroot, Hread. cbn [orb fst snd liftMessage].
  intros H. by destruct (H (Message "Successfully saved 1 updated tasks.")).
Qed.

Lemma update_task_error_writes_nothing_witness :
  (execute sampleUpdateTaskEnv (mkArgs "8" "more detail" "/p")
           (sampleWorld [stringTask "7" "pending" None])).2
  = sampleWorld [stringTask "7" "pending" None].
Proof.
  apply (update_task_error_writes_nothing sampleUpdateTaskEnv
           (mkArgs "8" "more detail" "/p")
           (sampleWorld [stringTask "7" "pending" None])).
  intros m. vm_compute. discriminate.
Defined.
End UpdateTaskFacts.

(** ** The [update] tool *)

Section UpdateExecuteFacts.
Import SaveUpdatedTasks UpdateTool UpdateExecute.

Lemma template_tasks_length l1 l2 :
  length l1 = length l2 -> template (VTasks l1) = template (VTasks l2).
Proof.
  intros H. unfold template. f_equal.
  revert l2 H. induction l1 as [|x l1 IH]; intros [|y l2] H; simpl in *; try done.
  f_equal. apply IH. lia.
Qed.

(** What the tool asks the model: the builder is called with the prompt
    where it expects the tasks, so the request shows the instruction text
    and one [[object Object]] per selected task. *)
Lemma update_request_blind stringify p l1 l2 :
  length l1 = length l2 ->
  _buildUpdateMultipleTasksPrompt stringify (VString p) (VTasks l1) =
  _buildUpdateMultipleTasksPrompt stringify (VString p) (VTasks l2).
Proof.
  intros H. unfold _buildUpdateMultipleTasksPrompt.
  by rewrite (template_tasks_length l1 l2).
Qed.

(** The outcome of a call on a readable document with a selection that is
    not empty: the response and the batch that is merged are determined
    by the request. *)
Lemma execute_by_request env args w d e :
  readTasks env w = Normal (Some d) -> readJSON w = Some e ->
  tasksToUpdateContext (from args) (tasks d) <> [] ->
  rootFolder args <> "" ->
  exists (answer : UpdatePrompts -> ToolResponse * option (list Task)),
    (forall e' w' d', readTasks env w' = Normal (Some d') -> readJSON w' = Some e' ->
       tasksToUpdateContext (from args) (tasks d') <> [] ->
       let r := answer (_buildUpdateMultipleTasksPrompt (JSON_stringify env)
                          (VString (prompt args))
                          (VTasks (tasksToUpdateContext (from args) (tasks d')))) in
       execute env args w' = (r.1, stored r.2 e' w')).
Proof.
  intros _ _ _ Hroot%String.eqb_neq.
  exists (fun prompts =>
    match sample env with
    | None =>
        (createErrorResponse
           "Client-side sampling failed: FastMCP sampling function (context.sample) is not available.", None)
    | Some sampleFn =>
        match sampleFn prompts with
        | Rejected msg =>
            (createErrorResponse ("Client-side sampling failed: " +:+ msg), None)
        | Resolved completionText =>
            if String.eqb completionText "" then
              (createErrorResponse "Received empty completion from client LLM.", None)
            else
              match parseTasksFromCompletion (JSON_parse env) (today env)
                      completionText with
              | None =>
                  (createErrorResponse
                     "Failed to parse valid updated tasks structure from LLM completion.", None)
              | Some updatedTasksData =>
                  (handleApiResult
                     (Success (Message ("Successfully saved "
                        +:+ pretty (length (td_tasks updatedTasksData))
                        +:+ " updated tasks."))),
                   Some (td_tasks updatedTasksData))
              end
        end
    end).
  intros e' w' d' Hr Hj Hctx. unfold execute. rewrite Hroot, Hr.
  destruct (tasksToUpdateContext (from args) (tasks d')) as [|t0 ctx] eqn:Hc; [done|].
  cbv zeta. destruct (sample env) as [sampleFn|]; [|done].
  destruct (sampleFn _) as [msg|text]; [done|].
  destruct (String.eqb text ""); [done|].
  destruct (parseTasksFromCompletion _ _ text) as [updatedTasksData|]; [|done].
  unfold saveUpdatedTasksDirect.
  cbn [tasksJsonPath projectRoot updatedTasks Array_isArray elements negb].
  rewrite Hroot, Hj. reflexivity.
Qed.

(** X18: the [update] tool is blind to the tasks it is asked to update.
    Called on two readable documents that have equally many tasks in the
    range, it sends the same request, gives the same response and merges
    the same batch into either document: the selected tasks reach the
    model only as their number. *)
Theorem update_blind_to_task_content env args w1 w2 d1 d2 e1 e2 :
  readTasks env w1 = Normal (Some d1) -> readTasks env w2 = Normal (Some d2) ->
  readJSON w1 = Some e1 -> readJSON w2 = Some e2 ->
  length (tasksToUpdateContext (from args) (tasks d1)) =
  length (tasksToUpdateContext (from args) (tasks d2)) ->
  exists r b,
    execute env args w1 = (r, stored b e1 w1) /\
    execute env args w2 = (r, stored b e2 w2).
Proof.
  intros Hr1 Hr2 Hj1 Hj2 Hlen.
  destruct (String.eqb (rootFolder args) "") eqn:Hroot.
  { exists (createErrorResponse "Could not determine project root."), None.
    unfold execute. by rewrite Hroot. }
  destruct (tasksToUpdateContext (from args) (tasks d1)) as [|t1 c1] eqn:Hc1.
  { destruct (tasksToUpdateContext (from args) (tasks d2)) as [|t2 c2] eqn:Hc2; [|done].
    eexists _, None. unfold execute. rewrite Hroot, Hr1, Hr2, Hc1, Hc2. done. }
  assert (Hne1 : tasksToUpdateContext (from args) (tasks d1) <> []) by by rewrite Hc1.
  assert (Hne2 : tasksToUpdateContext (from args) (tasks d2) <> []).
  { intros H. rewrite H in Hlen. done. }
  apply String.eqb_neq in Hroot.
  destruct (execute_by_request env args w1 d1 e1 Hr1 Hj1 Hne1 Hroot) as [answer Hanswer].
  pose proof (Hanswer e1 w1 d1 Hr1 Hj1 Hne1) as H1.
  pose proof (Hanswer e2 w2 d2 Hr2 Hj2 Hne2) as H2.
  cbv zeta in H1, H2.
  rewrite (update_request_blind (JSON_stringify env) (prompt args) _ _ (eq_sym Hlen))
    in H2.
  rewrite Hc1 in H1. eexists _, _. split; [exact H1|exact H2].
Qed.

Lemma update_blind_to_task_content_witness :
  exists r b,
    UpdateExecute.execute sampleUpdateEnv (UpdateExecute.mkArgs "1" "use v2" None "/p")
      (sampleWorld [sampleTask 1 "pending" None; sampleTask 2 "done" None])
    = (r, stored b (mkDocument [sampleTask 1 "pending" None; sampleTask 2 "done" None] "meta")
            (sampleWorld [sampleTask 1 "pending" None; sampleTask 2 "done" None])) /\
    UpdateExecute.execute sampleUpdateEnv (UpdateExecute.mkArgs "1" "use v2" None "/p")
      (sampleWorld [sampleTask 5 "blocked" None])
    = (r, stored b (mkDocument [sampleTask 5 "blocked" None] "meta")
            (sampleWorld [sampleTask 5 "blocked" None])).
Proof.
  apply (update_blind_to_task_content sampleUpdateEnv
           (UpdateExecute.mkArgs "1" "use v2" None "/p")
           (sampleWorld [sampleTask 1 "pending" None; sampleTask 2 "done" None])
           (sampleWorld [sampleTask 5 "blocked" None])
           (mkDocument [sampleTask 1 "pending" None; sampleTask 2 "done" None] "meta")
           (mkDocument [sampleTask 5 "blocked" None] "meta")).
  - reflexivity.
  - reflexivity.
  - reflexivity.
  - reflexivity.
  - vm_compute. reflexivity.
Defined.

(** X19: the range filter chooses what the model is shown, not what may
    be written: when the completion names a task outside the selection, a
    finished one for instance, the update is stored as the first task
    under that id, as for any other task.  The order of the stored list
    is taken to be determined: no id of the completion is new to the
    document, or all ids are numerals. *)
Theorem update_overwrites_unselected env args w data sampleFn text parsed t u :
  rootFolder args <> "" ->
  readTasks env w = Normal (Some data) -> readJSON w = Some data ->
  tasksToUpdateContext (from args) (tasks data) <> [] ->
  sample env = Some sampleFn -> (forall p, sampleFn p = Resolved text) -> text <> "" ->
  parseTasksFromCompletion (JSON_parse env) (today env) text = Some parsed ->
  order_determined (tasks data) (td_tasks parsed) ->
  t ∈ tasks data -> selected (from args) t = false ->
  Map_get (key t) (updatedTasksMap (td_tasks parsed)) = Some u ->
  exists data',
    tasks_file (execute env args w).2 = Some data' /\
    firstWithKey (key t) (tasks data') = Some u.
Proof.
  intros Hroot%String.eqb_neq Hr Hj Hctx Hs Hres Htext%String.eqb_neq Hparse Hord
         _ _ Hget.
  unfold execute. rewrite Hroot, Hr.
  destruct (tasksToUpdateContext (from args) (tasks data)) as [|t0 ctx]; [done|].
  cbv zeta. rewrite Hs, Hres, Htext, Hparse.
  unfold saveUpdatedTasksDirect.
  cbn [tasksJsonPath projectRoot updatedTasks Array_isArray elements negb].
  rewrite Hroot, Hj. cbn [orb snd writeJSON tasks_file with_tasks].
  eexists. split; [reflexivity|]. cbn [tasks].
  by apply mergedTasks_first.
Qed.

Lemma update_overwrites_unselected_witness :
  exists data',
    tasks_file (UpdateExecute.execute sampleUpdateEnv
                  (UpdateExecute.mkArgs "2" "use v2" None "/p")
                  (sampleWorld [sampleTask 1 "done" (Some [sampleSubtask 1 "done"]);
                                sampleTask 2 "pending" None])).2 = Some data' /\
    firstWithKey "1" (tasks data') = Some (sampleTask 1 "review" None).
Proof.
  apply (update_overwrites_unselected sampleUpdateEnv
           (UpdateExecute.mkArgs "2" "use v2" None "/p")
           (sampleWorld [sampleTask 1 "done" (Some [sampleSubtask 1 "done"]);
                         sampleTask 2 "pending" None])
           (mkDocument [sampleTask 1 "done" (Some [sampleSubtask 1 "done"]);
                        sampleTask 2 "pending" None] "meta")
           (fun _ => Resolved "{one}") "{one}"
           (UpdateExecute.mkTasksData [sampleTask 1 "review" None] "2025-04-01")
           (sampleTask 1 "done" (Some [sampleSubtask 1 "done"]))).
  - done.
  - reflexivity.
  - reflexivity.
  - vm_compute. discriminate.
  - reflexivity.
  - reflexivity.
  - done.
  - vm_compute. reflexivity.
  - right. split; repeat constructor; eexists; vm_compute; reflexivity.
  - left.
  - vm_compute. reflexivity.
  - vm_compute. reflexivity.
Defined.
End UpdateExecuteFacts.

(** ** The choice of a model *)

Section ModelSelectionFacts.
Import ModelSelection.

Lemma getAnthropicClientForMCP_needs_key host :
  apiKeyOf ANTHROPIC_API_KEY host = None ->
  returned (getAnthropicClientForMCP host) = None.
Proof. unfold getAnthropicClientForMCP. by intros ->. Qed.

Lemma getPerplexityClientForMCP_needs_key host :
  apiKeyOf PERPLEXITY_API_KEY host = None ->
  returned (getPerplexityClientForMCP host) = None.
Proof. unfold getPerplexityClientForMCP. by intros ->. Qed.

(** X20: the four cases of [getBestAvailableAIModel] amount to one rule:
    Perplexity when research is required and its client can be set up,
    otherwise Claude when its client can be set up, otherwise an error.
    Whether Claude is reported as overloaded changes nothing in the model
    that is returned. *)
Theorem getBestAvailableAIModel_rule host options :
  returned (getBestAvailableAIModel host options) =
  match (if requiresResearch options
         then returned (getPerplexityClientForMCP host) else None) with
  | Some client => Some (perplexity, client)
  | None =>
      match returned (getAnthropicClientForMCP host) with
      | Some client => Some (claude, client)
      | None => None
      end
  end.
Proof.
  unfold getBestAvailableAIModel.
  pose proof (getAnthropicClientForMCP_needs_key host) as HA.
  pose proof (getPerplexityClientForMCP_needs_key host) as HP.
  destruct (apiKeyOf PERPLEXITY_API_KEY host) as [pk|] eqn:Hpk;
    destruct (apiKeyOf ANTHROPIC_API_KEY host) as [ak|] eqn:Hak;
    destruct (requiresResearch options), (claudeOverloaded options);
    cbn [andb negb orb];
    rewrite ?bool_decide_eq_true_2 by (by eexists);
    rewrite ?bool_decide_eq_false_2 by (by intros [? ?]);
    cbn [andb negb orb];
    try rewrite (HA eq_refl); try rewrite (HP eq_refl);
    repeat match goal with
           | |- context [getPerplexityClientForMCP host] =>
               destruct (getPerplexityClientForMCP host); cbn [returned] in *
           | |- context [getAnthropicClientForMCP host] =>
               destruct (getAnthropicClientForMCP host); cbn [returned] in *
           end;
    try done; try (specialize (HA eq_refl); done); try (specialize (HP eq_refl); done).
Qed.
End ModelSelectionFacts.

(** ** The analyze tool *)

Section AnalyzeToolFacts.
Import AnalyzeTool.

(** X21: the analyze tool never gets to the model.  Its prompt builder
    returns one string, the tool takes two properties from it and finds
    neither, so every call on a readable document ends in the prompt
    error: nothing is sampled, the direct function is not called and
    nothing is written. *)
Theorem analyze_always_fails env args w data :
  rootFolder args <> "" -> readJSON w = Some data ->
  execute env args w =
    (createErrorResponse "Failed to generate prompt for complexity analysis.", w).
Proof.
  intros Hroot%String.eqb_neq Hr. unfold execute. by rewrite Hroot, Hr.
Qed.

Lemma analyze_always_fails_witness :
  execute sampleAnalyzeEnv (mkArgs "" "" (Some (of_Z 7)) None "/p")
          (sampleWorld [sampleTask 1 "pending" None]) =
    (createErrorResponse "Failed to generate prompt for complexity analysis.",
     sampleWorld [sampleTask 1 "pending" None]).
Proof.
  apply (analyze_always_fails sampleAnalyzeEnv
           (mkArgs "" "" (Some (of_Z 7)) None "/p")
           (sampleWorld [sampleTask 1 "pending" None])
           (mkDocument [sampleTask 1 "pending" None] "meta")).
  - done.
  - reflexivity.
Defined.
End AnalyzeToolFacts.

(** ** The revised [expand_all] tool as a whole *)

Section ExpandAllWhole.
Import SaveMultipleTaskSubtasks ExpandAllRev2.

(** X22: as the module stands, with [complexityReport] bound nowhere, the
    revised [expand_all] tool never writes the document and never reports
    saved subtasks, whatever the tasks, the arguments and the model. *)
Theorem expand_all_unbound_never_writes env args w :
  complexityReport env = module_binding ->
  (execute env args w).2 = w /\
  forall d, (execute env args w).1 <> handleApiResult (Success (Saved d)).
Proof.
  intros Hb. unfold execute.
  destruct (String.eqb (rootFolder args) "") eqn:Hroot; [done|].
  destruct (readJSON w) as [data|] eqn:Hr; [|done].
  destruct (List.filter _ (tasks data)) as [|t l] eqn:Hf; [done|].
  apply String.eqb_neq in Hroot.
  pose proof (rev2_unbound_aborts env args w data t l Hb Hroot Hr Hf) as Hexec.
  unfold execute in Hexec. apply String.eqb_neq in Hroot.
  rewrite Hroot, Hr, Hf in Hexec. by rewrite Hexec.
Qed.

Lemma expand_all_unbound_never_writes_witness :
  (execute (sampleHost 2 module_binding) sampleExpandAllArgs
     (sampleWorld [sampleTask 1 "pending" None])).2
  = sampleWorld [sampleTask 1 "pending" None].
Proof.
  apply (expand_all_unbound_never_writes (sampleHost 2 module_binding)
           sampleExpandAllArgs (sampleWorld [sampleTask 1 "pending" None])).
  reflexivity.
Defined.

Lemma body_push_id env args t u :
  body env args t = Push u -> su_taskId u = task_id t.
Proof.
  unfold body. destruct (complexityReport env); [|done].
  destruct (sample env) as [f|]; [|done].
  destruct (f _) as [|text]; [done|].
  destruct (String.eqb text ""); [done|].
  destruct (AiClientUtils.parseSubtasksFromText _ _); [|done].
  by intros [= <-].
Qed.

(** Every result of the loop is for one of the tasks it went through. *)
Lemma loop_results_ids env args tasksToExpand results failedCount results' n u :
  loop env args tasksToExpand results failedCount = Normal (results', n) ->
  u ∈ results' ->
  u ∈ results \/ exists t, t ∈ tasksToExpand /\ su_taskId u = task_id t.
Proof.
  revert results failedCount.
  induction tasksToExpand as [|t l IH]; intros results failedCount; cbn [loop].
  - intros [= <- _] Hin. by left.
  - destruct (body env args t) as [u0| |msg] eqn:Hbody; [| |done].
    + intros Hloop Hin. destruct (IH _ _ Hloop Hin) as [Hu|(t' & Ht' & Hid)].
      * apply elem_of_app in Hu as [Hu|Hu]; [by left|].
        apply list_elem_of_singleton in Hu as ->. right. exists t.
        split; [left|]. by eapply body_push_id.
      * right. exists t'. split; [by right|done].
    + intros Hloop Hin. destruct (IH _ _ Hloop Hin) as [Hu|(t' & Ht' & Hid)].
      * by left.
      * right. exists t'. split; [by right|done].
Qed.

(** X23: the revised [expand_all] tool, however [complexityReport] is
    bound, changes only tasks that are eligible for expansion: a task
    whose id prints differently from the id of every eligible task is
    stored as it was, in its slot, and no task is added or removed. *)
Theorem expand_all_leaves_other_tasks env args w data data' i t :
  readJSON w = Some data -> tasks data !! i = Some t ->
  (forall t', t' ∈ tasks data -> eligible (ExpandAllRev2.force args) t' = true ->
              ToString (task_id t') <> ToString (task_id t)) ->
  tasks_file (execute env args w).2 = Some data' ->
  tasks data' !! i = Some t /\ length (tasks data') = length (tasks data).
Proof.
  intros Hr Hi Hne. unfold execute.
  assert (Hsame : tasks_file w = Some data' ->
            tasks data' !! i = Some t /\ length (tasks data') = length (tasks data)).
  { unfold readJSON in Hr. rewrite Hr. by intros [= <-]. }
  destruct (String.eqb (rootFolder args) ""); [done|].
  rewrite Hr.
  destruct (List.filter _ (tasks data)) as [|t0 l] eqn:Hf; [done|].
  rewrite <- Hf.
  destruct (loop env args _ [] 0) as [[results n]|msg] eqn:Hloop; [|done].
  destruct results as [|u0 results]; [done|].
  set (saveArgs := SaveMultipleTaskSubtasks.mkArgs _ _ _ _).
  destruct (saveMultiple_world saveArgs w)
    as [Hw | (updates & d & ts & c & Hu & Hr' & Hsl & _ & Hsave)].
  - destruct (saveMultipleTaskSubtasksDirect saveArgs w) as [res w'].
    simpl in *. by subst w'.
  - rewrite Hsave. cbn [snd writeJSON tasks_file]. intros [= <-].
    cbn [with_tasks tasks]. rewrite Hr in Hr'. injection Hr' as <-.
    subst saveArgs. cbn [subtaskUpdates] in Hu. injection Hu as <-.
    cbn [SaveMultipleTaskSubtasks.force] in Hsl.
    split; [|by eapply loop_length].
    rewrite <- Hi. eapply loop_other; [exact Hsl|].
    intros u Hin Htm. apply taskMap_lookup in Htm as (t' & Ht' & Hk).
    rewrite Hi in Ht'. injection Ht' as <-.
    destruct (loop_results_ids _ _ _ _ _ _ _ u Hloop Hin) as [Hu|(t' & Ht' & Hid)].
    { by apply elem_of_nil in Hu. }
    apply list_elem_of_In, filter_In in Ht' as [Ht' Hel].
    apply (Hne t'); [by apply list_elem_of_In|done|]. by rewrite <- Hid.
Qed.

Lemma expand_all_leaves_other_tasks_witness :
  [sampleTask 1 "pending"
     (Some [mkSubtask (Some 1) (Some "a") (Some "b") (Some "") None;
            mkSubtask (Some 2) (Some "c") (Some "d") (Some "e") (Some "done")]);
   sampleTask 4 "done" (Some [sampleSubtask 1 "done"])] !! 1%nat
    = Some (sampleTask 4 "done" (Some [sampleSubtask 1 "done"])) /\
  length [sampleTask 1 "pending"
            (Some [mkSubtask (Some 1) (Some "a") (Some "b") (Some "") None;
                   mkSubtask (Some 2) (Some "c") (Some "d") (Some "e") (Some "done")]);
          sampleTask 4 "done" (Some [sampleSubtask 1 "done"])] = 2%nat.
Proof.
  refine (expand_all_leaves_other_tasks (sampleHost 2 (Some None)) sampleExpandAllArgs
            (sampleWorld [sampleTask 1 "pending" None;
                          sampleTask 4 "done" (Some [sampleSubtask 1 "done"])])
            (mkDocument [sampleTask 1 "pending" None;
                         sampleTask 4 "done" (Some [sampleSubtask 1 "done"])] "meta")
            (mkDocument _ "meta")
            1%nat (sampleTask 4 "done" (Some [sampleSubtask 1 "done"]))
            eq_refl eq_refl _ eq_refl).
  intros t' Ht' Hel.
  repeat (apply elem_of_cons in Ht' as [->|Ht']; [vm_compute in Hel |- *; congruence|]).
  by apply elem_of_nil in Ht'.
Defined.
End ExpandAllWhole.

(** ** Batches of the [expand_all] tool, range of the [update] tool *)

Section BatchFacts.
Import SaveMultipleTaskSubtasks.

(** X24: with [complexityReport] bound, the revised [expand_all] tool
    saves, in one call of the multi-task save, the subtasks of exactly
    those eligible tasks whose generation succeeded, in document order; a
    task whose generation fails is left out and stops nothing. *)
Theorem expand_all_saves_every_success env args w data report :
  ExpandAllRev2.complexityReport env = Some report ->
  ExpandAllRev2.rootFolder args <> "" -> readJSON w = Some data ->
  omap (fun t => match ExpandAllRev2.body env args t with
                 | ExpandAllRev2.Push u => Some u
                 | _ => None
                 end)
       (List.filter (eligible (ExpandAllRev2.force args)) (tasks data)) <> [] ->
  ExpandAllRev2.execute env args w =
    (handleApiResult
       (liftSaved
          (saveMultipleTaskSubtasksDirect
             (mkArgs "tasks.json" (ExpandAllRev2.rootFolder args)
                (Some (omap (fun t => match ExpandAllRev2.body env args t with
                                      | ExpandAllRev2.Push u => Some u
                                      | _ => None
                                      end)
                            (List.filter (eligible (ExpandAllRev2.force args))
                                         (tasks data))))
                (truthy_flag (ExpandAllRev2.force args))) w).1),
     (saveMultipleTaskSubtasksDirect
        (mkArgs "tasks.json" (ExpandAllRev2.rootFolder args)
           (Some (omap (fun t => match ExpandAllRev2.body env args t with
                                 | ExpandAllRev2.Push u => Some u
                                 | _ => None
                                 end)
                       (List.filter (eligible (ExpandAllRev2.force args))
                                    (tasks data))))
           (truthy_flag (ExpandAllRev2.force args))) w).2).
Proof.
  intros Hb Hroot%String.eqb_neq Hr Hne. unfold ExpandAllRev2.execute.
  rewrite Hroot, Hr.
  destruct (List.filter _ (tasks data)) as [|t l] eqn:Hf; [done|].
  destruct (rev2_loop_all env args report (t :: l) [] 0 Hb)
    as (pushed & n & -> & Hp & _).
  subst pushed. rewrite app_nil_l.
  destruct (omap _ (t :: l)) as [|u pushed]; [done|].
  by destruct (saveMultipleTaskSubtasksDirect _ w).
Qed.

Lemma expand_all_saves_every_success_witness :
  ExpandAllRev2.execute (sampleHost 2 (Some None)) sampleExpandAllArgs
    (sampleWorld [sampleTask 1 "pending" None; sampleTask 2 "pending" None;
                  sampleTask 3 "pending" None])
  = (handleApiResult (Success (Saved (mkData
       "Successfully saved subtask updates for 2 tasks. Skipped 0." 2 0))),
     sampleWorld
       [sampleTask 1 "pending"
          (Some [mkSubtask (Some 1) (Some "a") (Some "b") (Some "") None;
                 mkSubtask (Some 2) (Some "c") (Some "d") (Some "e") (Some "done")]);
        sampleTask 2 "pending" None;
        sampleTask 3 "pending"
          (Some [mkSubtask (Some 1) (Some "a") (Some "b") (Some "") None;
                 mkSubtask (Some 2) (Some "c") (Some "d") (Some "e") (Some "done")])]).
Proof.
  refine (eq_trans
            (expand_all_saves_every_success (sampleHost 2 (Some None)) sampleExpandAllArgs
               (sampleWorld [sampleTask 1 "pending" None; sampleTask 2 "pending" None;
                             sampleTask 3 "pending" None])
               (mkDocument [sampleTask 1 "pending" None; sampleTask 2 "pending" None;
                            sampleTask 3 "pending" None] "meta")
               None eq_refl _ eq_refl _) _).
  - done.
  - vm_compute. discriminate.
  - vm_compute. reflexivity.
Defined.

Section Rev1.
Import ExpandAllRev1.
Context (gen : Task -> string -> string -> option bool -> string * string)
        (parse : string -> option (list Subtask))
        (save : list Update -> option bool -> World -> Envelope Data * World)
        (sample : option (string -> string -> SamplingOutcome)).

(** X25: the earlier revision of [expand_all] hands to its save function
    the updates of exactly those eligible tasks that could be expanded,
    in document order, whatever builds the prompt, parses the completion
    and saves; a task that fails is skipped. *)
Theorem expand_all_rev1_saves_every_success args w data :
  rootFolder args <> "" -> readJSON w = Some data ->
  omap (body gen parse sample args)
       (List.filter (eligible (force args)) (tasks data)) <> [] ->
  execute gen parse save sample args w =
    (handleApiResult
       (liftSaved
          (save (omap (body gen parse sample args)
                      (List.filter (eligible (force args)) (tasks data)))
                (force args) w).1),
     (save (omap (body gen parse sample args)
                 (List.filter (eligible (force args)) (tasks data)))
           (force args) w).2).
Proof.
  intros Hroot%String.eqb_neq Hr Hne. unfold execute. rewrite Hroot, Hr.
  destruct (List.filter _ (tasks data)) as [|t l] eqn:Hf; [done|].
  rewrite rev1_loop_all, app_nil_l.
  destruct (omap _ (t :: l)) as [|u pushed]; [done|].
  by destruct (save _ _ w).
Qed.
End Rev1.

Lemma expand_all_rev1_saves_every_success_witness :
  ExpandAllRev1.execute
    (fun t _ _ _ => ("system", ToString (task_id t)))
    (fun text => if String.eqb text "[two]" then Some [sampleSubtask 1 "pending"] else None)
    (fun updates _ w => (Success (mkData "saved" (length updates) 0), w))
    (Some (fun user _ => if String.eqb user "2" then Rejected "overloaded"
                         else Resolved "[two]"))
    (ExpandAllRev1.mkArgs "" None "" None "/p")
    (sampleWorld [sampleTask 1 "pending" None; sampleTask 2 "pending" None;
                  sampleTask 3 "pending" None])
  = (handleApiResult (Success (Saved (mkData "saved" 2 0))),
     sampleWorld [sampleTask 1 "pending" None; sampleTask 2 "pending" None;
                  sampleTask 3 "pending" None]).
Proof.
  refine (eq_trans
            (expand_all_rev1_saves_every_success
               (fun t _ _ _ => ("system", ToString (task_id t)))
               (fun text => if String.eqb text "[two]"
                            then Some [sampleSubtask 1 "pending"] else None)
               (fun updates _ w => (Success (mkData "saved" (length updates) 0), w))
               (Some (fun user _ => if String.eqb user "2" then Rejected "overloaded"
                                    else Resolved "[two]"))
               (ExpandAllRev1.mkArgs "" None "" None "/p")
               (sampleWorld [sampleTask 1 "pending" None; sampleTask 2 "pending" None;
                             sampleTask 3 "pending" None])
               (mkDocument [sampleTask 1 "pending" None; sampleTask 2 "pending" None;
                            sampleTask 3 "pending" None] "meta")
               _ eq_refl _) _).
  - done.
  - vm_compute. discriminate.
  - vm_compute. reflexivity.
Defined.
End BatchFacts.

Section RangeFacts.
Import UpdateTool UpdateExecute.

Lemma ge_trans a b c : ge a b = true -> ge b c = true -> ge a c = true.
Proof.
  destruct a as [| |x|], b as [| |y|], c as [| |z|]; simpl; try done.
  rewrite !Qle_bool_iff. intros; lra.
Qed.

Lemma ge_NaN a : ge a NaN = false.
Proof. by destruct a. Qed.

(** X26: the range of the [update] tool shrinks as [from] grows: a task
    selected from a number is selected from every smaller one. *)
Theorem range_filter_monotone from1 from2 t :
  ge (parseFloat from1) (parseFloat from2) = true ->
  selected from1 t = true -> selected from2 t = true.
Proof.
  intros Hge. unfold selected. cbv zeta.
  rewrite !andb_true_iff. intros [[Hn Hsel] Hst].
  repeat split; [done| |done]. by eapply ge_trans.
Qed.

Lemma range_filter_monotone_witness :
  selected "2" (sampleTask 7 "pending" None) = true.
Proof.
  apply (range_filter_monotone "5" "2" (sampleTask 7 "pending" None)).
  - vm_compute. reflexivity.
  - vm_compute. reflexivity.
Defined.

(** X27: a [from] that does not start with a numeral selects nothing:
    the tool answers that there is no task to update, asks the model
    nothing and writes nothing, whatever the document holds. *)
Theorem update_non_numeric_from env args w data :
  rootFolder args <> "" -> readTasks env w = Normal (Some data) ->
  parseFloat (from args) = NaN ->
  execute env args w =
    (handleApiResult
       (Success (Message ("No tasks found with ID >= " +:+ from args
                            +:+ " to update."))), w).
Proof.
  intros Hroot%String.eqb_neq Hr Hnan. unfold execute. rewrite Hroot, Hr.
  assert (Hnone : tasksToUpdateContext (from args) (tasks data) = []).
  { unfold tasksToUpdateContext. apply filter_none. intros t _.
    unfold selected. cbv zeta. rewrite Hnan, ge_NaN. by rewrite andb_false_r. }
  by rewrite Hnone.
Qed.

Lemma update_non_numeric_from_witness :
  execute sampleUpdateEnv (mkArgs "all" "use v2" None "/p")
          (sampleWorld [sampleTask 1 "pending" None]) =
    (handleApiResult (Success (Message "No tasks found with ID >= all to update.")),
     sampleWorld [sampleTask 1 "pending" None]).
Proof.
  apply (update_non_numeric_from sampleUpdateEnv (mkArgs "all" "use v2" None "/p")
           (sampleWorld [sampleTask 1 "pending" None])
           (mkDocument [sampleTask 1 "pending" None] "meta")).
  - done.
  - reflexivity.
  - vm_compute. reflexivity.
Defined.
End RangeFacts.

(** ** Two invariants of the stored document *)

Section DocumentInvariants.
Import SaveUpdatedTasks.

Lemma NoDup_filter_keys {V} (P : string * V -> bool) (m : JsMap V) :
  NoDup (map fst m) -> NoDup (map fst (List.filter P m)).
Proof.
  induction m as [|e m IH]; simpl; [done|].
  intros [Hn Hnd]%NoDup_cons. destruct (P e); simpl; [|by apply IH].
  apply NoDup_cons. split; [|by apply IH].
  intros Hin. apply Hn.
  apply list_elem_of_fmap in Hin as (e' & -> & Hin).
  apply list_elem_of_fmap_2.
  apply list_elem_of_In, filter_In in Hin as [Hin _]. by apply list_elem_of_In.
Qed.

Lemma keyed_values_keys (m : JsMap Task) :
  keyed m -> map key (Map_values m) = map fst m.
Proof.
  unfold Map_values. induction m as [|[k v] m IH]; intros Hk; simpl; [done|].
  rewrite (Hk k v) by left. f_equal. apply IH.
  intros k' v' Hin. apply Hk. by right.
Qed.

(** X28: the merge keeps ids unique: when no two tasks of the document
    have the same id, as strings, no two tasks of the merged list have,
    whatever the batch repeats or adds. *)
Theorem merge_keeps_ids_unique existing updated :
  NoDup (map key existing) -> NoDup (map key (mergedTasks existing updated)).
Proof.
  intros Hnd.
  rewrite (Permutation_map key (mergedTasks_Permutation existing updated)).
  rewrite map_app.
  rewrite (mergeTasks_keys existing _ (updatedTasksMap_keyed updated)).
  rewrite (keyed_values_keys _
             (mergeTasks_leftover_keyed existing _ (updatedTasksMap_keyed updated))).
  apply NoDup_app. split; [done|]. split.
  - intros k Hk Hin. apply list_elem_of_fmap in Hin as ([k' v] & -> & Hin).
    by apply mergeTasks_leftover_fresh in Hin.
  - rewrite mergeTasks_leftover. apply NoDup_filter_keys, updatedTasksMap_NoDup.
Qed.

Lemma merge_keeps_ids_unique_witness :
  NoDup (map key (mergedTasks [sampleTask 2 "pending" None; sampleTask 1 "pending" None]
                              [sampleTask 3 "pending" None; sampleTask 3 "done" None;
                               sampleTask 1 "done" None])).
Proof.
  apply (merge_keeps_ids_unique
           [sampleTask 2 "pending" None; sampleTask 1 "pending" None]
           [sampleTask 3 "pending" None; sampleTask 3 "done" None;
            sampleTask 1 "done" None]).
  apply (bool_decide_unpack _). vm_compute. exact I.
Defined.

Import SaveMultipleTaskSubtasks.

(** X29: the multi-task save changes nothing but subtasks: the metadata
    stay, and every slot of the stored document holds a task with the id,
    title, description, details, test strategy, status, dependencies and
    priority that the task in that slot had. *)
Theorem saveMultiple_changes_only_subtasks args w data data' i t :
  readJSON w = Some data -> tasks data !! i = Some t ->
  tasks_file (saveMultipleTaskSubtasksDirect args w).2 = Some data' ->
  metadata data' = metadata data /\
  exists t',
    tasks data' !! i = Some t' /\
    (task_id t', task_title t', task_description t', task_details t',
     task_testStrategy t', task_status t', task_dependencies t', task_priority t')
    = (task_id t, task_title t, task_description t, task_details t,
       task_testStrategy t, task_status t, task_dependencies t, task_priority t).
Proof.
  intros Hr Hi.
  destruct (saveMultiple_world args w)
    as [-> | (updates & d & ts & c & Hu & Hr' & Hloop & _ & ->)].
  - unfold readJSON in Hr. rewrite Hr. intros [= <-]. split; [done|].
    by exists t.
  - cbn [snd writeJSON tasks_file]. intros [= <-]. cbn [with_tasks tasks metadata].
    rewrite Hr in Hr'. injection Hr' as <-. split; [done|].
    pose proof (loop_same_but_subtasks _ _ _ _ _ _ _ Hloop) as Hsame.
    destruct (Forall2_lookup_l _ _ _ _ _ Hsame Hi) as (t' & Ht' & Heq).
    exists t'. split; [done|].
    specialize (Heq []). unfold set_subtasks in Heq. by injection Heq as -> -> -> -> -> -> -> ->.
Qed.

Lemma saveMultiple_changes_only_subtasks_witness :
  metadata (mkDocument
              [sampleTask 1 "pending"
                 (Some [mkSubtask (Some 1) (Some "t") (Some "d") (Some "") (Some "pending")])]
              "meta")
  = metadata (mkDocument [sampleTask 1 "pending" None] "meta").
Proof.
  refine (proj1 (saveMultiple_changes_only_subtasks
            (mkArgs "tasks.json" "/p"
               (Some [mkSubtaskUpdate (IdNum 1) (Some [sampleSubtask 7 "pending"])]) true)
            (sampleWorld [sampleTask 1 "pending" None])
            (mkDocument [sampleTask 1 "pending" None] "meta")
            (mkDocument _ "meta")
            0%nat (sampleTask 1 "pending" None)
            eq_refl eq_refl eq_refl)).
Defined.
End DocumentInvariants.
